(** * The voice pipeline of ChatInterface.jsx

    A shallow embedding of the voice helpers and of the voice session
    controller defined in [src/pages/ChatInterface.jsx]:

    - [convertFloat32ToInt16], [downsampleBuffer], [encodeWAV],
      [int16ToBase64], [arrayBufferToBase64]   (sample converter)
    - [startVoiceRecording], [stopVoiceRecording] and the callbacks they
      install ([ws.onopen], [ws.onmessage], [workletNode.port.onmessage])
    - the mount effect, [updateConversations], [handleSubmit],
      [handleFileUpload], [handleNewConversation],
      [handleSelectConversation] and the date dividers of the sidebar
      (module [Chat]).

    Conventions of the embedding.

    - A JavaScript Number is an IEEE 754 double ([Number]); every
      arithmetic operation rounds its exact result to the nearest double
      ([binary64]).  [downsampleBuffer] is embedded on Numbers throughout:
      its ratio, its lengths, its offsets, its sums and its counters.  In
      [convertFloat32ToInt16] the samples are Float32 values, on which the
      arithmetic of the function is exact; there a Number is the rational
      it is ([Q]).  Sizes and offsets of [encodeWAV] are integers ([Z]).
    - A typed array is the [list] of its elements; [a[i]] is stdpp's lookup
      and [a[i] = v] is stdpp's insert.  What JavaScript does out of range is
      written out where it can happen.  Where the source looks at the
      [ArrayBuffer] under an array, the array comes with its buffer
      ([Int16Array.t]).
    - A sample rate is a [positive].
    - Loops are [Fixpoint]s on a fuel that bounds their turns; running out
      of fuel is a fault of its own ([Diverged]), and the theorems show that
      it does not happen.
    - The controller runs on one event loop.  Each stretch of code between
      two [await]s, and each callback, is one step of a transition system
      whose events are the calls of the UI, the settling of promises and the
      events of the browser objects; the theorems about interleavings
      quantify over lists of events.
    - A closure holds the [recording] constant of the render that created
      it, and the calls of the UI reach the closures of the last render. *)

From Stdlib Require Import ZArith QArith Qround Qabs Qpower Lia Lqa Ascii String.
From Stdlib Require Qcanon.
From stdpp Require Import base list.

Local Open Scope Z_scope.

(** ** JavaScript Numbers

    A Number is an IEEE 754 double: a rational that the binary64 format
    holds, an infinity, or NaN.  The sign of a zero is not kept; nothing in
    the helpers can tell -0 from 0 (they divide by a rate, by a ratio of
    rates and by a count only, none of which is ever -0). *)
Inductive Number : Type :=
| Finite (q : Q)
| PosInfinity
| NegInfinity
| NaN.

(** 2^k, for any integer k. *)
Definition pow2 (k : Z) : Q := (2 ^ k)%Q.

(** The integer part of the binary logarithm of a positive rational. *)
Definition Qlog2 (x : Q) : Z :=
  let k := Z.log2 (Qnum x) - Z.log2 (Z.pos (Qden x)) in
  if Qle_bool (pow2 k) x then k else k - 1.

(** The nearest integer, a tie going to the even one. *)
Definition round_half_even (x : Q) : Z :=
  let f := Qfloor x in
  match (x - inject_Z f ?= 1 # 2)%Q with
  | Lt => f
  | Gt => f + 1
  | Eq => if Z.even f then f else f + 1
  end.

(** The exponent of the last bit of the significand that a double near [x]
    has: 53 bits are kept, and no bit below 2^-1074. *)
Definition exponent (x : Q) : Z := Z.max (-1074) (Qlog2 (Qabs x) - 52).

(** The double nearest to a rational, as every arithmetic operation on
    Numbers returns it: the rational is rounded to a multiple of
    2^[exponent], a tie going to the even multiple, and anything that rounds
    to 2^1024 or beyond is an infinity. *)
Definition binary64 (x : Q) : Number :=
  let e := exponent x in
  let m := round_half_even (x / pow2 e) in
  let y := Qred (inject_Z m * pow2 e) in
  if Qle_bool (pow2 1024) (Qabs y)
  then if 0 <? m then PosInfinity else NegInfinity
  else Finite y.

(** An integer as a Number. *)
Definition Number_of_Z (z : Z) : Number := binary64 (inject_Z z).

Definition sign (x : Q) : comparison := (x ?= 0)%Q.

(** [a + b]. *)
Definition Number_add (a b : Number) : Number :=
  match a, b with
  | Finite x, Finite y => binary64 (x + y)
  | NaN, _ | _, NaN => NaN
  | PosInfinity, NegInfinity | NegInfinity, PosInfinity => NaN
  | PosInfinity, _ | _, PosInfinity => PosInfinity
  | NegInfinity, _ | _, NegInfinity => NegInfinity
  end.

(** [a * b]. *)
Definition Number_mul (a b : Number) : Number :=
  match a, b with
  | Finite x, Finite y => binary64 (x * y)
  | NaN, _ | _, NaN => NaN
  | Finite x, PosInfinity | PosInfinity, Finite x =>
      match sign x with Eq => NaN | Gt => PosInfinity | Lt => NegInfinity end
  | Finite x, NegInfinity | NegInfinity, Finite x =>
      match sign x with Eq => NaN | Gt => NegInfinity | Lt => PosInfinity end
  | PosInfinity, PosInfinity | NegInfinity, NegInfinity => PosInfinity
  | PosInfinity, NegInfinity | NegInfinity, PosInfinity => NegInfinity
  end.

(** [a / b]; a zero divisor is +0. *)
Definition Number_div (a b : Number) : Number :=
  match a, b with
  | Finite x, Finite y =>
      match sign y with
      | Eq => match sign x with Eq => NaN | Gt => PosInfinity | Lt => NegInfinity end
      | _ => binary64 (x / y)
      end
  | NaN, _ | _, NaN => NaN
  | Finite _, _ => Finite 0
  | PosInfinity, Finite y =>
      match sign y with Lt => NegInfinity | _ => PosInfinity end
  | NegInfinity, Finite y =>
      match sign y with Lt => PosInfinity | _ => NegInfinity end
  | _, _ => NaN
  end.

(** [a < b]: false when either side is NaN. *)
Definition Number_ltb (a b : Number) : bool :=
  match a, b with
  | Finite x, Finite y => negb (Qle_bool y x)
  | NaN, _ | _, NaN => false
  | NegInfinity, NegInfinity | PosInfinity, _ | _, NegInfinity => false
  | _, _ => true
  end.

(** [Math.round(x)]: the integer nearest to [x], ties going up; an infinity
    and NaN are returned as they are.  (The result is a double: a double of
    2^52 or more is an integer already.) *)
Definition Math_round (x : Number) : Number :=
  match x with
  | Finite q => Finite (inject_Z (Qfloor (q + (1 # 2))))
  | _ => x
  end.

(** [Math.min(a, b)] and [Math.max(a, b)] on Numbers: NaN if either is. *)
Definition Number_min (a b : Number) : Number :=
  match a, b with
  | NaN, _ | _, NaN => NaN
  | _, _ => if Number_ltb b a then b else a
  end.

Definition Number_max (a b : Number) : Number :=
  match a, b with
  | NaN, _ | _, NaN => NaN
  | _, _ => if Number_ltb a b then b else a
  end.

(** ** Faults and the error monad *)

(** What can go wrong in a run.  [RangeError] is the JavaScript exception of
    [new Int16Array(n)] for a length that is none and of a [DataView] write
    outside the buffer, [InvalidStateError] that of [WebSocket.send] on a
    socket that is still connecting, [ReferenceError] that of the evaluation
    of a name that is not bound, [UserMediaError] the reason with which
    [getUserMedia] rejects.  The other two are not exceptions in JavaScript:
    an out-of-range read yields [undefined], which the arithmetic turns into
    NaN; the model stops there instead, so that its absence is a statement
    about the result, and [Diverged] is a loop that outlives its fuel. *)
Inductive fault : Type :=
| RangeError
| InvalidStateError
| ReferenceError
| UserMediaError
| OutOfBounds (i : Number)
| Diverged.

Inductive outcome (A : Type) : Type :=
| Ok (a : A)
| Error (e : fault).
Arguments Ok {A} a.
Arguments Error {A} e.

(** [x ← m; k] runs [m] and, unless it failed, [k] on its value. *)
#[global] Instance outcome_ret : MRet outcome := fun A a => Ok a.
#[global] Instance outcome_bind : MBind outcome := fun A B k m =>
  match m with
  | Ok a => k a
  | Error e => Error e
  end.

(** ** JavaScript primitives used by the helpers *)

Definition len {A : Type} (a : list A) : Z := Z.of_nat (length a).

(** [Math.min] and [Math.max] on finite numbers (in [convertFloat32ToInt16],
    whose samples are Float32 values: the clamp and the product of such a
    value with 32767 or 32768 are exact in doubles, so that the rationals
    stand for the Numbers there). *)
Definition Math_min (a b : Q) : Q := if Qle_bool a b then a else b.
Definition Math_max (a b : Q) : Q := if Qle_bool a b then b else a.

(** Dropping the fractional part (truncation toward zero), the first step of
    every conversion of a Number to an integer type. *)
Definition truncate (x : Q) : Z := Z.quot (Qnum x) (Z.pos (Qden x)).

(** [ToInt16]: what a store into an [Int16Array] does to a Number: truncate,
    then wrap modulo 2^16 into [-32768, 32767]; an infinity and NaN are
    stored as 0. *)
Definition wrap16 (z : Z) : Z := (z + 32768) mod 65536 - 32768.
Definition ToInt16 (x : Q) : Z := wrap16 (truncate x).

Definition Number_ToInt16 (x : Number) : Z :=
  match x with
  | Finite q => ToInt16 q
  | _ => 0
  end.

(** [ToUint32], [ToUint16] and [ToUint8] on integers, as done by the
    [setUint32], [setUint16] and [setUint8] of a [DataView]. *)
Definition ToUint32 (z : Z) : Z := z mod 4294967296.
Definition ToUint16 (z : Z) : Z := z mod 65536.
Definition ToUint8 (z : Z) : Z := z mod 256.

(** The position in an array that a Number names: a non-negative integer
    does, nothing else. *)
Definition index (i : Number) : option nat :=
  match i with
  | Finite q =>
      if Qeq_bool (inject_Z (Qfloor q)) q && (0 <=? Qfloor q)
      then Some (Z.to_nat (Qfloor q)) else None
  | _ => None
  end.

(** [a.length], a Number. *)
Definition length_of {A : Type} (a : list A) : Number := Number_of_Z (len a).

(** [a[i]] for a read that the source expects to be in range. *)
Definition read (a : list Z) (i : Number) : outcome Number :=
  match index i ≫= (a !!.) with
  | Some x => Ok (Number_of_Z x)
  | None => Error (OutOfBounds i)
  end.

(** [a[i] = v] on an [Int16Array]: outside the array nothing is stored. *)
Definition store (a : list Z) (i : Number) (v : Number) : list Z :=
  match index i with
  | Some n => <[n := Number_ToInt16 v]> a
  | None => a
  end.

(** ** convertFloat32ToInt16 *)

(** The [for] loop from index [i] on; [n] is [l - i], the number of turns
    left.  ([buffer[i]] outside the buffer would be [undefined], which the
    arithmetic turns into [NaN] and the store into 0.) *)
Fixpoint convertLoop (n : nat) (buffer : list Q) (i : nat) (result : list Z)
  : list Z :=
  match n with
  | O => result
  | S n' =>
      match buffer !! i with
      | Some x =>
          let s := Math_max (-1) (Math_min 1 x) in
          let v := if Qlt_le_dec s 0 then (s * 32768)%Q else (s * 32767)%Q in
          convertLoop n' buffer (S i) (<[i := ToInt16 v]> result)
      | None => convertLoop n' buffer (S i) (<[i := 0]> result)
      end
  end.

Definition convertFloat32ToInt16 (buffer : list Q) : list Z :=
  let l := length buffer in
  let result := replicate l 0 in
  convertLoop l buffer 0%nat result.

(** ** downsampleBuffer *)

(** The inner [for] loop: [for (let i = offsetBuffer; i < nextOffsetBuffer
    && i < buffer.length; i++) { accum += buffer[i]; count++; }]. *)
Fixpoint forLoop (fuel : nat) (buffer : list Z) (i nextOffsetBuffer : Number)
    (accum count : Number) : outcome (Number * Number) :=
  match fuel with
  | O => Error Diverged
  | S fuel' =>
      if Number_ltb i nextOffsetBuffer && Number_ltb i (length_of buffer) then
        x ← read buffer i;
        forLoop fuel' buffer (Number_add i (Finite 1)) nextOffsetBuffer
                (Number_add accum x) (Number_add count (Finite 1))
      else Ok (accum, count)
  end.

(** The outer [while (offsetResult < result.length)] loop. *)
Fixpoint whileLoop (fuel : nat) (buffer : list Z) (sampleRateRatio : Number)
    (result : list Z) (offsetResult offsetBuffer : Number) : outcome (list Z) :=
  match fuel with
  | O => Error Diverged
  | S fuel' =>
      if Number_ltb offsetResult (length_of result) then
        let nextOffsetBuffer :=
          Math_round (Number_mul (Number_add offsetResult (Finite 1)) sampleRateRatio) in
        '(accum, count) ←
          forLoop (S (length buffer)) buffer offsetBuffer nextOffsetBuffer
                  (Finite 0) (Finite 0);
        let v :=
          Number_min (Finite 32767)
            (Number_max (Finite (-32768))
               (Math_round (Number_mul (Number_div accum count) (Finite 32767)))) in
        whileLoop fuel' buffer sampleRateRatio (store result offsetResult v)
                  (Number_add offsetResult (Finite 1)) nextOffsetBuffer
      else Ok result
  end.

(** [ToIndex], by which [new Int16Array(n)] reads its length: NaN is 0, the
    fractional part is dropped, and what is then negative or above 2^53 - 1
    is refused. *)
Definition ToIndex (n : Number) : option Z :=
  match n with
  | NaN => Some 0
  | Finite q =>
      let integer := truncate q in
      if (0 <=? integer) && (integer <=? 2 ^ 53 - 1) then Some integer else None
  | _ => None
  end.

(** [new Int16Array(n)]. *)
Definition new_Int16Array (n : Number) : outcome (list Z) :=
  match ToIndex n with
  | Some k => Ok (replicate (Z.to_nat k) 0)
  | None => Error RangeError
  end.

Definition rate_warning : string :=
  "Downsampling rate should be smaller than original sample rate".

(** The function returns what it wrote with [console.error] and its value. *)
Definition downsampleBuffer (buffer : list Z) (sampleRate outSampleRate : positive)
  : list string * outcome (list Z) :=
  if (outSampleRate =? sampleRate)%positive then ([], Ok buffer)
  else if (sampleRate <? outSampleRate)%positive then ([rate_warning], Ok buffer)
  else
    let sampleRateRatio :=
      Number_div (Number_of_Z (Z.pos sampleRate)) (Number_of_Z (Z.pos outSampleRate)) in
    let newLength := Math_round (Number_div (length_of buffer) sampleRateRatio) in
    ([], result ← new_Int16Array newLength;
         whileLoop (S (length result)) buffer sampleRateRatio result
                   (Finite 0) (Finite 0)).

(** ** encodeWAV *)

(** A [DataView] over an [ArrayBuffer] is the list of its bytes.  Every write
    throws a [RangeError] when it does not fit in the buffer; multi-byte
    writes are little-endian (the source always passes [true]). *)
Definition fits (view : list Z) (offset size : Z) : bool :=
  (0 <=? offset) && (offset + size <=? len view).

Definition setUint8 (view : list Z) (offset v : Z) : outcome (list Z) :=
  if fits view offset 1 then Ok (<[Z.to_nat offset := ToUint8 v]> view)
  else Error RangeError.

Definition setUint16 (view : list Z) (offset v : Z) : outcome (list Z) :=
  if fits view offset 2 then
    let u := ToUint16 v in
    Ok (<[Z.to_nat (offset + 1) := u / 256]>
        (<[Z.to_nat offset := u mod 256]> view))
  else Error RangeError.

(** [setInt16] stores the two's complement of its value: the same two bytes. *)
Definition setInt16 (view : list Z) (offset v : Z) : outcome (list Z) :=
  setUint16 view offset v.

Definition setUint32 (view : list Z) (offset v : Z) : outcome (list Z) :=
  if fits view offset 4 then
    let u := ToUint32 v in
    Ok (<[Z.to_nat (offset + 3) := u / 16777216]>
        (<[Z.to_nat (offset + 2) := (u / 65536) mod 256]>
         (<[Z.to_nat (offset + 1) := (u / 256) mod 256]>
          (<[Z.to_nat offset := u mod 256]> view))))
  else Error RangeError.

(** Reading a little-endian field back (a byte outside the buffer reads 0). *)
Definition getUint8 (view : list Z) (offset : Z) : Z :=
  default 0 (view !! Z.to_nat offset).

Definition getUint32 (view : list Z) (offset : Z) : Z :=
  getUint8 view offset + 256 * getUint8 view (offset + 1)
  + 65536 * getUint8 view (offset + 2) + 16777216 * getUint8 view (offset + 3).

(** [writeString(view, offset, string)]: one [setUint8] per character. *)
Fixpoint writeString (view : list Z) (offset : Z) (s : string)
  : outcome (list Z) :=
  match s with
  | EmptyString => Ok view
  | String c s' =>
      view ← setUint8 view offset (Z.of_nat (Ascii.nat_of_ascii c));
      writeString view (offset + 1) s'
  end.

(** [for (let i = 0; i < samples.length; i++, offset += 2)
      view.setInt16(offset, samples[i], true);] *)
Fixpoint writeSamples (view : list Z) (offset : Z) (samples : list Z)
  : outcome (list Z) :=
  match samples with
  | [] => Ok view
  | x :: samples' =>
      view ← setInt16 view offset x;
      writeSamples view (offset + 2) samples'
  end.

(** The value is the content of the [Blob], that is, of the whole buffer. *)
Definition encodeWAV (samples : list Z) (sampleRate : positive)
  : outcome (list Z) :=
  let buffer := replicate (Z.to_nat (44 + len samples * 2)) 0 in
  let view := buffer in
  let offset := 0 in
  view ← writeString view offset "RIFF"; let offset := offset + 4 in
  view ← setUint32 view offset (36 + len samples * 2); let offset := offset + 4 in
  view ← writeString view offset "WAVE"; let offset := offset + 4 in
  view ← writeString view offset "fmt "; let offset := offset + 4 in
  view ← setUint32 view offset 16; let offset := offset + 4 in
  view ← setUint16 view offset 1; let offset := offset + 2 in
  view ← setUint16 view offset 1; let offset := offset + 2 in
  view ← setUint32 view offset (Z.pos sampleRate); let offset := offset + 4 in
  view ← setUint32 view offset (Z.pos sampleRate * 2); let offset := offset + 4 in
  view ← setUint16 view offset 2; let offset := offset + 2 in
  view ← setUint16 view offset 16; let offset := offset + 2 in
  view ← writeString view offset "data"; let offset := offset + 4 in
  view ← setUint32 view offset (len samples * 2); let offset := offset + 4 in
  writeSamples view offset samples.

(** The two declared sizes of a container. *)
Definition riffChunkSize (blob : list Z) : Z := getUint32 blob 4.
Definition dataChunkSize (blob : list Z) : Z := getUint32 blob 40.

(** ** The voice session controller *)

(** *** The objects the controller creates

    The four refs ([wsRef], [mediaStreamRef], [audioContextRef],
    [workletNodeRef]) hold references to browser objects.  Objects live in a
    store, one list per class, and a reference is an index into it, so that
    an object that no ref points to any more still exists. *)

Inductive ReadyState : Type := CONNECTING | OPEN | CLOSING | CLOSED.

(** The two JSON envelopes sent on the socket.  The audio envelope carries
    the base64 text of the PCM buffer; the model keeps the buffer itself. *)
Inductive frame : Type :=
| setupMessage
| realtimeInput (media_chunk : list Z).

Record WebSocket : Type := {
  readyState : ReadyState;
  sent : list frame
}.

Record MediaStream : Type := { live : bool }.

Inductive ContextState : Type := running | closed.

Record AudioContext : Type := {
  ctxState : ContextState;
  sampleRate : positive
}.

(** An [AudioWorkletNode] with the closure installed as its
    [port.onmessage]: the closure holds the [recording] constant of the render
    that defined [startVoiceRecording], and the [audioContext] local. *)
Record WorkletNode : Type := {
  attached : bool;
  closure_recording : bool;
  closure_audioContext : nat
}.

(** An [async] function suspended at an [await], with the variables it holds. *)
Inductive pending : Type :=
| AwaitUserMedia (captured_recording : bool)
| AwaitAddModule (captured_recording : bool) (audioContext : nat)
| AwaitArrayBuffer (data : list Z).

(** Calls that release a resource, in the order they are made. *)
Inductive call : Type :=
| node_disconnect (n : nat)
| audioContext_close (c : nat)
| tracks_stop (m : nat)
| ws_close (w : nat).

(** The state of the component and of the browser around it: the React
    state [recording] and [isThinking] as of the last render; the four refs;
    the store; the suspended [async] calls (a settled one leaves [None] in
    its place); the clips handed to [audio.play()]; the release calls made;
    the exceptions that browser methods threw at the controller; the
    exceptions that ended a call of [startVoiceRecording], which nobody
    catches. *)
Record state : Type := {
  recording : bool;
  isThinking : bool;
  wsRef : option nat;
  mediaStreamRef : option nat;
  audioContextRef : option nat;
  workletNodeRef : option nat;
  sockets : list WebSocket;
  streams : list MediaStream;
  contexts : list AudioContext;
  nodes : list WorkletNode;
  tasks : list (option pending);
  played : list (list Z);
  calls : list call;
  thrown : list fault;
  uncaught : list fault
}.

Definition initial : state := {|
  recording := false; isThinking := false;
  wsRef := None; mediaStreamRef := None;
  audioContextRef := None; workletNodeRef := None;
  sockets := []; streams := []; contexts := []; nodes := [];
  tasks := []; played := []; calls := []; thrown := []; uncaught := []
|}.

Definition set_recording (b : bool) (s : state) : state :=
  {| recording := b; isThinking := isThinking s;
     wsRef := wsRef s; mediaStreamRef := mediaStreamRef s;
     audioContextRef := audioContextRef s; workletNodeRef := workletNodeRef s;
     sockets := sockets s; streams := streams s; contexts := contexts s;
     nodes := nodes s; tasks := tasks s; played := played s;
     calls := calls s; thrown := thrown s; uncaught := uncaught s |}.

Definition set_isThinking (b : bool) (s : state) : state :=
  {| recording := recording s; isThinking := b;
     wsRef := wsRef s; mediaStreamRef := mediaStreamRef s;
     audioContextRef := audioContextRef s; workletNodeRef := workletNodeRef s;
     sockets := sockets s; streams := streams s; contexts := contexts s;
     nodes := nodes s; tasks := tasks s; played := played s;
     calls := calls s; thrown := thrown s; uncaught := uncaught s |}.

Definition set_wsRef (r : option nat) (s : state) : state :=
  {| recording := recording s; isThinking := isThinking s;
     wsRef := r; mediaStreamRef := mediaStreamRef s;
     audioContextRef := audioContextRef s; workletNodeRef := workletNodeRef s;
     sockets := sockets s; streams := streams s; contexts := contexts s;
     nodes := nodes s; tasks := tasks s; played := played s;
     calls := calls s; thrown := thrown s; uncaught := uncaught s |}.

Definition set_mediaStreamRef (r : option nat) (s : state) : state :=
  {| recording := recording s; isThinking := isThinking s;
     wsRef := wsRef s; mediaStreamRef := r;
     audioContextRef := audioContextRef s; workletNodeRef := workletNodeRef s;
     sockets := sockets s; streams := streams s; contexts := contexts s;
     nodes := nodes s; tasks := tasks s; played := played s;
     calls := calls s; thrown := thrown s; uncaught := uncaught s |}.

Definition set_audioContextRef (r : option nat) (s : state) : state :=
  {| recording := recording s; isThinking := isThinking s;
     wsRef := wsRef s; mediaStreamRef := mediaStreamRef s;
     audioContextRef := r; workletNodeRef := workletNodeRef s;
     sockets := sockets s; streams := streams s; contexts := contexts s;
     nodes := nodes s; tasks := tasks s; played := played s;
     calls := calls s; thrown := thrown s; uncaught := uncaught s |}.

Definition set_workletNodeRef (r : option nat) (s : state) : state :=
  {| recording := recording s; isThinking := isThinking s;
     wsRef := wsRef s; mediaStreamRef := mediaStreamRef s;
     audioContextRef := audioContextRef s; workletNodeRef := r;
     sockets := sockets s; streams := streams s; contexts := contexts s;
     nodes := nodes s; tasks := tasks s; played := played s;
     calls := calls s; thrown := thrown s; uncaught := uncaught s |}.

Definition set_sockets (l : list WebSocket) (s : state) : state :=
  {| recording := recording s; isThinking := isThinking s;
     wsRef := wsRef s; mediaStreamRef := mediaStreamRef s;
     audioContextRef := audioContextRef s; workletNodeRef := workletNodeRef s;
     sockets := l; streams := streams s; contexts := contexts s;
     nodes := nodes s; tasks := tasks s; played := played s;
     calls := calls s; thrown := thrown s; uncaught := uncaught s |}.

Definition set_streams (l : list MediaStream) (s : state) : state :=
  {| recording := recording s; isThinking := isThinking s;
     wsRef := wsRef s; mediaStreamRef := mediaStreamRef s;
     audioContextRef := audioContextRef s; workletNodeRef := workletNodeRef s;
     sockets := sockets s; streams := l; contexts := contexts s;
     nodes := nodes s; tasks := tasks s; played := played s;
     calls := calls s; thrown := thrown s; uncaught := uncaught s |}.

Definition set_contexts (l : list AudioContext) (s : state) : state :=
  {| recording := recording s; isThinking := isThinking s;
     wsRef := wsRef s; mediaStreamRef := mediaStreamRef s;
     audioContextRef := audioContextRef s; workletNodeRef := workletNodeRef s;
     sockets := sockets s; streams := streams s; contexts := l;
     nodes := nodes s; tasks := tasks s; played := played s;
     calls := calls s; thrown := thrown s; uncaught := uncaught s |}.

Definition set_nodes (l : list WorkletNode) (s : state) : state :=
  {| recording := recording s; isThinking := isThinking s;
     wsRef := wsRef s; mediaStreamRef := mediaStreamRef s;
     audioContextRef := audioContextRef s; workletNodeRef := workletNodeRef s;
     sockets := sockets s; streams := streams s; contexts := contexts s;
     nodes := l; tasks := tasks s; played := played s;
     calls := calls s; thrown := thrown s; uncaught := uncaught s |}.

Definition set_tasks (l : list (option pending)) (s : state) : state :=
  {| recording := recording s; isThinking := isThinking s;
     wsRef := wsRef s; mediaStreamRef := mediaStreamRef s;
     audioContextRef := audioContextRef s; workletNodeRef := workletNodeRef s;
     sockets := sockets s; streams := streams s; contexts := contexts s;
     nodes := nodes s; tasks := l; played := played s;
     calls := calls s; thrown := thrown s; uncaught := uncaught s |}.

Definition set_played (l : list (list Z)) (s : state) : state :=
  {| recording := recording s; isThinking := isThinking s;
     wsRef := wsRef s; mediaStreamRef := mediaStreamRef s;
     audioContextRef := audioContextRef s; workletNodeRef := workletNodeRef s;
     sockets := sockets s; streams := streams s; contexts := contexts s;
     nodes := nodes s; tasks := tasks s; played := l;
     calls := calls s; thrown := thrown s; uncaught := uncaught s |}.

Definition set_calls (l : list call) (s : state) : state :=
  {| recording := recording s; isThinking := isThinking s;
     wsRef := wsRef s; mediaStreamRef := mediaStreamRef s;
     audioContextRef := audioContextRef s; workletNodeRef := workletNodeRef s;
     sockets := sockets s; streams := streams s; contexts := contexts s;
     nodes := nodes s; tasks := tasks s; played := played s;
     calls := l; thrown := thrown s; uncaught := uncaught s |}.

Definition set_thrown (l : list fault) (s : state) : state :=
  {| recording := recording s; isThinking := isThinking s;
     wsRef := wsRef s; mediaStreamRef := mediaStreamRef s;
     audioContextRef := audioContextRef s; workletNodeRef := workletNodeRef s;
     sockets := sockets s; streams := streams s; contexts := contexts s;
     nodes := nodes s; tasks := tasks s; played := played s;
     calls := calls s; thrown := l; uncaught := uncaught s |}.

Definition set_uncaught (l : list fault) (s : state) : state :=
  {| recording := recording s; isThinking := isThinking s;
     wsRef := wsRef s; mediaStreamRef := mediaStreamRef s;
     audioContextRef := audioContextRef s; workletNodeRef := workletNodeRef s;
     sockets := sockets s; streams := streams s; contexts := contexts s;
     nodes := nodes s; tasks := tasks s; played := played s;
     calls := calls s; thrown := thrown s; uncaught := l |}.

(** *** Browser methods the controller calls

    A method acts on the object in the store that the reference names
    ([alter] leaves the store alone when there is no such object). *)

(** [ws.send(data)] transmits in the OPEN state; in CONNECTING it throws an
    [InvalidStateError]; in CLOSING and CLOSED it discards the data. *)
Definition WebSocket_send (w : nat) (f : frame) (s : state) : state :=
  match sockets s !! w with
  | Some ws =>
      match readyState ws with
      | OPEN =>
          set_sockets
            (<[w := {| readyState := OPEN; sent := sent ws ++ [f] |}]> (sockets s)) s
      | CONNECTING => set_thrown (thrown s ++ [InvalidStateError]) s
      | CLOSING | CLOSED => s
      end
  | None => s
  end.

(** [ws.close()] starts the closing handshake unless it is under way or over. *)
Definition close (ws : WebSocket) : WebSocket :=
  match readyState ws with
  | CONNECTING | OPEN => {| readyState := CLOSING; sent := sent ws |}
  | CLOSING | CLOSED => ws
  end.

Definition WebSocket_close (w : nat) (s : state) : state :=
  set_calls (calls s ++ [ws_close w]) (set_sockets (alter close w (sockets s)) s).

(** [node.disconnect()]. *)
Definition disconnect (node : WorkletNode) : WorkletNode :=
  {| attached := false;
     closure_recording := closure_recording node;
     closure_audioContext := closure_audioContext node |}.

Definition AudioNode_disconnect (n : nat) (s : state) : state :=
  set_calls (calls s ++ [node_disconnect n])
    (set_nodes (alter disconnect n (nodes s)) s).

(** [audioContext.close()]: on a closed context the promise it returns is
    rejected and nothing changes. *)
Definition closeContext (ctx : AudioContext) : AudioContext :=
  {| ctxState := closed; sampleRate := sampleRate ctx |}.

Definition AudioContext_close (c : nat) (s : state) : state :=
  set_calls (calls s ++ [audioContext_close c])
    (set_contexts (alter closeContext c (contexts s)) s).

(** [stream.getTracks().forEach((track) => track.stop())]. *)
Definition stopTracks (m : MediaStream) : MediaStream := {| live := false |}.

Definition MediaStream_stopTracks (m : nat) (s : state) : state :=
  set_calls (calls s ++ [tracks_stop m])
    (set_streams (alter stopTracks m (streams s)) s).

(** *** startVoiceRecording, in its stretches between awaits *)

(** From the call to [await getUserMedia].  [recording] in the closures
    created here is the constant of the current render; [setRecording] does
    not change it.  [throws] says whether [new WebSocket] throws. *)
Definition startVoiceRecording (throws : bool) (s : state) : state :=
  let captured := recording s in
  let s := set_recording true s in
  let s := set_isThinking false s in
  let s :=
    if throws then s
    else
      let ws := length (sockets s) in
      set_wsRef (Some ws)
        (set_sockets (sockets s ++ [{| readyState := CONNECTING; sent := [] |}]) s) in
  set_tasks (tasks s ++ [Some (AwaitUserMedia captured)]) s.

(** From the microphone's answer on.  A refusal ends the call with the
    reason of the refusal.  Otherwise the stream and the audio context are
    created and kept in their refs, and the call then ends at
    [const processorCode = class PCMProcessor extends AudioWorkletProcessor
    { ... }]: the source has the code of the processor as a class expression
    of the component, not as a text, and [AudioWorkletProcessor] is bound in
    the global scope of an audio worklet only, not in the one of a window,
    so that its evaluation throws a [ReferenceError].  Nothing catches it. *)
Definition startVoiceRecording_gotUserMedia (t : nat) (granted : bool)
    (rate : positive) (s : state) : state :=
  match tasks s !! t with
  | Some (Some (AwaitUserMedia captured)) =>
      let s := set_tasks (<[t := None]> (tasks s)) s in
      if granted then
        let stream := length (streams s) in
        let s := set_streams (streams s ++ [{| live := true |}]) s in
        let s := set_mediaStreamRef (Some stream) s in
        let audioContext := length (contexts s) in
        let s :=
          set_contexts
            (contexts s ++ [{| ctxState := running; sampleRate := rate |}]) s in
        let s := set_audioContextRef (Some audioContext) s in
        set_uncaught (uncaught s ++ [ReferenceError]) s
      else set_uncaught (uncaught s ++ [UserMediaError]) s
  | _ => s
  end.

(** The lines of the source after the class expression, from the answer of
    [await audioContext.audioWorklet.addModule(blobURL)] to the end.  No call
    ever gets there; they are embedded as they are written, for a call
    suspended at that [await]. *)
Definition startVoiceRecording_addedModule (t : nat) (loaded : bool)
    (s : state) : state :=
  match tasks s !! t with
  | Some (Some (AwaitAddModule captured audioContext)) =>
      let s := set_tasks (<[t := None]> (tasks s)) s in
      if loaded then
        let workletNode := length (nodes s) in
        let s :=
          set_nodes
            (nodes s ++ [{| attached := true;
                            closure_recording := captured;
                            closure_audioContext := audioContext |}]) s in
        set_workletNodeRef (Some workletNode) s
      else s
  | _ => s
  end.

(** *** The callbacks *)

Definition ws_onopen (ws : nat) (s : state) : state :=
  WebSocket_send ws setupMessage s.

(** What a [message] event carries: text, or a [Blob] of 16-bit samples. *)
Inductive messageData : Type :=
| text (hasResponseText : bool)
| blob (samples : list Z).

(** [ws.onmessage] up to its [await]; of the text branch, which appends the
    reply to the conversation list (module [Chat]), the voice pipeline sees
    [setIsThinking(false)] only. *)
Definition ws_onmessage (data : messageData) (s : state) : state :=
  match data with
  | text hasResponseText => if hasResponseText then set_isThinking false s else s
  | blob samples => set_tasks (tasks s ++ [Some (AwaitArrayBuffer samples)]) s
  end.

(** [ws.onmessage] after [await event.data.arrayBuffer()]. *)
Definition ws_onmessage_gotArrayBuffer (t : nat) (s : state) : state :=
  match tasks s !! t with
  | Some (Some (AwaitArrayBuffer samples)) =>
      let s := set_tasks (<[t := None]> (tasks s)) s in
      match encodeWAV samples 24000 with
      | Ok wavBlob => set_played (played s ++ [wavBlob]) s
      | Error _ => s
      end
  | _ => s
  end.

(** [workletNode.port.onmessage] of node [n], the callback that the lines
    after the class expression install. *)
Definition workletNode_port_onmessage (n : nat) (floatSamples : list Q)
    (s : state) : state :=
  match nodes s !! n with
  | Some node =>
      if negb (closure_recording node) then s
      else
        let int16Data := convertFloat32ToInt16 floatSamples in
        match contexts s !! closure_audioContext node with
        | Some audioContext =>
            match snd (downsampleBuffer int16Data (sampleRate audioContext) 16000) with
            | Ok downsampledData =>
                let messageToSend := realtimeInput downsampledData in
                match wsRef s with
                | Some w =>
                    match sockets s !! w with
                    | Some ws =>
                        match readyState ws with
                        | OPEN => WebSocket_send w messageToSend s
                        | _ => s
                        end
                    | None => s
                    end
                | None => s
                end
            | Error _ => s
            end
        | None => s
        end
  | None => s
  end.

(** *** stopVoiceRecording *)

Definition stopVoiceRecording (s : state) : state :=
  let s := set_recording false s in
  let s := set_isThinking true s in
  let s :=
    match workletNodeRef s with
    | Some n => set_workletNodeRef None (AudioNode_disconnect n s)
    | None => s
    end in
  let s :=
    match audioContextRef s with
    | Some c => AudioContext_close c s
    | None => s
    end in
  let s :=
    match mediaStreamRef s with
    | Some m => MediaStream_stopTracks m s
    | None => s
    end in
  match wsRef s with
  | Some w => WebSocket_close w s
  | None => s
  end.

(** *** The event loop

    Everything runs as one task after another of a single event loop.  An
    event is a call by the surrounding UI, the settling of an awaited
    promise, or a browser event on one of the objects. *)
Inductive event : Type :=
| CallStart (throws : bool)
| CallStop
| UserMediaSettled (t : nat) (granted : bool) (rate : positive)
| AddModuleSettled (t : nat) (loaded : bool)
| ArrayBufferSettled (t : nat)
| SocketOpened (w : nat)
| SocketMessage (w : nat) (data : messageData)
| SocketError (w : nat)
| SocketClosed (w : nat)
| WorkletMessage (n : nat) (floatSamples : list Q).

Definition socketState (w : nat) (s : state) : option ReadyState :=
  readyState <$> sockets s !! w.

Definition step (s : state) (e : event) : state :=
  match e with
  | CallStart throws => startVoiceRecording throws s
  | CallStop => stopVoiceRecording s
  | UserMediaSettled t granted rate =>
      startVoiceRecording_gotUserMedia t granted rate s
  | AddModuleSettled t loaded => startVoiceRecording_addedModule t loaded s
  | ArrayBufferSettled t => ws_onmessage_gotArrayBuffer t s
  | SocketOpened w =>
      (* the connection is established: CONNECTING becomes OPEN, then [open] fires *)
      match sockets s !! w with
      | Some ws =>
          match readyState ws with
          | CONNECTING =>
              ws_onopen w
                (set_sockets
                   (<[w := {| readyState := OPEN; sent := sent ws |}]> (sockets s)) s)
          | _ => s
          end
      | None => s
      end
  | SocketMessage w data =>
      (* a [message] event fires on an OPEN socket only *)
      match socketState w s with
      | Some OPEN => ws_onmessage data s
      | _ => s
      end
  | SocketError w => s
  | SocketClosed w =>
      set_sockets
        (alter (fun ws => {| readyState := CLOSED; sent := sent ws |}) w (sockets s)) s
  | WorkletMessage n floatSamples => workletNode_port_onmessage n floatSamples s
  end.

Definition run (s : state) (es : list event) : state := foldl step s es.

(** What is active: connections not closed or closing, live streams, running
    contexts, attached processor nodes. *)
Definition isActive (ws : WebSocket) : bool :=
  match readyState ws with
  | CONNECTING | OPEN => true
  | CLOSING | CLOSED => false
  end.

Definition isRunning (c : AudioContext) : bool :=
  match ctxState c with running => true | closed => false end.

Definition activeConnections (s : state) : nat :=
  length (filter (fun ws => isActive ws = true) (sockets s)).
Definition liveStreams (s : state) : nat :=
  length (filter (fun m => live m = true) (streams s)).
Definition runningContexts (s : state) : nat :=
  length (filter (fun c => isRunning c = true) (contexts s)).
Definition attachedNodes (s : state) : nat :=
  length (filter (fun n => attached n = true) (nodes s)).

(** The socket that [wsRef.current] is, if any, and its state. *)
Definition currentSocketState (s : state) : option ReadyState :=
  wsRef s ≫= fun w => socketState w s.

(** The current socket has been released: there is none, or it is closing
    or closed. *)
Definition currentReleased (s : state) : Prop :=
  currentSocketState s <> Some CONNECTING /\ currentSocketState s <> Some OPEN.

Definition isStart (e : event) : bool :=
  match e with CallStart _ => true | _ => false end.

(** A call of [startVoiceRecording] that gets its socket and its microphone,
    from its first line to its last; [t] is the task the call becomes,
    [rate] the rate of the audio context. *)
Definition start_events (t : nat) (rate : positive) : list event :=
  [CallStart false; UserMediaSettled t true rate].

(** The state with its log of release calls emptied. *)
Definition forget_calls (s : state) : state := set_calls [] s.

(** The release calls that [stopVoiceRecording] has to make in a state, one
    for each ref that is set, in the order of the source. *)
Definition released (s : state) : list call :=
  option_list (node_disconnect <$> workletNodeRef s)
  ++ option_list (audioContext_close <$> audioContextRef s)
  ++ option_list (tracks_stop <$> mediaStreamRef s)
  ++ option_list (ws_close <$> wsRef s).

(** A method applied through a ref: nothing happens when the ref is null. *)
Definition alter_at {A : Type} (f : A -> A) (r : option nat) (l : list A)
  : list A :=
  match r with
  | Some i => alter f i l
  | None => l
  end.

(** ** Notions used in the proofs about Numbers and [downsampleBuffer] *)

(** The rational that [binary64 x] stands for when it is finite. *)
Definition rounded (x : Q) : Q :=
  (inject_Z (round_half_even (x / pow2 (exponent x))) * pow2 (exponent x))%Q.

(** The order of Numbers; NaN is not comparable. *)
Definition Number_le (a b : Number) : Prop :=
  match a, b with
  | NaN, _ | _, NaN => False
  | NegInfinity, _ | _, PosInfinity => True
  | Finite x, Finite y => (x <= y)%Q
  | _, _ => False
  end.

(** Not below zero (NaN is not). *)
Definition nonnegative (x : Number) : Prop :=
  match x with
  | Finite q => (0 <= q)%Q
  | NegInfinity => False
  | PosInfinity | NaN => True
  end.

(** What the offsets into the buffer are: non-negative integers, or no
    finite number at all. *)
Definition offsetLike (x : Number) : Prop :=
  match x with
  | Finite q => exists z : Z, 0 <= z /\ q = inject_Z z
  | NegInfinity => False
  | PosInfinity | NaN => True
  end.

(** What is stored for a block of [count] samples that add up to [accum]. *)
Definition stored (accum count : Number) : Z :=
  Number_ToInt16
    (Number_min (Finite 32767)
       (Number_max (Finite (-32768))
          (Math_round (Number_mul (Number_div accum count) (Finite 32767))))).

(** The length that the specification gives, in exact arithmetic:
    inputLength / (sourceRate / targetRate), rounded to the nearest integer,
    a tie going up. *)
Definition exactQuotient (inputLength : Z) (sourceRate targetRate : positive) : Q :=
  (inject_Z inputLength / (inject_Z (Z.pos sourceRate) / inject_Z (Z.pos targetRate)))%Q.

Definition specifiedLength (inputLength : Z) (sourceRate targetRate : positive) : Z :=
  Qfloor (exactQuotient inputLength sourceRate targetRate + (1 # 2)).

(** ** What [convertFloat32ToInt16] does to one sample, step by step *)

(** [Math.max(-1, Math.min(1, x))]. *)
Definition clamp (x : Q) : Q := Math_max (-1) (Math_min 1 x).

(** [s < 0 ? s * 0x8000 : s * 0x7FFF]. *)
Definition scale (s : Q) : Q :=
  if Qlt_le_dec s 0 then (s * 32768)%Q else (s * 32767)%Q.

(** [z] is an integer nearest to [x]. *)
Definition nearest (x : Q) (z : Z) : Prop := (Qabs (x - inject_Z z) <= 1 # 2)%Q.

(** ** The bytes [encodeWAV] writes, in closed form *)

Definition le16 (v : Z) : list Z :=
  let u := ToUint16 v in [u mod 256; u / 256].

Definition le32 (v : Z) : list Z :=
  let u := ToUint32 v in
  [u mod 256; (u / 256) mod 256; (u / 65536) mod 256; u / 16777216].

Definition wavHeader (sampleCount : Z) (sampleRate : positive) : list Z :=
  [82; 73; 70; 70] ++ le32 (36 + sampleCount * 2)
  ++ [87; 65; 86; 69] ++ [102; 109; 116; 32]
  ++ le32 16 ++ le16 1 ++ le16 1
  ++ le32 (Z.pos sampleRate) ++ le32 (Z.pos sampleRate * 2)
  ++ le16 2 ++ le16 16
  ++ [100; 97; 116; 97] ++ le32 (sampleCount * 2).

(** ** Views of a buffer

    Typed arrays over one [ArrayBuffer] share its bytes; the byte order is
    that of the platform, little-endian on everything a browser runs on. *)

(** An [Int16Array] together with the [ArrayBuffer] that it is a view of:
    the view shows [length] samples, from [byteOffset] bytes into the buffer
    on.  (Where a function looks at the samples of an array only, as the
    converter and the container do, the array is the list of its
    samples.) *)
Module Int16Array.
Record t : Type := {
  buffer : list Z;
  byteOffset : Z;
  length : Z
}.
End Int16Array.

(** The array that [new Int16Array(n)] and the stores into it make, as
    [convertFloat32ToInt16] and [downsampleBuffer] return it: it has a
    buffer of its own, which holds its samples, two bytes each, and nothing
    else. *)
Definition Int16Array_of (samples : list Z) : Int16Array.t :=
  {| Int16Array.buffer := samples ≫= le16;
     Int16Array.byteOffset := 0;
     Int16Array.length := len samples |}.

(** The samples that pairs of bytes stand for. *)
Fixpoint int16s (bytes : list Z) : list Z :=
  match bytes with
  | lo :: hi :: rest => wrap16 (lo + 256 * hi) :: int16s rest
  | _ => []
  end.

(** [new Int16Array(arrayBuffer)]: a [RangeError] unless the byte length is
    a multiple of 2. *)
Definition Int16Array_of_buffer (arrayBuffer : list Z) : outcome (list Z) :=
  if len arrayBuffer mod 2 =? 0 then Ok (int16s arrayBuffer)
  else Error RangeError.

Definition getUint16 (view : list Z) (offset : Z) : Z :=
  getUint8 view offset + 256 * getUint8 view (offset + 1).

(** What [ws.onmessage] makes of the bytes of a [Blob] before it plays them:
    [const samples = new Int16Array(arrayBuffer);
     const wavBlob = encodeWAV(samples, 24000);] *)
Definition wavOfArrayBuffer (arrayBuffer : list Z) : outcome (list Z) :=
  samples ← Int16Array_of_buffer arrayBuffer;
  encodeWAV samples 24000.

(** A 16-bit sample, a byte. *)
Definition isInt16 (v : Z) : Prop := -32768 <= v <= 32767.
Definition isByte (b : Z) : Prop := 0 <= b <= 255.

(** ** Base64 text

    A JavaScript string being built by [+=] is the list of its code units;
    the text that [btoa] returns is a [string]. *)

Definition String_fromCharCode (c : Z) : Z := c mod 65536.

Definition alphabet : list Ascii.ascii :=
  list_ascii_of_string
    "ABCDEFGHIJKLMNOPQRSTUVWXYZabcdefghijklmnopqrstuvwxyz0123456789+/".

Definition pad : Ascii.ascii := "="%char.

(** The character for six bits. *)
Definition digit (n : Z) : Ascii.ascii := nth (Z.to_nat n) alphabet pad.

(** Standard base64 of a sequence of bytes: four characters for three bytes,
    the last group padded. *)
Fixpoint encode (binary : list Z) : list Ascii.ascii :=
  match binary with
  | a :: b :: c :: rest =>
      digit (a / 4) :: digit (a mod 4 * 16 + b / 16)
      :: digit (b mod 16 * 4 + c / 64) :: digit (c mod 64) :: encode rest
  | [a; b] => [digit (a / 4); digit (a mod 4 * 16 + b / 16); digit (b mod 16 * 4); pad]
  | [a] => [digit (a / 4); digit (a mod 4 * 16); pad; pad]
  | [] => []
  end.

(** [btoa(binary)]: [None] stands for the [InvalidCharacterError] that it
    throws when a code unit is above 255. *)
Definition btoa (binary : list Z) : option string :=
  if forallb (fun c => c <=? 255) binary
  then Some (string_of_list_ascii (encode binary))
  else None.

(** [for (let i = 0; i < bytes.byteLength; i++)
      binary += String.fromCharCode(bytes[i]);]
    from index [i] on, [n] turns left.  (A byte outside the array would be
    [undefined], whose character is the one of code 0.) *)
Fixpoint binaryLoop (n : nat) (bytes : list Z) (i : nat) (binary : list Z)
  : list Z :=
  match n with
  | O => binary
  | S n' =>
      match bytes !! i with
      | Some b => binaryLoop n' bytes (S i) (binary ++ [String_fromCharCode b])
      | None => binaryLoop n' bytes (S i) (binary ++ [0])
      end
  end.

(** [int16ToBase64(int16Array)].  [new Uint8Array(int16Array.buffer)] is a
    view of the whole buffer of the array, whatever part of it the array
    itself shows. *)
Definition int16ToBase64 (int16Array : Int16Array.t) : option string :=
  let binary := [] in
  let bytes := Int16Array.buffer int16Array in
  btoa (binaryLoop (length bytes) bytes 0 binary).

(** [arrayBufferToBase64(buffer)], on the bytes of the buffer. *)
Definition arrayBufferToBase64 (buffer : list Z) : option string :=
  let binary := [] in
  let bytes := buffer in
  btoa (binaryLoop (length bytes) bytes 0 binary).

(** The inverse of [encode], by which the proofs recover the bytes. *)
Fixpoint indexOf (c : Ascii.ascii) (l : list Ascii.ascii) (i : Z) : Z :=
  match l with
  | [] => i
  | x :: l' => if Ascii.eqb c x then i else indexOf c l' (i + 1)
  end.

Definition sextet (c : Ascii.ascii) : Z := indexOf c alphabet 0.

Fixpoint decode (text : list Ascii.ascii) : list Z :=
  match text with
  | c1 :: c2 :: c3 :: c4 :: rest =>
      let v1 := sextet c1 in
      let v2 := sextet c2 in
      let v3 := sextet c3 in
      let v4 := sextet c4 in
      if Ascii.eqb c3 pad then [v1 * 4 + v2 / 16]
      else if Ascii.eqb c4 pad then [v1 * 4 + v2 / 16; v2 mod 16 * 16 + v3 / 4]
      else v1 * 4 + v2 / 16 :: v2 mod 16 * 16 + v3 / 4 :: v3 mod 4 * 64 + v4
           :: decode rest
  | _ => []
  end.

(** What a socket may have sent, by its state: nothing while it connects;
    once open, the setup message followed by audio frames only. *)
Definition handshakeThenAudio (ws : WebSocket) : Prop :=
  exists chunks : list (list Z),
    sent ws = setupMessage :: (realtimeInput <$> chunks).

Definition wellFormedLog (ws : WebSocket) : Prop :=
  match readyState ws with
  | CONNECTING => sent ws = []
  | OPEN => handshakeThenAudio ws
  | CLOSING | CLOSED => sent ws = [] \/ handshakeThenAudio ws
  end.

(** A socket on which no audio has been sent: nothing while it connects,
    the setup message alone once it is open. *)
Definition quiet (ws : WebSocket) : Prop :=
  match readyState ws with
  | CONNECTING => sent ws = []
  | OPEN => sent ws = [setupMessage]
  | CLOSING | CLOSED => sent ws = [] \/ sent ws = [setupMessage]
  end.

(** No call is suspended at [await addModule]. *)
Definition beforeAddModule (task : option pending) : Prop :=
  match task with
  | Some (AwaitAddModule _ _) => False
  | _ => True
  end.

(** What holds of every state that the component reaches: there is no
    processor node, and nothing that could make one. *)
Definition nodeless (s : state) : Prop :=
  nodes s = [] /\ workletNodeRef s = None
  /\ Forall beforeAddModule (tasks s) /\ Forall quiet (sockets s).

(** ** The conversations of the chat

    The rest of the component: the list of conversations, its copy in
    [localStorage], and the handlers of the form.  A handler sees the state
    of the render it belongs to; the part of an [async] handler that runs
    after its [await] still holds the values it computed before.  What
    [Date.now()] and the locale functions return, and what the Gemini API
    answers, are inputs. *)
Module Chat.

Inductive Sender : Type := user | ai.

(** [Date.now()] for a voice reply; [Date.now() + "_file"] and the like for
    the others. *)
Inductive MessageId : Type :=
| fromNumber (t : Z)
| withSuffix (t : Z) (suffix : string).

Record Message : Type := {
  message_id : MessageId;
  content : string;
  sender : Sender;
  type : option string
}.

Record Conversation : Type := {
  id : Z;
  title : string;
  date : string;
  messages : list Message
}.

Record AttachedFile : Type := {
  fileName : string;
  base64 : string;
  mimeType : string
}.

(** A chat of the SDK, by the history it was started with. *)
Record ChatSession : Type := { history : list string }.

(** [localStorage] holds the JSON text of a list of conversations under the
    key "conversations", or nothing; the model keeps the list. *)
Record state : Type := {
  conversations : list Conversation;
  currentConversationId : option Z;
  chatSession : option ChatSession;
  isThinking : bool;
  message : string;
  attachedFile : option AttachedFile;
  localStorage : option (list Conversation)
}.

(** The state of the first render, over what the storage holds. *)
Definition initial (stored : option (list Conversation)) : state := {|
  conversations := [];
  currentConversationId := None;
  chatSession := None;
  isThinking := false;
  message := EmptyString;
  attachedFile := None;
  localStorage := stored
|}.

Definition setConversations (l : list Conversation) (s : state) : state :=
  {| conversations := l;
     currentConversationId := currentConversationId s;
     chatSession := chatSession s; isThinking := isThinking s;
     message := message s; attachedFile := attachedFile s;
     localStorage := localStorage s |}.

Definition setCurrentConversationId (c : option Z) (s : state) : state :=
  {| conversations := conversations s;
     currentConversationId := c;
     chatSession := chatSession s; isThinking := isThinking s;
     message := message s; attachedFile := attachedFile s;
     localStorage := localStorage s |}.

Definition setChatSession (c : option ChatSession) (s : state) : state :=
  {| conversations := conversations s;
     currentConversationId := currentConversationId s;
     chatSession := c; isThinking := isThinking s;
     message := message s; attachedFile := attachedFile s;
     localStorage := localStorage s |}.

Definition setIsThinking (b : bool) (s : state) : state :=
  {| conversations := conversations s;
     currentConversationId := currentConversationId s;
     chatSession := chatSession s; isThinking := b;
     message := message s; attachedFile := attachedFile s;
     localStorage := localStorage s |}.

Definition setMessage (m : string) (s : state) : state :=
  {| conversations := conversations s;
     currentConversationId := currentConversationId s;
     chatSession := chatSession s; isThinking := isThinking s;
     message := m; attachedFile := attachedFile s;
     localStorage := localStorage s |}.

Definition setAttachedFile (f : option AttachedFile) (s : state) : state :=
  {| conversations := conversations s;
     currentConversationId := currentConversationId s;
     chatSession := chatSession s; isThinking := isThinking s;
     message := message s; attachedFile := f;
     localStorage := localStorage s |}.

Definition localStorage_setItem (l : list Conversation) (s : state) : state :=
  {| conversations := conversations s;
     currentConversationId := currentConversationId s;
     chatSession := chatSession s; isThinking := isThinking s;
     message := message s; attachedFile := attachedFile s;
     localStorage := Some l |}.

(** The effect that runs once, after the first render. *)
Definition mount (now : Z) (dateString : string) (s : state) : state :=
  match localStorage s with
  | Some convs =>
      let s := setConversations convs s in
      match convs with
      | conv :: _ => setCurrentConversationId (Some (id conv)) s
      | [] => s
      end
  | None =>
      let initialConversation :=
        {| id := now; title := "Chat"; date := dateString; messages := [] |} in
      setCurrentConversationId (Some (id initialConversation))
        (setConversations [initialConversation] s)
  end.

Definition updateConversations (updatedConversations : list Conversation)
    (s : state) : state :=
  localStorage_setItem updatedConversations
    (setConversations updatedConversations s).

(** [convs.map((conv) => conv.id === currentConversationId
      ? { ...conv, messages: [...conv.messages, m] } : conv)],
    which five places of the source spell out. *)
Definition isCurrent (currentConversationId : option Z) (conv : Conversation)
  : bool :=
  match currentConversationId with
  | Some c => id conv =? c
  | None => false
  end.

Definition appendMessage (currentConversationId : option Z) (m : Message)
    (convs : list Conversation) : list Conversation :=
  (fun conv =>
     if isCurrent currentConversationId conv
     then {| id := id conv; title := title conv; date := date conv;
             messages := messages conv ++ [m] |}
     else conv) <$> convs.

(** [conversations.find((conv) => conv.id === currentConversationId)
      || { messages: [] }], of which the render shows the messages. *)
Fixpoint find (p : Conversation -> bool) (convs : list Conversation)
  : option Conversation :=
  match convs with
  | [] => None
  | conv :: convs' => if p conv then Some conv else find p convs'
  end.

Definition currentMessages (s : state) : list Message :=
  match find (isCurrent (currentConversationId s)) (conversations s) with
  | Some conv => messages conv
  | None => []
  end.

(** [!message.trim()]: nothing but white space (of the characters that a
    [string] here can hold: tab to carriage return, space, no-break space). *)
Definition isWhiteSpace (c : ascii) : bool :=
  let n := nat_of_ascii c in
  ((9 <=? n)%nat && (n <=? 13)%nat) || (n =? 32)%nat || (n =? 160)%nat.

Fixpoint blank (m : string) : bool :=
  match m with
  | EmptyString => true
  | String c m' => isWhiteSpace c && blank m'
  end.

(** The call that [handleSubmit] awaits. *)
Inductive request : Type :=
| generateContent (data mimeType prompt : string)
| startChat_sendMessage (history : list string) (text : string)
| sendMessage (session : ChatSession) (text : string).

(** What the rest of [handleSubmit] holds across its [await]. *)
Record submitted : Type := {
  updatedConversations : list Conversation;
  closure_currentConversationId : option Z;
  awaited : request
}.

(** [handleSubmit] up to its [await]; [None] when it returns at once.  The
    two numbers are what the two [Date.now()] give. *)
Definition handleSubmit (nowFile nowText : Z) (s : state)
  : state * option submitted :=
  if blank (message s) && negb (bool_decide (is_Some (attachedFile s)))
  then (s, None)
  else
    let current := currentConversationId s in
    let s1 := setIsThinking true s in
    let updatedConversations := conversations s in
    let updatedConversations :=
      match attachedFile s with
      | Some file =>
          appendMessage current
            {| message_id := withSuffix nowFile "_file";
               content := fileName file; sender := user; type := Some "file"%string |}
            updatedConversations
      | None => updatedConversations
      end in
    let updatedConversations :=
      if blank (message s) then updatedConversations
      else
        appendMessage current
          {| message_id := withSuffix nowText "_text";
             content := message s; sender := user; type := None |}
          updatedConversations in
    let s2 := updateConversations updatedConversations s1 in
    let '(call, s3) :=
      match attachedFile s with
      | Some file =>
          (generateContent (base64 file) (mimeType file)
             (if blank (message s) then EmptyString else message s), s2)
      | None =>
          match chatSession s with
          | None =>
              let newChat := {| history := [message s] |} in
              (startChat_sendMessage [message s] EmptyString,
               setChatSession (Some newChat) s2)
          | Some session => (sendMessage session (message s), s2)
          end
      end in
    (s3, Some {| updatedConversations := updatedConversations;
                 closure_currentConversationId := current;
                 awaited := call |}).

Definition errorText : string := "Error: Unable to get response from Gemini.".

(** [handleSubmit] from the answer on: [result] is the text of the reply, or
    [None] when anything in the [try] block threw; then the [finally]. *)
Definition handleSubmit_settled (k : submitted) (result : option string)
    (now : Z) (s : state) : state :=
  let reply :=
    match result with
    | Some aiText =>
        {| message_id := withSuffix now "_ai"; content := aiText;
           sender := ai; type := None |}
    | None =>
        {| message_id := withSuffix now "_error"; content := errorText;
           sender := ai; type := None |}
    end in
  let s :=
    updateConversations
      (appendMessage (closure_currentConversationId k) reply
         (updatedConversations k)) s in
  setAttachedFile None (setMessage EmptyString (setIsThinking false s)).

Definition handleNewConversation (now : Z) (timeString dateString : string)
    (s : state) : state :=
  let newConv :=
    {| id := now; title := "Chat " ++ timeString; date := dateString;
       messages := [] |} in
  let updatedConvs := newConv :: conversations s in
  setChatSession None
    (setCurrentConversationId (Some (id newConv))
       (updateConversations updatedConvs s)).

Definition handleSelectConversation (c : Z) (s : state) : state :=
  setChatSession None (setCurrentConversationId (Some c) s).

(** The file that the picker hands over, with what reading it gives ([None]:
    the read fails). *)
Record File : Type := {
  name : string;
  file_type : string;
  arrayBuffer : option (list Z)
}.

(** [handleFileUpload], both sides of its [await]; an error is caught and
    logged. *)
Definition handleFileUpload (files : list File) (s : state) : state :=
  match files with
  | [] => s
  | file :: _ =>
      match arrayBuffer file with
      | Some bytes =>
          match arrayBufferToBase64 bytes with
          | Some base64Data =>
              setAttachedFile
                (Some {| fileName := name file;
                         base64 := base64Data;
                         mimeType := if String.eqb (file_type file) EmptyString
                                     then "application/pdf"%string
                                     else file_type file |}) s
          | None => s
          end
      | None => s
      end
  end.

(** The text branch of [ws.onmessage]: [conversations] and
    [currentConversationId] are those of the render that started the
    recording; [responseText] is [messageData.response.text] when there is
    one. *)
Definition ws_onmessage_text (closure_conversations : list Conversation)
    (closure_currentConversationId : option Z) (responseText : option string)
    (now : Z) (s : state) : state :=
  match responseText with
  | Some t =>
      if String.eqb t EmptyString then s
      else
        let aiVoiceMessage :=
          {| message_id := fromNumber now; content := t; sender := ai;
             type := None |} in
        setIsThinking false
          (updateConversations
             (appendMessage closure_currentConversationId aiVoiceMessage
                closure_conversations) s)
  | None => s
  end.

(** What the UI and the network can do to the chat. *)
Inductive event : Type :=
| Mount (now : Z) (dateString : string)
| Typed (m : string)
| Picked (files : list File)
| Submitted (nowFile nowText : Z)
| Answered (k : submitted) (result : option string) (now : Z)
| NewConversation (now : Z) (timeString dateString : string)
| Selected (c : Z)
| VoiceText (closure_conversations : list Conversation)
            (closure_currentConversationId : option Z)
            (responseText : option string) (now : Z).

Definition step (s : state) (e : event) : state :=
  match e with
  | Mount now dateString => mount now dateString s
  | Typed m => setMessage m s
  | Picked files => handleFileUpload files s
  | Submitted nowFile nowText => fst (handleSubmit nowFile nowText s)
  | Answered k result now => handleSubmit_settled k result now s
  | NewConversation now timeString dateString =>
      handleNewConversation now timeString dateString s
  | Selected c => handleSelectConversation c s
  | VoiceText convs c responseText now =>
      ws_onmessage_text convs c responseText now s
  end.

(** The list on the screen is the list in the storage. *)
Definition inSync (s : state) : Prop :=
  localStorage s = Some (conversations s).

(** The dates under which the sidebar shows the conversations: a divider
    goes before the first one and before each one whose date differs from
    the date of the one before it. *)
Fixpoint dateDividers (previous : option string) (convs : list Conversation)
  : list (option string) :=
  match convs with
  | [] => []
  | conv :: convs' =>
      (match previous with
       | Some d => if String.eqb d (date conv) then None else Some (date conv)
       | None => Some (date conv)
       end) :: dateDividers (Some (date conv)) convs'
  end.

End Chat.

(** The conversation [conv] with [m] at the end of its messages. *)
Definition withMessage (m : Chat.Message) (conv : Chat.Conversation)
  : Chat.Conversation :=
  {| Chat.id := Chat.id conv; Chat.title := Chat.title conv;
     Chat.date := Chat.date conv;
     Chat.messages := Chat.messages conv ++ [m] |}.

(** The bubbles that [handleSubmit] adds for the user in a state. *)
Definition userBubbles (nowFile nowText : Z) (s : Chat.state)
  : list Chat.Message :=
  match Chat.attachedFile s with
  | Some file =>
      [{| Chat.message_id := Chat.withSuffix nowFile "_file";
          Chat.content := Chat.fileName file; Chat.sender := Chat.user;
          Chat.type := Some "file"%string |}]
  | None => []
  end
  ++ (if Chat.blank (Chat.message s) then []
      else [{| Chat.message_id := Chat.withSuffix nowText "_text";
               Chat.content := Chat.message s; Chat.sender := Chat.user;
               Chat.type := None |}]).

(** The bubble for the answer of the API, or for its failure. *)
Definition replyBubble (result : option string) (now : Z) : Chat.Message :=
  match result with
  | Some aiText =>
      {| Chat.message_id := Chat.withSuffix now "_ai"; Chat.content := aiText;
         Chat.sender := Chat.ai; Chat.type := None |}
  | None =>
      {| Chat.message_id := Chat.withSuffix now "_error";
         Chat.content := Chat.errorText;
         Chat.sender := Chat.ai; Chat.type := None |}
  end.

(** The date shown above the last of some conversations, given the dividers
    of all of them up to it. *)
Definition shownAbove (previous : option string) (dividers : list (option string))
  : option string :=
  foldl (fun above d => match d with Some x => Some x | None => above end)
        previous dividers.

(** A chat to run the handlers on: two conversations, the first one current,
    a text typed, nothing attached. *)
Definition exampleChat : Chat.state :=
  {| Chat.conversations :=
       [{| Chat.id := 1; Chat.title := "Chat"; Chat.date := "1/2/2025";
           Chat.messages :=
             [{| Chat.message_id := Chat.withSuffix 5 "_text";
                 Chat.content := "hello"; Chat.sender := Chat.user;
                 Chat.type := None |}] |};
        {| Chat.id := 2; Chat.title := "Chat 10:00"; Chat.date := "1/1/2025";
           Chat.messages := [] |}];
     Chat.currentConversationId := Some 1;
     Chat.chatSession := None;
     Chat.isThinking := false;
     Chat.message := "and then?";
     Chat.attachedFile := None;
     Chat.localStorage := None |}.

(** A file to pick: the five bytes of "ManMa", no type. *)
Definition exampleFile : Chat.File :=
  {| Chat.name := "notes.txt"; Chat.file_type := "";
     Chat.arrayBuffer := Some [77; 97; 110; 77; 97] |}.

(** * Properties of the sample converter *)

(** ** The arithmetic of doubles *)

(** *** pow2 *)

Lemma pow2_pos (k : Z) : (0 < pow2 k)%Q.
Proof. apply Qpower_0_lt. reflexivity. Qed.

Lemma pow2_add (a b : Z) : (pow2 (a + b) == pow2 a * pow2 b)%Q.
Proof. apply Qpower_plus. discriminate. Qed.

Lemma pow2_sub (a b : Z) : (pow2 (a - b) == pow2 a / pow2 b)%Q.
Proof. apply Qpower_minus. discriminate. Qed.

Lemma pow2_le (a b : Z) : a <= b -> (pow2 a <= pow2 b)%Q.
Proof. intros H. apply Qpower_le_compat_l; [exact H | discriminate]. Qed.

Lemma pow2_lt (a b : Z) : a < b -> (pow2 a < pow2 b)%Q.
Proof. intros H. apply Qpower_lt_compat_l; [exact H | reflexivity]. Qed.

Lemma pow2_lt_inv (a b : Z) : (pow2 a < pow2 b)%Q -> a < b.
Proof. intros H. apply (Qpower_lt_compat_l_inv 2); [exact H | reflexivity]. Qed.

Lemma pow2_inject (k : Z) : 0 <= k -> (pow2 k == inject_Z (2 ^ k))%Q.
Proof. intros H. unfold pow2. rewrite Zpower_Qpower by exact H. reflexivity. Qed.

(** *** Qlog2 *)

Lemma Qlog2_spec (x : Q) :
  (0 < x)%Q -> (pow2 (Qlog2 x) <= x)%Q /\ (x < pow2 (Qlog2 x + 1))%Q.
Proof.
  intros Hx. destruct x as [n d]. unfold Qlog2. cbn [Qnum Qden].
  assert (Hn : 0 < n) by (unfold Qlt in Hx; simpl in Hx; lia).
  set (ln := Z.log2 n). set (ld := Z.log2 (Z.pos d)).
  assert (Hln : 2 ^ ln <= n < 2 ^ (ln + 1)).
  { pose proof (Z.log2_spec n Hn) as H. unfold ln. rewrite <- Z.add_1_r in H. exact H. }
  assert (Hld : 2 ^ ld <= Z.pos d < 2 ^ (ld + 1)).
  { pose proof (Z.log2_spec (Z.pos d) ltac:(lia)) as H. unfold ld.
    rewrite <- Z.add_1_r in H. exact H. }
  assert (H0n : 0 <= ln) by apply Z.log2_nonneg.
  assert (H0d : 0 <= ld) by apply Z.log2_nonneg.
  assert (Hup : (n # d < pow2 (ln - ld + 1))%Q).
  { replace (ln - ld + 1) with ((ln + 1) - ld) by lia.
    rewrite pow2_sub. rewrite !pow2_inject by lia.
    apply Qlt_shift_div_l.
    - change 0%Q with (inject_Z 0). rewrite <- Zlt_Qlt. lia.
    - unfold Qlt, Qmult, inject_Z. simpl. rewrite Z.mul_1_r.
      rewrite (Z.mul_comm n). 
      apply Z.le_lt_trans with (n * Z.pos d); [| nia].
      rewrite (Z.mul_comm (2 ^ ld)). apply Z.mul_le_mono_nonneg_l; lia. }
  assert (Hlo : (pow2 (ln - ld - 1) < n # d)%Q).
  { replace (ln - ld - 1) with (ln - (ld + 1)) by lia.
    rewrite pow2_sub. rewrite !pow2_inject by lia.
    apply Qlt_shift_div_r.
    - change 0%Q with (inject_Z 0). rewrite <- Zlt_Qlt. lia.
    - unfold Qlt, Qmult, inject_Z. simpl. rewrite Z.mul_1_r.
      apply Z.le_lt_trans with (n * Z.pos d); [nia |].
      apply Z.mul_lt_mono_pos_l; lia. }
  destruct (Qle_bool (pow2 (ln - ld)) (n # d)) eqn:E.
  - apply Qle_bool_iff in E. split; [exact E | exact Hup].
  - split.
    + apply Qlt_le_weak. exact Hlo.
    + replace (ln - ld - 1 + 1) with (ln - ld) by lia.
      apply Qnot_le_lt. intros H. apply Qle_bool_iff in H. congruence.
Qed.

Lemma Qlog2_unique (x : Q) (a : Z) :
  (pow2 a <= x)%Q -> (x < pow2 (a + 1))%Q -> Qlog2 x = a.
Proof.
  intros H1 H2.
  assert (Hx : (0 < x)%Q) by (eapply Qlt_le_trans; [apply (pow2_pos a) | exact H1]).
  destruct (Qlog2_spec x Hx) as [H3 H4].
  assert (a < Qlog2 x + 1).
  { apply pow2_lt_inv. eapply Qle_lt_trans; eassumption. }
  assert (Qlog2 x < a + 1).
  { apply pow2_lt_inv. eapply Qle_lt_trans; eassumption. }
  lia.
Qed.

Lemma Qlog2_proper (x y : Q) : (0 < x)%Q -> (x == y)%Q -> Qlog2 x = Qlog2 y.
Proof.
  intros Hx E. symmetry. destruct (Qlog2_spec x Hx) as [H1 H2].
  apply Qlog2_unique; rewrite <- E; assumption.
Qed.

Lemma Qlog2_monotone (x y : Q) : (0 < x)%Q -> (x <= y)%Q -> Qlog2 x <= Qlog2 y.
Proof.
  intros Hx Hxy.
  assert (Hy : (0 < y)%Q) by (eapply Qlt_le_trans; eassumption).
  destruct (Qlog2_spec x Hx) as [H1 _]. destruct (Qlog2_spec y Hy) as [_ H2].
  assert (Qlog2 x < Qlog2 y + 1); [| lia].
  apply pow2_lt_inv. eapply Qle_lt_trans; [exact H1 |].
  eapply Qle_lt_trans; eassumption.
Qed.

(** *** round_half_even *)

Lemma round_half_even_proper (x y : Q) :
  (x == y)%Q -> round_half_even x = round_half_even y.
Proof.
  intros E. unfold round_half_even.
  rewrite (Qfloor_comp _ _ E).
  assert (E' : (x - inject_Z (Qfloor y) == y - inject_Z (Qfloor y))%Q) by (rewrite E; reflexivity).
  rewrite (Qcompare_comp _ _ E' (1 # 2) (1 # 2) (Qeq_refl _)). reflexivity.
Qed.

Lemma round_half_even_cases (x : Q) :
  let f := Qfloor x in
  (round_half_even x = f /\ (x - inject_Z f < 1 # 2)%Q)
  \/ (round_half_even x = f + 1 /\ (1 # 2 < x - inject_Z f)%Q)
  \/ ((x - inject_Z f == 1 # 2)%Q
      /\ round_half_even x = if Z.even f then f else f + 1).
Proof.
  intros f. unfold round_half_even. fold f.
  destruct (Qcompare_spec (x - inject_Z f) (1 # 2)) as [E|L|G]; auto.
Qed.

Lemma Qfloor_bounds (x : Q) :
  (inject_Z (Qfloor x) <= x)%Q /\ (x < inject_Z (Qfloor x) + 1)%Q.
Proof.
  split; [apply Qfloor_le |].
  pose proof (Qlt_floor x) as H. rewrite inject_Z_plus in H. exact H.
Qed.

Lemma round_half_even_floor (x : Q) :
  Qfloor x <= round_half_even x <= Qfloor x + 1.
Proof.
  destruct (round_half_even_cases x) as [[-> _]|[[-> _]|[_ ->]]]; try lia.
  destruct (Z.even _); lia.
Qed.

Lemma round_half_even_inject (z : Z) : round_half_even (inject_Z z) = z.
Proof.
  unfold round_half_even. rewrite Qfloor_Z.
  assert (E : (inject_Z z - inject_Z z ?= 1 # 2)%Q = Lt).
  { rewrite <- Qlt_alt. generalize (inject_Z z). intros q. lra. }
  rewrite E. reflexivity.
Qed.

Lemma round_half_even_ge (x : Q) (z : Z) :
  (inject_Z z <= x)%Q -> z <= round_half_even x.
Proof.
  intros H. apply Qfloor_resp_le in H. rewrite Qfloor_Z in H.
  pose proof (round_half_even_floor x). lia.
Qed.

Lemma round_half_even_le (x : Q) (z : Z) :
  (x <= inject_Z z)%Q -> round_half_even x <= z.
Proof.
  intros H. pose proof (Qfloor_resp_le _ _ H) as Hf. rewrite Qfloor_Z in Hf.
  pose proof (round_half_even_floor x) as Hr.
  destruct (Z.eq_dec (Qfloor x) z) as [E|NE]; [| lia].
  destruct (Qfloor_bounds x) as [H1 _]. rewrite E in H1.
  assert (Ex : (x == inject_Z z)%Q) by (apply Qle_antisym; assumption).
  rewrite (round_half_even_proper _ _ Ex), round_half_even_inject. lia.
Qed.

Lemma round_half_even_monotone (x y : Q) :
  (x <= y)%Q -> round_half_even x <= round_half_even y.
Proof.
  intros H. pose proof (Qfloor_resp_le _ _ H) as Hf.
  pose proof (round_half_even_floor x) as Hx.
  pose proof (round_half_even_floor y) as Hy.
  destruct (Z.eq_dec (Qfloor x) (Qfloor y)) as [E|NE]; [| lia].
  pose proof (round_half_even_cases x) as Cx.
  pose proof (round_half_even_cases y) as Cy.
  cbv zeta in Cx, Cy. rewrite <- E in Cy.
  revert Cx Cy. generalize (round_half_even x) (round_half_even y).
  generalize (inject_Z (Qfloor x)). intros f rx ry.
  intros [[-> Fx]|[[-> Fx]|[Fx ->]]] [[-> Fy]|[[-> Fy]|[Fy ->]]];
    try lia; try (destruct (Z.even (Qfloor x)); lia); exfalso; lra.
Qed.

(** *** binary64 *)

Lemma binary64_rounded (x : Q) :
  binary64 x
  = if Qle_bool (pow2 1024) (Qabs (Qred (rounded x)))
    then if 0 <? round_half_even (x / pow2 (exponent x)) then PosInfinity else NegInfinity
    else Finite (Qred (rounded x)).
Proof. reflexivity. Qed.

Lemma pow2_nonzero (k : Z) : ~ (pow2 k == 0)%Q.
Proof. pose proof (pow2_pos k). lra. Qed.

Lemma Qdiv_zero (x p : Q) : (x == 0)%Q -> (x / p == inject_Z 0)%Q.
Proof. intros E. rewrite E. unfold Qdiv. rewrite Qmult_0_l. reflexivity. Qed.

Lemma Qdiv_proper_l (x y p : Q) : (x == y)%Q -> (x / p == y / p)%Q.
Proof. intros E. rewrite E. reflexivity. Qed.

Lemma rounded_zero (x : Q) : (x == 0)%Q -> (rounded x == 0)%Q.
Proof.
  intros E. unfold rounded.
  pose proof (Qdiv_zero x (pow2 (exponent x)) E) as E'.
  rewrite (round_half_even_proper _ _ E'), round_half_even_inject.
  rewrite Qmult_0_l. reflexivity.
Qed.

Lemma exponent_proper (x y : Q) :
  ~ (x == 0)%Q -> (x == y)%Q -> exponent x = exponent y.
Proof.
  intros Hx E. unfold exponent. f_equal. f_equal.
  apply Qlog2_proper; [| apply Qabs_wd; exact E].
  apply Qabs_case; intros H; lra.
Qed.

Lemma rounded_proper (x y : Q) : (x == y)%Q -> (rounded x == rounded y)%Q.
Proof.
  intros E. destruct (Qeq_dec x 0) as [Z|NZ].
  - rewrite (rounded_zero x Z), (rounded_zero y); [reflexivity | rewrite <- E; exact Z].
  - unfold rounded. rewrite <- (exponent_proper x y NZ E).
    pose proof (Qdiv_proper_l x y (pow2 (exponent x)) E) as E'.
    rewrite (round_half_even_proper _ _ E'). reflexivity.
Qed.

Lemma round_half_even_zero_proper (x y : Q) : (x == y)%Q ->
  round_half_even (x / pow2 (exponent x)) = round_half_even (y / pow2 (exponent y)).
Proof.
  intros E. destruct (Qeq_dec x 0) as [Z|NZ].
  - assert (Zy : (y == 0)%Q) by (rewrite <- E; exact Z).
    pose proof (Qdiv_zero x (pow2 (exponent x)) Z) as E1.
    pose proof (Qdiv_zero y (pow2 (exponent y)) Zy) as E2.
    rewrite (round_half_even_proper _ _ E1), (round_half_even_proper _ _ E2).
    reflexivity.
  - rewrite <- (exponent_proper x y NZ E).
    apply round_half_even_proper. apply Qdiv_proper_l. exact E.
Qed.

(** [binary64] sees the rational, not the fraction that denotes it. *)
Lemma binary64_proper (x y : Q) : (x == y)%Q -> binary64 x = binary64 y.
Proof.
  intros E. rewrite !binary64_rounded.
  rewrite (Qred_complete _ _ (rounded_proper x y E)).
  rewrite (round_half_even_zero_proper x y E). reflexivity.
Qed.

Lemma Qred_inject_Z (z : Z) : Qred (inject_Z z) = inject_Z z.
Proof. apply Qcanon.Qred_identity. simpl. apply Z.gcd_1_r. Qed.

Lemma Qabs_inject_Z (z : Z) : Qabs (inject_Z z) = inject_Z (Z.abs z).
Proof. reflexivity. Qed.

Lemma Qle_bool_false (x y : Q) : (y < x)%Q -> Qle_bool x y = false.
Proof.
  intros H. destruct (Qle_bool x y) eqn:E; [| reflexivity].
  apply Qle_bool_iff in E. lra.
Qed.

(** A rational with a significand of at most 53 bits and an exponent in
    range is a double: rounding leaves it as it is. *)
Lemma binary64_exact (x : Q) (m e : Z) :
  (x == inject_Z m * pow2 e)%Q ->
  Z.abs m < 2 ^ 53 -> -1074 <= e -> (Qabs x < pow2 1024)%Q ->
  binary64 x = Finite (Qred x).
Proof.
  intros Ex Hm He Hx.
  assert (Hr : (rounded x == x)%Q).
  { destruct (Qeq_dec x 0) as [Z|NZ]; [rewrite (rounded_zero x Z); symmetry; exact Z |].
    unfold rounded.
    assert (Hax : (0 < Qabs x)%Q) by (apply Qabs_case; intros; lra).
    assert (Hle : exponent x <= e).
    { unfold exponent. apply Z.max_lub; [exact He |].
      assert (Qlog2 (Qabs x) < 53 + e); [| lia].
      apply pow2_lt_inv.
      eapply Qle_lt_trans; [apply (proj1 (Qlog2_spec _ Hax)) |].
      assert (Ea : (Qabs x == inject_Z (Z.abs m) * pow2 e)%Q).
      { rewrite (Qabs_wd _ _ Ex), Qabs_Qmult, Qabs_inject_Z.
        rewrite (Qabs_pos (pow2 e)) by (apply Qlt_le_weak, pow2_pos).
        reflexivity. }
      rewrite Ea, pow2_add.
      apply Qmult_lt_compat_r; [apply pow2_pos |].
      rewrite pow2_inject by lia.
      rewrite <- Zlt_Qlt. exact Hm. }
    remember (exponent x) as ex eqn:Hex. clear Hex Hax Hx NZ.
    assert (Ei : (x / pow2 ex == inject_Z (m * 2 ^ (e - ex)))%Q).
    { rewrite Ex, inject_Z_mult, <- pow2_inject by lia.
      rewrite pow2_sub. field. apply pow2_nonzero. }
    rewrite (round_half_even_proper _ _ Ei), round_half_even_inject.
    rewrite <- Ei. field. apply pow2_nonzero. }
  rewrite binary64_rounded.
  rewrite (Qred_complete _ _ Hr).
  rewrite Qle_bool_false; [reflexivity |].
  rewrite (Qred_correct x). exact Hx.
Qed.

Lemma binary64_inject_Z (z : Z) :
  Z.abs z < 2 ^ 53 -> binary64 (inject_Z z) = Finite (inject_Z z).
Proof.
  intros Hz. rewrite (binary64_exact (inject_Z z) z 0); try lia.
  - rewrite Qred_inject_Z. reflexivity.
  - change (pow2 0) with 1%Q. rewrite Qmult_1_r. reflexivity.
  - rewrite Qabs_inject_Z.
    eapply Qlt_le_trans; [rewrite <- Zlt_Qlt; exact Hz |].
    rewrite <- (pow2_inject 53) by lia. apply pow2_le. lia.
Qed.

(** Rounding keeps the sign and the order of non-negative rationals. *)
Lemma significand_nonneg (x : Q) :
  (0 <= x)%Q -> 0 <= round_half_even (x / pow2 (exponent x)).
Proof.
  intros Hx. apply round_half_even_ge. change (inject_Z 0) with 0%Q.
  apply Qle_shift_div_l; [apply pow2_pos | lra].
Qed.

Lemma rounded_nonneg (x : Q) : (0 <= x)%Q -> (0 <= rounded x)%Q.
Proof.
  intros Hx. unfold rounded. apply Qmult_le_0_compat.
  - change 0%Q with (inject_Z 0). rewrite <- Zle_Qle. apply significand_nonneg, Hx.
  - apply Qlt_le_weak, pow2_pos.
Qed.

Lemma exponent_pos (x : Q) :
  (0 < x)%Q -> exponent x = Z.max (-1074) (Qlog2 x - 52).
Proof.
  intros Hx. unfold exponent. f_equal. f_equal.
  apply Qlog2_proper; [| apply Qabs_pos; lra].
  rewrite Qabs_pos; lra.
Qed.

Lemma exponent_monotone (x y : Q) :
  (0 < x)%Q -> (x <= y)%Q -> exponent x <= exponent y.
Proof.
  intros Hx Hxy. rewrite !exponent_pos by lra.
  pose proof (Qlog2_monotone x y Hx Hxy). lia.
Qed.

Lemma rounded_monotone (x y : Q) :
  (0 <= x)%Q -> (x <= y)%Q -> (rounded x <= rounded y)%Q.
Proof.
  intros H0 Hxy.
  destruct (Qeq_dec x 0) as [Z|NZ].
  { rewrite (rounded_zero x Z). apply rounded_nonneg. lra. }
  assert (Hx : (0 < x)%Q) by lra.
  assert (Hy : (0 < y)%Q) by lra.
  pose proof (exponent_monotone x y Hx Hxy) as He.
  destruct (Z.eq_dec (exponent x) (exponent y)) as [E|NE].
  - unfold rounded. rewrite <- E.
    apply Qmult_le_compat_r; [| apply Qlt_le_weak, pow2_pos].
    rewrite <- Zle_Qle. apply round_half_even_monotone.
    apply Qmult_le_compat_r; [exact Hxy |].
    apply Qlt_le_weak, Qinv_lt_0_compat, pow2_pos.
  - assert (Hlt : exponent x < exponent y) by lia.
    assert (Ey : exponent y = Qlog2 y - 52).
    { revert Hlt. rewrite !exponent_pos by lra. lia. }
    assert (Lx : Qlog2 x < Qlog2 y).
    { revert Hlt. rewrite !exponent_pos by lra. lia. }
    assert (Gx : Qlog2 x - 52 <= exponent x) by (rewrite exponent_pos by lra; lia).
    destruct (Qlog2_spec x Hx) as [_ Ux]. destruct (Qlog2_spec y Hy) as [Ly _].
    apply Qle_trans with (pow2 (Qlog2 y)).
    + unfold rounded.
      replace (Qlog2 y) with ((Qlog2 y - exponent x) + exponent x) by lia.
      rewrite pow2_add.
      apply Qmult_le_compat_r; [| apply Qlt_le_weak, pow2_pos].
      rewrite (pow2_inject (Qlog2 y - exponent x)) by lia. rewrite <- Zle_Qle.
      apply round_half_even_le.
      rewrite <- (pow2_inject (Qlog2 y - exponent x)) by lia. rewrite pow2_sub.
      apply Qmult_le_compat_r;
        [| apply Qlt_le_weak, Qinv_lt_0_compat, pow2_pos].
      apply Qlt_le_weak. eapply Qlt_le_trans; [exact Ux |].
      apply pow2_le. lia.
    + unfold rounded. rewrite Ey.
      replace (Qlog2 y) with (52 + (Qlog2 y - 52)) at 1 by lia.
      rewrite pow2_add.
      apply Qmult_le_compat_r; [| apply Qlt_le_weak, pow2_pos].
      rewrite (pow2_inject 52) by lia. rewrite <- Zle_Qle.
      apply round_half_even_ge.
      rewrite <- (pow2_inject 52) by lia.
      apply Qle_shift_div_l; [apply pow2_pos |].
      rewrite <- pow2_add. replace (52 + (Qlog2 y - 52)) with (Qlog2 y) by lia.
      exact Ly.
Qed.

Lemma binary64_nonneg (x : Q) : (0 <= x)%Q -> Number_le (Finite 0) (binary64 x).
Proof.
  intros Hx. rewrite binary64_rounded.
  pose proof (rounded_nonneg x Hx) as Hr.
  pose proof (significand_nonneg x Hx) as Hm.
  destruct (Qle_bool _ _) eqn:E.
  - destruct (Z.ltb_spec 0 (round_half_even (x / pow2 (exponent x)))) as [_|Hle];
      [exact I |].
    exfalso. apply Qle_bool_iff in E.
    assert (Em : round_half_even (x / pow2 (exponent x)) = 0) by lia.
    assert (Er : (rounded x == 0)%Q) by (unfold rounded; rewrite Em; ring).
    rewrite (Qabs_wd _ _ (Qred_correct _)), (Qabs_wd _ _ Er) in E.
    pose proof (pow2_pos 1024). change (Qabs 0) with 0%Q in E. lra.
  - cbn. rewrite Qred_correct. exact Hr.
Qed.

Lemma binary64_monotone (x y : Q) :
  (0 <= x)%Q -> (x <= y)%Q -> Number_le (binary64 x) (binary64 y).
Proof.
  intros Hx Hxy.
  pose proof (rounded_monotone x y Hx Hxy) as Hr.
  pose proof (rounded_nonneg x Hx) as H0.
  pose proof (binary64_nonneg x Hx) as Nx.
  pose proof (binary64_nonneg y ltac:(lra)) as Ny.
  revert Nx Ny. rewrite !binary64_rounded.
  destruct (Qle_bool (pow2 1024) (Qabs (Qred (rounded x)))) eqn:Ex;
    destruct (Qle_bool (pow2 1024) (Qabs (Qred (rounded y)))) eqn:Ey.
  - destruct (0 <? _), (0 <? _); cbn; tauto.
  - exfalso. apply Qle_bool_iff in Ex.
    rewrite (Qabs_wd _ _ (Qred_correct _)), Qabs_pos in Ex by exact H0.
    assert (Hy : (rounded y < pow2 1024)%Q).
    { apply Qnot_le_lt. intros H. 
      assert (Qle_bool (pow2 1024) (Qabs (Qred (rounded y))) = true); [| congruence].
      apply Qle_bool_iff. rewrite (Qabs_wd _ _ (Qred_correct _)), Qabs_pos by lra.
      exact H. }
    lra.
  - destruct (0 <? _); cbn; tauto.
  - intros _ _. cbn. rewrite !Qred_correct. exact Hr.
Qed.

(** *** Some doubles *)

(** The double nearest to one tenth is 3602879701896397 / 2^55. *)
Example binary64_one_tenth :
  binary64 (1 # 10) = Finite (3602879701896397 # 36028797018963968).
Proof. vm_compute. reflexivity. Qed.

(** [0.1 + 0.2] is the double above [0.3]. *)
Example Number_add_tenths :
  Number_add (binary64 (1 # 10)) (binary64 (2 # 10))
  = Finite (1351079888211149 # 4503599627370496)
  /\ binary64 (3 # 10) = Finite (5404319552844595 # 18014398509481984).
Proof. vm_compute. split; reflexivity. Qed.

(** [240 / (48000 / 44100)] is the double below 220.5, and rounds to 220. *)
Example Number_div_240 :
  let ratio := Number_div (Number_of_Z 48000) (Number_of_Z 44100) in
  ratio = Finite (4901877145437275 # 4503599627370496)
  /\ Number_div (Number_of_Z 240) ratio = Finite (7758154045587455 # 35184372088832)
  /\ Math_round (Number_div (Number_of_Z 240) ratio) = Finite 220.
Proof. vm_compute. repeat split; reflexivity. Qed.

(** [200 * (37800 / 16000)] is the double below 472.5, and rounds to 472. *)
Example Number_mul_200 :
  let ratio := Number_div (Number_of_Z 37800) (Number_of_Z 16000) in
  ratio = Finite (2659938529915699 # 1125899906842624)
  /\ Number_mul (Number_of_Z 200) ratio = Finite (8312307905986559 # 17592186044416)
  /\ Math_round (Number_mul (Number_of_Z 200) ratio) = Finite 472.
Proof. vm_compute. repeat split; reflexivity. Qed.

(** Overflow, and the quotients by zero. *)
Example Number_overflow :
  Number_mul (binary64 (pow2 1023)) (Finite 2) = PosInfinity
  /\ Number_div (Finite 1) (Finite 0) = PosInfinity
  /\ Number_div (Finite 0) (Finite 0) = NaN
  /\ Number_ToInt16 NaN = 0.
Proof. vm_compute. repeat split; reflexivity. Qed.

Lemma wrap16_id (z : Z) : -32768 <= z <= 32767 -> wrap16 z = z.
Proof. intros H. unfold wrap16. rewrite Z.mod_small; lia. Qed.

Lemma len_nonneg {A : Type} (a : list A) : 0 <= len a.
Proof. unfold len. lia. Qed.

(** ** The loops of [downsampleBuffer] *)

(** *** Integers as Numbers *)

Lemma Number_of_Z_exact (z : Z) :
  Z.abs z < 2 ^ 53 -> Number_of_Z z = Finite (inject_Z z).
Proof. apply binary64_inject_Z. Qed.

Lemma Number_succ (k : Z) :
  0 <= k < 2 ^ 53 - 1 ->
  Number_add (Finite (inject_Z k)) (Finite 1) = Finite (inject_Z (k + 1)).
Proof.
  intros Hk. unfold Number_add.
  rewrite (binary64_proper _ (inject_Z (k + 1))) by (rewrite inject_Z_plus; reflexivity).
  apply binary64_inject_Z. lia.
Qed.

Lemma Number_ltb_inject (a b : Z) :
  Number_ltb (Finite (inject_Z a)) (Finite (inject_Z b)) = (a <? b).
Proof.
  unfold Number_ltb.
  destruct (Z.ltb_spec a b) as [H|H].
  - apply negb_true_iff. apply Qle_bool_false. rewrite <- Zlt_Qlt. exact H.
  - apply negb_false_iff. apply Qle_bool_iff. rewrite <- Zle_Qle. exact H.
Qed.

Lemma index_inject (k : Z) :
  0 <= k -> index (Finite (inject_Z k)) = Some (Z.to_nat k).
Proof.
  intros Hk. unfold index. rewrite Qfloor_Z.
  rewrite (proj2 (Qeq_bool_iff _ _) (Qeq_refl _)).
  destruct (Z.leb_spec 0 k); [reflexivity | lia].
Qed.

Lemma length_of_exact {A : Type} (a : list A) :
  len a < 2 ^ 53 -> length_of a = Finite (inject_Z (len a)).
Proof. intros H. apply Number_of_Z_exact. unfold len in *. lia. Qed.

(** *** Signs *)

Lemma Number_le_0_nonnegative (x : Number) :
  Number_le (Finite 0) x -> nonnegative x.
Proof. destruct x; cbn; tauto. Qed.

Lemma binary64_nonnegative (x : Q) : (0 <= x)%Q -> nonnegative (binary64 x).
Proof. intros H. apply Number_le_0_nonnegative, binary64_nonneg, H. Qed.

Lemma sign_nonneg (x : Q) : (0 <= x)%Q -> sign x <> Lt.
Proof. intros H E. unfold sign in E. rewrite <- Qlt_alt in E. lra. Qed.

Lemma sign_pos (x : Q) : (0 < x)%Q -> sign x = Gt.
Proof. intros H. unfold sign. rewrite <- Qgt_alt. exact H. Qed.

Lemma Number_mul_nonnegative (a b : Number) :
  nonnegative a -> nonnegative b -> nonnegative (Number_mul a b).
Proof.
  destruct a as [x| | |], b as [y| | |]; cbn; try tauto.
  - intros Hx Hy. apply binary64_nonnegative. apply Qmult_le_0_compat; assumption.
  - intros Hx _. pose proof (sign_nonneg x Hx). destruct (sign x); cbn; tauto.
  - intros _ Hy. pose proof (sign_nonneg y Hy). destruct (sign y); cbn; tauto.
Qed.

Lemma Number_div_nonnegative (a b : Number) :
  nonnegative a -> nonnegative b -> nonnegative (Number_div a b).
Proof.
  destruct a as [x| | |], b as [y| | |]; cbn; try tauto; try (intros; lra).
  - intros Hx Hy. pose proof (sign_nonneg x Hx). pose proof (sign_nonneg y Hy).
    destruct (sign y) eqn:Ey; [destruct (sign x); cbn; tauto | tauto |].
    apply binary64_nonnegative. unfold sign in Ey. rewrite <- Qgt_alt in Ey.
    apply Qle_shift_div_l; lra.
  - intros _ Hy. pose proof (sign_nonneg y Hy). destruct (sign y); cbn; tauto.
Qed.

Lemma Number_of_Z_nonnegative (z : Z) : 0 <= z -> nonnegative (Number_of_Z z).
Proof.
  intros H. apply binary64_nonnegative. change 0%Q with (inject_Z 0).
  rewrite <- Zle_Qle. exact H.
Qed.

Lemma Math_round_offsetLike (x : Number) : nonnegative x -> offsetLike (Math_round x).
Proof.
  destruct x as [q| | |]; cbn; try tauto.
  intros Hq. exists (Qfloor (q + (1 # 2))). split; [| reflexivity].
  change 0 with (Qfloor 0). apply Qfloor_resp_le. lra.
Qed.

(** *** The loops run to their end *)

Lemma read_inside (buffer : list Z) (z : Z) :
  0 <= z < len buffer ->
  exists x, buffer !! Z.to_nat z = Some x
            /\ read buffer (Finite (inject_Z z)) = Ok (Number_of_Z x).
Proof.
  intros [H0 H1]. unfold read. rewrite index_inject by exact H0. cbn.
  destruct (buffer !! Z.to_nat z) as [x|] eqn:E; [eauto |].
  apply lookup_ge_None in E. unfold len in H1. lia.
Qed.

(** Started from a Number that is no index, the [for] loop does not turn. *)
Lemma forLoop_not_started (fuel : nat) (buffer : list Z)
    (i nextOffsetBuffer accum count : Number) :
  i = PosInfinity \/ i = NaN ->
  forLoop (S fuel) buffer i nextOffsetBuffer accum count = Ok (accum, count).
Proof. intros [-> | ->]; destruct nextOffsetBuffer; reflexivity. Qed.

Section ForLoop.
Variables (buffer : list Z) (nextOffsetBuffer : Number).
Hypothesis array : len buffer < 2 ^ 53.

(** The [for] loop leaves after at most as many turns as there are samples
    from its start on, having read inside the buffer only; [count] holds the
    number of turns. *)
Lemma forLoop_runs :
  forall (fuel : nat) (z c : Z) (accum : Number),
    0 <= z -> 0 <= c -> c <= z ->
    (Z.to_nat (len buffer - z) < fuel)%nat ->
    exists (accum' : Number) (c' : Z),
      forLoop fuel buffer (Finite (inject_Z z)) nextOffsetBuffer
              accum (Finite (inject_Z c))
      = Ok (accum', Finite (inject_Z c'))
      /\ c <= c' <= c + Z.max 0 (len buffer - z)
      /\ (c' = c -> accum' = accum).
Proof using array.
  induction fuel as [|fuel IH]; intros z c accum Hz Hc Hcz Hfuel; [lia |].
  cbn [forLoop]. rewrite (length_of_exact buffer array), Number_ltb_inject.
  destruct (Number_ltb (Finite (inject_Z z)) nextOffsetBuffer); cbn [andb];
    [| exists accum, c; repeat split; auto; lia].
  destruct (Z.ltb_spec z (len buffer)) as [Hlt|Hge];
    [| exists accum, c; repeat split; auto; lia].
  destruct (read_inside buffer z) as (x & _ & ->); [lia |].
  cbn [mbind outcome_bind].
  rewrite !Number_succ by lia.
  destruct (IH (z + 1) (c + 1) (Number_add accum (Number_of_Z x)))
    as (accum' & c' & -> & Hc' & _); try lia.
  exists accum', c'. split; [reflexivity |]. split; lia.
Qed.
End ForLoop.

Lemma store_length (result : list Z) (i v : Number) :
  length (store result i v) = length result.
Proof. unfold store. destruct (index i); [apply length_insert | reflexivity]. Qed.

Section WhileLoop.
Variables (buffer : list Z) (sampleRateRatio : Number).
Hypothesis array : len buffer < 2 ^ 53.
Hypothesis ratio : nonnegative sampleRateRatio.

Lemma nextOffsetBuffer_offsetLike (k : Z) :
  0 <= k ->
  offsetLike (Math_round (Number_mul (Finite (inject_Z k)) sampleRateRatio)).
Proof using ratio.
  intros Hk. apply Math_round_offsetLike, Number_mul_nonnegative; [| exact ratio].
  cbn. change 0%Q with (inject_Z 0). rewrite <- Zle_Qle. exact Hk.
Qed.

(** One block: the [for] loop comes back, from wherever it is started. *)
Lemma block_runs (offsetBuffer nextOffsetBuffer : Number) :
  offsetLike offsetBuffer ->
  exists (accum : Number) (count : Z),
    forLoop (S (length buffer)) buffer offsetBuffer nextOffsetBuffer
            (Finite 0) (Finite 0)
    = Ok (accum, Finite (inject_Z count))
    /\ 0 <= count <= len buffer
    /\ (count = 0 -> accum = Finite 0).
Proof using array.
  intros Ho. destruct offsetBuffer as [q| | |]; try contradiction.
  - destruct Ho as (z & Hz & ->).
    destruct (forLoop_runs buffer nextOffsetBuffer array (S (length buffer)) z 0
                (Finite 0)) as (accum & c & E & Hc & Ha); try lia.
    { unfold len. lia. }
    exists accum, c. split; [exact E |]. split; [unfold len in *; lia | exact Ha].
  - exists (Finite 0), 0. split; [apply forLoop_not_started; auto |].
    unfold len. split; [lia | auto].
  - exists (Finite 0), 0. split; [apply forLoop_not_started; auto |].
    unfold len. split; [lia | auto].
Qed.

(** The [while] loop, from any block on, fills the rest of [result] and
    leaves its length alone. *)
Lemma whileLoop_runs :
  forall (fuel : nat) (result : list Z) (k : Z) (offsetBuffer : Number),
    0 <= k -> len result < 2 ^ 53 ->
    offsetLike offsetBuffer ->
    (Z.to_nat (len result - k) < fuel)%nat ->
    exists result',
      whileLoop fuel buffer sampleRateRatio result
                (Finite (inject_Z k)) offsetBuffer = Ok result'
      /\ length result' = length result.
Proof using array ratio.
  induction fuel as [|fuel IH]; intros result k offsetBuffer Hk Hlen Ho Hfuel;
    [lia |].
  cbn [whileLoop]. rewrite (length_of_exact result Hlen), Number_ltb_inject.
  destruct (Z.ltb_spec k (len result)) as [Hlt|Hge]; [| eauto].
  rewrite Number_succ by lia.
  destruct (block_runs offsetBuffer
              (Math_round (Number_mul (Finite (inject_Z (k + 1))) sampleRateRatio)) Ho)
    as (accum & count & -> & _).
  cbn [mbind outcome_bind].
  match goal with
  | |- context [store result ?i ?v] =>
      destruct (IH (store result i v) (k + 1)
                  (Math_round (Number_mul (Finite (inject_Z (k + 1))) sampleRateRatio)))
        as (r & Hr & Hlr)
  end.
  - lia.
  - unfold len in *. rewrite store_length. exact Hlen.
  - apply nextOffsetBuffer_offsetLike. lia.
  - unfold len in *. rewrite store_length. lia.
  - exists r. split; [exact Hr |]. rewrite Hlr. apply store_length.
Qed.
End WhileLoop.

(** *** The ratio of the rates and the new length *)

Lemma Number_of_Z_pos_ge_1 (p : positive) :
  Number_le (Finite 1) (Number_of_Z (Z.pos p)).
Proof.
  change (Finite 1) with (binary64 1). apply binary64_monotone; [lra |].
  change 1%Q with (inject_Z 1). rewrite <- Zle_Qle. lia.
Qed.

Lemma Number_of_Z_monotone (a b : Z) :
  0 <= a <= b -> Number_le (Number_of_Z a) (Number_of_Z b).
Proof.
  intros [H0 H]. apply binary64_monotone.
  - change 0%Q with (inject_Z 0). rewrite <- Zle_Qle. exact H0.
  - rewrite <- Zle_Qle. exact H.
Qed.

(** The ratio of a rate to a smaller one: a double that is at least 1 (or,
    for rates beyond the range of the doubles, infinite or no number). *)
Lemma sampleRateRatio_cases (p q : positive) :
  (q < p)%positive ->
  let r := Number_div (Number_of_Z (Z.pos p)) (Number_of_Z (Z.pos q)) in
  (exists x : Q, r = Finite x /\ (1 <= x)%Q) \/ r = PosInfinity \/ r = NaN.
Proof.
  intros Hqp r. subst r.
  pose proof (Number_of_Z_pos_ge_1 q) as Hq.
  pose proof (Number_of_Z_monotone (Z.pos q) (Z.pos p) ltac:(lia)) as Hqp'.
  destruct (Number_of_Z (Z.pos q)) as [y| | |], (Number_of_Z (Z.pos p)) as [x| | |];
    cbn in Hq, Hqp'; try contradiction; cbn [Number_div].
  - rewrite (sign_pos y) by lra.
    assert (H1 : Number_le (Finite 1) (binary64 (x / y))).
    { change (Finite 1) with (binary64 1). apply binary64_monotone; [lra |].
      apply Qle_shift_div_l; lra. }
    destruct (binary64 (x / y)) as [r| | |]; cbn in H1; try contradiction; eauto.
  - rewrite (sign_pos y) by lra. auto.
  - auto.
Qed.

Lemma sampleRateRatio_nonnegative (p q : positive) :
  nonnegative (Number_div (Number_of_Z (Z.pos p)) (Number_of_Z (Z.pos q))).
Proof. apply Number_div_nonnegative; apply Number_of_Z_nonnegative; lia. Qed.

Lemma truncate_inject_Z (z : Z) : truncate (inject_Z z) = z.
Proof. unfold truncate. cbn. apply Z.quot_1_r. Qed.

Lemma ToIndex_inject (z : Z) :
  0 <= z <= 2 ^ 53 - 1 -> ToIndex (Finite (inject_Z z)) = Some z.
Proof.
  intros [H0 H1]. unfold ToIndex. rewrite truncate_inject_Z.
  destruct (Z.leb_spec 0 z); [| lia].
  destruct (Z.leb_spec z (2 ^ 53 - 1)); [reflexivity | lia].
Qed.

(** The new length is a length, and not more than the length of the input. *)
Lemma newLength_cases (buffer : list Z) (p q : positive) :
  (q < p)%positive -> len buffer < 2 ^ 53 ->
  exists n : Z,
    ToIndex (Math_round
               (Number_div (length_of buffer)
                  (Number_div (Number_of_Z (Z.pos p)) (Number_of_Z (Z.pos q)))))
    = Some n
    /\ 0 <= n <= len buffer.
Proof.
  intros Hqp Hlen.
  assert (H0 : 0 <= len buffer) by (unfold len; lia).
  rewrite (length_of_exact buffer Hlen).
  destruct (sampleRateRatio_cases p q Hqp) as [(r & -> & Hr)|[-> | ->]].
  - cbn [Number_div]. rewrite (sign_pos r) by lra.
    assert (Hn : (0 <= inject_Z (len buffer))%Q).
    { change 0%Q with (inject_Z 0). rewrite <- Zle_Qle. exact H0. }
    assert (Hq : (0 <= inject_Z (len buffer) / r)%Q) by (apply Qle_shift_div_l; lra).
    assert (Hq' : (inject_Z (len buffer) / r <= inject_Z (len buffer))%Q).
    { apply Qle_shift_div_r; [lra |]. nra. }
    pose proof (binary64_nonneg _ Hq) as Lo.
    pose proof (binary64_monotone _ _ Hq Hq') as Hi.
    rewrite (binary64_inject_Z (len buffer)) in Hi by lia.
    destruct (binary64 (inject_Z (len buffer) / r)) as [x| | |];
      cbn in Lo, Hi; try contradiction.
    cbn [Math_round].
    assert (Hf : 0 <= Qfloor (x + (1 # 2)) <= len buffer).
    { split.
      - change 0 with (Qfloor 0). apply Qfloor_resp_le. lra.
      - assert (H : (inject_Z (Qfloor (x + (1 # 2))) < inject_Z (len buffer + 1))%Q).
        { eapply Qle_lt_trans; [apply Qfloor_le |].
          rewrite inject_Z_plus. change (inject_Z 1) with 1%Q. lra. }
        rewrite <- Zlt_Qlt in H. lia. }
    exists (Qfloor (x + (1 # 2))). split; [apply ToIndex_inject; lia | exact Hf].
  - exists 0. split; [reflexivity | lia].
  - exists 0. split; [reflexivity | lia].
Qed.

Section Downsampling.
Variables (buffer : list Z) (p q : positive).
Hypothesis down : (q < p)%positive.
Hypothesis array : len buffer < 2 ^ 53.

(** The function as a whole, when it downsamples. *)
Lemma downsampleBuffer_runs :
  exists result,
    downsampleBuffer buffer p q = ([], Ok result)
    /\ ToIndex (Math_round
                  (Number_div (length_of buffer)
                     (Number_div (Number_of_Z (Z.pos p)) (Number_of_Z (Z.pos q)))))
       = Some (len result)
    /\ len result <= len buffer.
Proof using down array.
  unfold downsampleBuffer.
  destruct (Pos.eqb_spec q p) as [?|_]; [lia |].
  destruct (Pos.ltb_spec p q) as [?|_]; [lia |].
  destruct (newLength_cases buffer p q down array) as (n & Hn & Hn0).
  unfold new_Int16Array. rewrite Hn. cbn [mbind outcome_bind].
  assert (Hl : len (replicate (Z.to_nat n) 0) = n).
  { unfold len. rewrite length_replicate. lia. }
  destruct (whileLoop_runs buffer _ array (sampleRateRatio_nonnegative p q)
              (S (length (replicate (Z.to_nat n) 0)))
              (replicate (Z.to_nat n) 0) 0 (Finite 0))
    as (r & Hr & Hlr).
  - lia.
  - lia.
  - exists 0. split; [lia | reflexivity].
  - unfold len. lia.
  - exists r. change (inject_Z 0) with 0%Q in Hr. rewrite Hr.
    split; [reflexivity |].
    assert (len r = n) by (unfold len in *; rewrite Hlr; exact Hl).
    split; [congruence | lia].
Qed.
End Downsampling.


(** *** A run with an empty block *)

Lemma Qfloor_unique (y : Q) (j : Z) :
  (inject_Z j <= y)%Q -> (y < inject_Z j + 1)%Q -> Qfloor y = j.
Proof.
  intros H1 H2. destruct (Qfloor_bounds y) as [F1 F2].
  assert (A : (inject_Z j < inject_Z (Qfloor y + 1))%Q).
  { rewrite inject_Z_plus. change (inject_Z 1) with 1%Q. lra. }
  assert (B : (inject_Z (Qfloor y) < inject_Z (j + 1))%Q).
  { rewrite inject_Z_plus. change (inject_Z 1) with 1%Q. lra. }
  rewrite <- Zlt_Qlt in A, B. lia.
Qed.

(** One turn of the [for] loop on a buffer of equal samples, and its end. *)
Lemma forLoop_turn (n : nat) (v : Z) (fuel : nat) (z : Z)
    (nextOffsetBuffer accum count : Number) :
  0 <= z < Z.of_nat n -> Z.of_nat n < 2 ^ 53 ->
  Number_ltb (Finite (inject_Z z)) nextOffsetBuffer = true ->
  forLoop (S fuel) (replicate n v) (Finite (inject_Z z)) nextOffsetBuffer accum count
  = forLoop fuel (replicate n v) (Finite (inject_Z (z + 1))) nextOffsetBuffer
            (Number_add accum (Number_of_Z v)) (Number_add count (Finite 1)).
Proof.
  intros Hz Hn Hnext. cbn [forLoop]. rewrite Hnext.
  rewrite length_of_exact by (unfold len; rewrite length_replicate; exact Hn).
  unfold len. rewrite length_replicate, Number_ltb_inject.
  destruct (Z.ltb_spec z (Z.of_nat n)) as [_|?]; [| lia]. cbn [andb].
  unfold read. rewrite index_inject by lia. cbn [mbind option_bind].
  rewrite lookup_replicate_2 by lia. cbn [mbind outcome_bind].
  rewrite Number_succ by lia. reflexivity.
Qed.

Lemma forLoop_leave (fuel : nat) (buffer : list Z)
    (i nextOffsetBuffer accum count : Number) :
  Number_ltb i nextOffsetBuffer = false \/ Number_ltb i (length_of buffer) = false ->
  forLoop (S fuel) buffer i nextOffsetBuffer accum count = Ok (accum, count).
Proof.
  intros [H|H]; cbn [forLoop]; rewrite H; [| rewrite andb_false_r]; reflexivity.
Qed.

Lemma forLoop_leave' (fuel : nat) (buffer : list Z)
    (i nextOffsetBuffer accum count : Number) :
  (0 < fuel)%nat ->
  Number_ltb i nextOffsetBuffer = false \/ Number_ltb i (length_of buffer) = false ->
  forLoop fuel buffer i nextOffsetBuffer accum count = Ok (accum, count).
Proof. destruct fuel; [lia |]. intros _. apply forLoop_leave. Qed.

(** What is stored for a block of one sample, of two samples, of none, when
    the samples are 1. *)
Lemma stored_one_sample :
  Number_ToInt16
    (Number_min (Finite 32767)
       (Number_max (Finite (-32768))
          (Math_round
             (Number_mul
                (Number_div (Number_add (Finite 0) (Number_of_Z 1))
                            (Number_add (Finite 0) (Finite 1)))
                (Finite 32767)))))
  = 32767.
Proof. vm_compute. reflexivity. Qed.

Lemma stored_two_samples :
  Number_ToInt16
    (Number_min (Finite 32767)
       (Number_max (Finite (-32768))
          (Math_round
             (Number_mul
                (Number_div
                   (Number_add (Number_add (Finite 0) (Number_of_Z 1)) (Number_of_Z 1))
                   (Number_add (Number_add (Finite 0) (Finite 1)) (Finite 1)))
                (Finite 32767)))))
  = 32767.
Proof. vm_compute. reflexivity. Qed.

Lemma stored_no_sample :
  Number_ToInt16
    (Number_min (Finite 32767)
       (Number_max (Finite (-32768))
          (Math_round
             (Number_mul (Number_div (Finite 0) (Finite 0)) (Finite 32767)))))
  = 0.
Proof. vm_compute. reflexivity. Qed.

Lemma store_next (k m : nat) (v : Number) :
  store (replicate k 32767 ++ replicate (S m) 0) (Finite (inject_Z (Z.of_nat k))) v
  = replicate k 32767 ++ Number_ToInt16 v :: replicate m 0.
Proof.
  unfold store. rewrite index_inject by lia. rewrite Nat2Z.id.
  rewrite insert_app_r_alt by (rewrite length_replicate; lia).
  rewrite length_replicate, Nat.sub_diag. reflexivity.
Qed.

Section EmptyBlock.
Variables (Kn : nat) (r : Q).
Hypothesis size : 2 <= Z.of_nat Kn < 2 ^ 53 - 2.
Hypothesis one_sample_blocks :
  forall j : Z,
    1 <= j < Z.of_nat Kn ->
    Math_round (Number_mul (Finite (inject_Z j)) (Finite r)) = Finite (inject_Z j).
Hypothesis two_sample_block :
  Math_round (Number_mul (Finite (inject_Z (Z.of_nat Kn))) (Finite r))
  = Finite (inject_Z (Z.of_nat Kn + 1)).

(** With K + 1 samples and a ratio under which block j ends at j for j < K
    and block K - 1 ends at K + 1, the blocks 0 .. K - 2 hold one sample
    each, block K - 1 holds the last two, and block K holds none. *)
Lemma whileLoop_empty_block :
  forall (fuel k m : nat),
    (k + m)%nat = S Kn -> (k < Kn)%nat -> (m < fuel)%nat ->
    whileLoop fuel (replicate (S Kn) 1) (Finite r)
              (replicate k 32767 ++ replicate m 0)
              (Finite (inject_Z (Z.of_nat k))) (Finite (inject_Z (Z.of_nat k)))
    = Ok (replicate Kn 32767 ++ [0]).
Proof using size one_sample_blocks two_sample_block.
  assert (Hlen : forall a b : nat,
             (a + b)%nat = S Kn ->
             length_of (replicate a 32767 ++ replicate b 0)
             = Finite (inject_Z (Z.of_nat Kn + 1))).
  { intros a b Hab. rewrite length_of_exact;
      unfold len; rewrite length_app, !length_replicate, Hab; [| lia].
    do 2 f_equal. lia. }
  assert (Hbuf : length_of (replicate (S Kn) 1) = Finite (inject_Z (Z.of_nat Kn + 1))).
  { rewrite length_of_exact; unfold len; rewrite length_replicate; [| lia].
    do 2 f_equal. lia. }
  induction fuel as [|fuel IH]; intros k m Hkm Hk Hfuel; [lia |].
  cbn [whileLoop]. rewrite (Hlen k m Hkm), Number_ltb_inject.
  destruct (Z.ltb_spec (Z.of_nat k) (Z.of_nat Kn + 1)) as [_|?]; [| lia].
  rewrite Number_succ by lia.
  destruct m as [|m]; [lia |].
  destruct (Nat.eq_dec (S k) Kn) as [Elast|Hmore].
  - (* block K - 1, then block K *)
    assert (Ek : Z.of_nat k + 1 = Z.of_nat Kn) by lia.
    assert (m = 1)%nat as -> by lia.
    rewrite Ek, two_sample_block, length_replicate.
    rewrite forLoop_turn; [| lia | lia | rewrite Number_ltb_inject; apply Z.ltb_lt; lia].
    rewrite Ek.
    rewrite forLoop_turn; [| lia | lia | rewrite Number_ltb_inject; apply Z.ltb_lt; lia].
    rewrite forLoop_leave';
      [| lia | left; rewrite Number_ltb_inject; apply Z.ltb_ge; lia].
    cbn [mbind outcome_bind].
    rewrite store_next, stored_two_samples.
    rewrite (cons_middle 32767), app_assoc, <- replicate_S_end, Elast.
    destruct fuel as [|fuel]; [lia |]. cbn [whileLoop].
    rewrite (Hlen Kn 1%nat) by lia.
    rewrite Number_ltb_inject.
    destruct (Z.ltb_spec (Z.of_nat Kn) (Z.of_nat Kn + 1)) as [_|?]; [| lia].
    rewrite forLoop_leave
      by (right; rewrite Hbuf, Number_ltb_inject; apply Z.ltb_ge; lia).
    cbn [mbind outcome_bind].
    rewrite (store_next Kn 0), stored_no_sample.
    change (0 :: replicate 0 0) with (replicate 1 0).
    destruct fuel as [|fuel]; [lia |]. cbn [whileLoop].
    rewrite (Hlen Kn 1%nat) by lia.
    rewrite Number_succ by lia.
    rewrite Number_ltb_inject.
    destruct (Z.ltb_spec (Z.of_nat Kn + 1) (Z.of_nat Kn + 1)) as [?|_]; [lia |].
    reflexivity.
  - (* a block of one sample *)
    rewrite one_sample_blocks by lia.
    rewrite forLoop_turn; [| lia | lia | rewrite Number_ltb_inject; apply Z.ltb_lt; lia].
    rewrite length_replicate.
    rewrite forLoop_leave
      by (left; rewrite Number_ltb_inject; apply Z.ltb_ge; lia).
    cbn [mbind outcome_bind].
    rewrite store_next, stored_one_sample.
    rewrite (cons_middle 32767), app_assoc, <- replicate_S_end.
    replace (Z.of_nat k + 1) with (Z.of_nat (S k)) by lia.
    apply IH; lia.
Qed.
End EmptyBlock.

(** The ratio of 134217729 to 134217728 is the double 1 + 2^-27.  Its
    product with an integer below 2^26 is a double as well, and rounds to that
    integer. *)
Lemma thin_ratio_offsets (j : Z) :
  1 <= j < 67108864 ->
  Math_round (Number_mul (Finite (inject_Z j)) (Finite (134217729 # 134217728)))
  = Finite (inject_Z j).
Proof.
  intros Hj. unfold Number_mul.
  assert (Ex : (inject_Z j * (134217729 # 134217728)
                == inject_Z (j * 134217729) * pow2 (-27))%Q).
  { change (pow2 (-27)) with (1 # 134217728).
    unfold Qeq, Qmult, inject_Z. simpl. lia. }
  rewrite (binary64_exact _ (j * 134217729) (-27) Ex); try lia.
  - cbn [Math_round]. do 2 f_equal. apply Qfloor_unique.
    + rewrite Qred_correct. unfold Qle, Qplus, Qmult, inject_Z. simpl. lia.
    + rewrite Qred_correct. unfold Qlt, Qplus, Qmult, inject_Z. simpl. lia.
  - apply Qlt_le_trans with (pow2 27); [| apply pow2_le; lia].
    rewrite (pow2_inject 27) by lia.
    unfold Qlt, Qabs, Qmult, inject_Z. simpl. lia.
Qed.

(** The run of [downsampleBuffer] on 2^26 + 1 samples that are all 1, from
    the rate 2^27 + 1 to the rate 2^27. *)
Lemma thin_ratio_run :
  downsampleBuffer (replicate (Z.to_nat 67108865) 1) 134217729 134217728
  = ([], Ok (replicate (Z.to_nat 67108864) 32767 ++ [0])).
Proof.
  assert (H : exists Kn : nat,
             Z.of_nat Kn = 67108864
             /\ Z.to_nat 67108865 = S Kn /\ Z.to_nat 67108864 = Kn).
  { exists (Z.to_nat 67108864). lia. }
  destruct H as (Kn & HK & -> & ->).
  unfold downsampleBuffer.
  change ((134217728 =? 134217729)%positive) with false.
  change ((134217729 <? 134217728)%positive) with false. cbv iota.
  assert (Er : Number_div (Number_of_Z (Z.pos 134217729)) (Number_of_Z (Z.pos 134217728))
               = Finite (134217729 # 134217728)) by (vm_compute; reflexivity).
  rewrite Er.
  rewrite length_of_exact; unfold len; rewrite length_replicate; [| lia].
  replace (Z.of_nat (S Kn)) with 67108865 by lia.
  assert (En : Math_round
                 (Number_div (Finite (inject_Z 67108865))
                             (Finite (134217729 # 134217728)))
               = Finite (inject_Z 67108865)) by (vm_compute; reflexivity).
  rewrite En. unfold new_Int16Array. rewrite ToIndex_inject by lia.
  cbn [mbind outcome_bind].
  replace (Z.to_nat 67108865) with (S Kn) by lia.
  f_equal.
  apply (whileLoop_empty_block Kn (134217729 # 134217728))
    with (k := 0%nat) (m := S Kn).
  - lia.
  - intros j Hj. apply thin_ratio_offsets. lia.
  - rewrite HK. vm_compute. reflexivity.
  - reflexivity.
  - lia.
  - rewrite length_replicate. lia.
Qed.

(** ** Claims about [downsampleBuffer] *)

(** C7, as the code has it.  When the target rate is below the source rate,
    [downsampleBuffer] returns a buffer (for an array, which has fewer than
    2^53 elements), and its length is what [new Int16Array] makes of
    [Math.round(buffer.length / (sampleRate / outSampleRate))], the two
    quotients being the doubles nearest to the exact ones. *)
Theorem downsampleBuffer_length
    (buffer : list Z) (sampleRate outSampleRate : positive) :
  (outSampleRate < sampleRate)%positive ->
  len buffer < 2 ^ 53 ->
  exists result,
    snd (downsampleBuffer buffer sampleRate outSampleRate) = Ok result
    /\ ToIndex
         (Math_round
            (Number_div (length_of buffer)
               (Number_div (Number_of_Z (Z.pos sampleRate))
                           (Number_of_Z (Z.pos outSampleRate)))))
       = Some (len result).
Proof.
  intros Hdown Harray.
  destruct (downsampleBuffer_runs buffer sampleRate outSampleRate Hdown Harray)
    as (result & Hrun & Hlen & _).
  exists result. rewrite Hrun. split; [reflexivity | exact Hlen].
Qed.

Lemma downsampleBuffer_length_witness :
  (16000 < 44100)%positive
  /\ len [5; 7; 9; 11; 13; 15; 17] < 2 ^ 53
  /\ exists result,
       snd (downsampleBuffer [5; 7; 9; 11; 13; 15; 17] 44100 16000) = Ok result
       /\ ToIndex
            (Math_round
               (Number_div (length_of [5; 7; 9; 11; 13; 15; 17])
                  (Number_div (Number_of_Z 44100) (Number_of_Z 16000))))
          = Some (len result).
Proof.
  split; [reflexivity |]. split; [reflexivity |].
  apply (downsampleBuffer_length [5; 7; 9; 11; 13; 15; 17] 44100 16000);
    reflexivity.
Defined.

(** C7, as the spec has it, fails.  For 240 samples from 48000 to 44100 the
    exact quotient is 220.5, which rounds to 221, but the double nearest to
    48000 / 44100 is above it, the quotient comes out below 220.5, and the
    function returns 220 samples.  For 2^26 + 1 samples from 2^27 + 1 to
    2^27 the exact quotient is below 2^26 + 0.5 and rounds to 2^26, but its
    double is 2^26 + 0.5 and the function returns 2^26 + 1 samples. *)
Lemma resampled_length_differs :
  (exists result,
      snd (downsampleBuffer (replicate 240 0) 48000 44100) = Ok result
      /\ len result = 220
      /\ (exactQuotient 240 48000 44100 == 441 # 2)%Q
      /\ specifiedLength 240 48000 44100 = 221)
  /\ (exists result,
        snd (downsampleBuffer (replicate (Z.to_nat 67108865) 1) 134217729 134217728)
        = Ok result
        /\ len result = 67108865
        /\ (exactQuotient 67108865 134217729 134217728 < 67108864 + (1 # 2))%Q
        /\ specifiedLength 67108865 134217729 134217728 = 67108864).
Proof.
  split.
  - exists (replicate 220 0). repeat split; vm_compute; reflexivity.
  - eexists. rewrite thin_ratio_run. split; [reflexivity |].
    split; [| split; vm_compute; reflexivity].
    unfold len. rewrite length_app, length_replicate. cbn [length]. lia.
Qed.

(** C9. When the target rate is above the source rate, [downsampleBuffer]
    returns its input unchanged, after one [console.error] that names the
    misconfiguration; it does not throw. *)
Theorem downsampleBuffer_upsampling
    (buffer : list Z) (sampleRate outSampleRate : positive) :
  (sampleRate < outSampleRate)%positive ->
  downsampleBuffer buffer sampleRate outSampleRate = ([rate_warning], Ok buffer).
Proof.
  intros Hup. unfold downsampleBuffer.
  destruct (Pos.eqb_spec outSampleRate sampleRate) as [E|_]; [lia |].
  destruct (Pos.ltb_spec sampleRate outSampleRate) as [_|?]; [reflexivity | lia].
Qed.

Lemma downsampleBuffer_upsampling_witness :
  (8000 < 16000)%positive
  /\ downsampleBuffer [3; -4; 5] 8000 16000 = ([rate_warning], Ok [3; -4; 5]).
Proof.
  split; [reflexivity |].
  apply (downsampleBuffer_upsampling [3; -4; 5] 8000 16000). reflexivity.
Defined.

Lemma read_in_bounds (buffer : list Z) (i x : Number) :
  read buffer i = Ok x ->
  exists n : nat, index i = Some n /\ (n < length buffer)%nat.
Proof.
  unfold read. destruct (index i) as [n|]; cbn; [| discriminate].
  destruct (buffer !! n) as [v|] eqn:E; [| discriminate].
  intros _. exists n. split; [reflexivity |]. eapply lookup_lt_Some, E.
Qed.

(** C10, as the code has it.  For every buffer, the empty one included (an
    array has fewer than 2^53 elements), and rates with
    0 < targetRate < sourceRate, [downsampleBuffer] runs to its end and
    returns a buffer that is not longer than its input: no array length is
    refused, no loop goes on, and no read is outside the buffer, a read
    being one only at a position that the buffer has. *)
Theorem downsampleBuffer_total
    (buffer : list Z) (sampleRate outSampleRate : positive) :
  (outSampleRate < sampleRate)%positive ->
  len buffer < 2 ^ 53 ->
  (exists result,
      downsampleBuffer buffer sampleRate outSampleRate = ([], Ok result)
      /\ len result <= len buffer)
  /\ forall i x : Number,
       read buffer i = Ok x ->
       exists n : nat, index i = Some n /\ (n < length buffer)%nat.
Proof.
  intros Hdown Harray. split.
  - destruct (downsampleBuffer_runs buffer sampleRate outSampleRate Hdown Harray)
      as (result & Hrun & _ & Hlen).
    exists result. split; assumption.
  - apply read_in_bounds.
Qed.

Lemma downsampleBuffer_total_witness :
  (16000 < 44100)%positive
  /\ len [5; 7; 9; 11; 13; 15; 17] < 2 ^ 53
  /\ exists result,
       downsampleBuffer [5; 7; 9; 11; 13; 15; 17] 44100 16000 = ([], Ok result)
       /\ len result <= len [5; 7; 9; 11; 13; 15; 17].
Proof.
  split; [reflexivity |]. split; [reflexivity |].
  apply (downsampleBuffer_total [5; 7; 9; 11; 13; 15; 17] 44100 16000);
    reflexivity.
Defined.

(** C10, as the spec has it, fails: a block can be empty.  On 2^26 + 1
    samples, from the rate 2^27 + 1 to the rate 2^27, the new length is
    2^26 + 1 and the last block starts at [Math.round(2^26 * ratio)], which is
    2^26 + 1, the length of the buffer: its [for] loop does not turn, [count]
    is 0, and 0 / 0, which is NaN, is stored as 0, although every sample
    is 1. *)
Lemma last_block_is_empty :
  let buffer := replicate (Z.to_nat 67108865) 1 in
  let sampleRateRatio :=
    Number_div (Number_of_Z 134217729) (Number_of_Z 134217728) in
  let offsetBuffer :=
    Math_round (Number_mul (Finite (inject_Z 67108864)) sampleRateRatio) in
  length_of buffer = Finite (inject_Z 67108865)
  /\ offsetBuffer = Finite (inject_Z 67108865)
  /\ (forall nextOffsetBuffer : Number,
         forLoop (S (length buffer)) buffer offsetBuffer nextOffsetBuffer
                 (Finite 0) (Finite 0)
         = Ok (Finite 0, Finite 0))
  /\ downsampleBuffer buffer 134217729 134217728
     = ([], Ok (replicate (Z.to_nat 67108864) 32767 ++ [0])).
Proof.
  intros buffer sampleRateRatio offsetBuffer.
  assert (Hlen : length_of buffer = Finite (inject_Z 67108865)).
  { subst buffer. rewrite length_of_exact;
      unfold len; rewrite length_replicate, Z2Nat.id by lia; [reflexivity | lia]. }
  assert (Hoff : offsetBuffer = Finite (inject_Z 67108865))
    by (vm_compute; reflexivity).
  split; [exact Hlen |]. split; [exact Hoff |]. split; [| apply thin_ratio_run].
  intros nextOffsetBuffer. apply forLoop_leave. right.
  rewrite Hlen, Hoff, Number_ltb_inject. reflexivity.
Qed.

(** C2. On 4800 samples that are all 1, from 48000 to 16000, the function
    returns 1600 samples, and each of them is 32767, not 1: the mean of a
    block is multiplied by 32767 before it is rounded and clamped. *)
Theorem downsampleBuffer_constant_one :
  downsampleBuffer (replicate 4800 1) 48000 16000
  = ([], Ok (replicate 1600 32767)).
Proof. vm_compute. reflexivity. Qed.

(** ** Claims about [convertFloat32ToInt16] *)

Lemma clamp_bounds (x : Q) : (-1 <= clamp x <= 1)%Q.
Proof.
  unfold clamp, Math_max, Math_min.
  destruct (Qle_bool 1 x) eqn:E1.
  - destruct (Qle_bool (-1) 1) eqn:E2; [lra | discriminate].
  - destruct (Qle_bool (-1) x) eqn:E2.
    + apply Qle_bool_iff in E2.
      assert (~ (1 <= x)%Q) by (rewrite <- Qle_bool_iff; congruence). lra.
    + lra.
Qed.

Lemma scale_bounds (s : Q) : (-1 <= s <= 1)%Q -> (-32768 <= scale s <= 32767)%Q.
Proof. intros H. unfold scale. destruct (Qlt_le_dec s 0); lra. Qed.

(** Truncation keeps a number between two integers between them. *)
Lemma truncate_bounds (x : Q) (lo hi : Z) :
  lo <= 0 <= hi -> (inject_Z lo <= x <= inject_Z hi)%Q -> lo <= truncate x <= hi.
Proof.
  intros Hz [Hlo Hhi]. destruct x as [n d]. unfold truncate. simpl.
  unfold Qle, inject_Z in Hlo, Hhi. simpl in Hlo, Hhi.
  destruct (Z.le_gt_cases 0 n) as [Hn|Hn].
  - rewrite Z.quot_div_nonneg by lia. split.
    + transitivity 0; [lia | apply Z.div_pos; lia].
    + apply Z.div_le_upper_bound; lia.
  - replace n with (- (- n)) by lia. rewrite Z.quot_opp_l by lia.
    rewrite Z.quot_div_nonneg by lia. split.
    + assert (- n / Z.pos d <= - lo); [| lia].
      apply Z.div_le_upper_bound; lia.
    + assert (0 <= - n / Z.pos d) by (apply Z.div_pos; lia). lia.
Qed.

Lemma ToInt16_scaled (x : Q) :
  ToInt16 (scale (clamp x)) = truncate (scale (clamp x))
  /\ -32768 <= truncate (scale (clamp x)) <= 32767.
Proof.
  assert (H : -32768 <= truncate (scale (clamp x)) <= 32767).
  { apply truncate_bounds; [lia |].
    apply (scale_bounds _ (clamp_bounds x)). }
  split; [apply wrap16_id |]; exact H.
Qed.

Lemma convertLoop_map (buffer : list Q) :
  forall (n i : nat) (result : list Z),
    (i + n)%nat = length buffer ->
    length result = length buffer ->
    convertLoop n buffer i result
    = take i result ++ ((fun x => truncate (scale (clamp x))) <$> drop i buffer).
Proof.
  induction n as [|n IH]; intros i result Hin Hlen; simpl.
  - rewrite drop_ge by lia. rewrite take_ge by lia.
    simpl. rewrite app_nil_r. reflexivity.
  - destruct (buffer !! i) as [x|] eqn:Hx.
    + fold (clamp x). fold (scale (clamp x)).
      rewrite IH by (rewrite ?length_insert; lia).
      rewrite (drop_S _ _ _ Hx). simpl.
      destruct (ToInt16_scaled x) as [-> _].
      rewrite (take_S_r _ _ (truncate (scale (clamp x)))).
      * rewrite take_insert_ge by lia. rewrite <- app_assoc. reflexivity.
      * apply list_lookup_insert_eq. lia.
    + apply lookup_ge_None in Hx. lia.
Qed.

(** C3, as the code has it.  Every sample is clamped to [-1, 1], scaled by
    32768 if negative and by 32767 if not, and then loses its fractional
    part on the store into the [Int16Array] (truncation toward zero, not
    rounding to the nearest integer); the value stored is within
    [-32768, 32767].  The samples are converted one by one and in order. *)
Theorem convertFloat32ToInt16_truncates (buffer : list Q) :
  convertFloat32ToInt16 buffer
  = (fun x => truncate (scale (clamp x))) <$> buffer
  /\ Forall (fun v => -32768 <= v <= 32767) (convertFloat32ToInt16 buffer).
Proof.
  assert (E : convertFloat32ToInt16 buffer
              = (fun x => truncate (scale (clamp x))) <$> buffer).
  { unfold convertFloat32ToInt16.
    rewrite convertLoop_map by (rewrite ?length_replicate; lia).
    reflexivity. }
  split; [exact E |].
  rewrite E. apply Forall_fmap, Forall_forall. intros x _.
  apply ToInt16_scaled.
Qed.

(** C3, as the spec has it, fails on the one-sample buffer [0.25]: the
    scaled value is 8191.75, the code stores 8191, and 8191 is not an integer
    nearest to 8191.75. *)
Lemma convertFloat32ToInt16_not_nearest :
  convertFloat32ToInt16 [1 # 4] = [8191]
  /\ ~ Forall2 (fun x v => nearest (scale (clamp x)) v)
         [1 # 4] (convertFloat32ToInt16 [1 # 4]).
Proof.
  split; [reflexivity |].
  intros H. apply Forall2_cons_1 in H as [H _].
  vm_compute in H. apply H. reflexivity.
Qed.

(** ** Claims about [encodeWAV] *)

(** A write that fits in a prefix of the buffer leaves the rest alone. *)
Lemma fits_app (h t : list Z) (offset size : Z) :
  fits h offset size = true -> fits (h ++ t) offset size = true.
Proof.
  unfold fits, len. rewrite length_app. intros H.
  apply andb_true_iff in H as [H0 H1].
  apply andb_true_iff. split; [exact H0 |].
  apply Z.leb_le in H1. apply Z.leb_le. lia.
Qed.

Lemma fits_inside (h : list Z) (offset size k : Z) :
  fits h offset size = true -> 0 <= k < size ->
  (Z.to_nat (offset + k) < length h)%nat.
Proof.
  unfold fits, len. intros H Hk.
  apply andb_true_iff in H as [H0 H1].
  apply Z.leb_le in H0. apply Z.leb_le in H1. lia.
Qed.

Lemma setUint8_app (h h' t : list Z) (offset v : Z) :
  setUint8 h offset v = Ok h' -> setUint8 (h ++ t) offset v = Ok (h' ++ t).
Proof.
  unfold setUint8. destruct (fits h offset 1) eqn:F; [| discriminate].
  intros [= <-]. rewrite (fits_app _ _ _ _ F).
  pose proof (fits_inside _ _ _ 0 F ltac:(lia)) as H0.
  rewrite Z.add_0_r in H0.
  rewrite insert_app_l by assumption. reflexivity.
Qed.

Lemma setUint16_app (h h' t : list Z) (offset v : Z) :
  setUint16 h offset v = Ok h' -> setUint16 (h ++ t) offset v = Ok (h' ++ t).
Proof.
  unfold setUint16. destruct (fits h offset 2) eqn:F; [| discriminate].
  intros [= <-]. rewrite (fits_app _ _ _ _ F).
  pose proof (fits_inside _ _ _ 0 F ltac:(lia)) as H0.
  pose proof (fits_inside _ _ _ 1 F ltac:(lia)) as H1.
  rewrite Z.add_0_r in H0.
  rewrite !insert_app_l by (rewrite ?length_insert; assumption).
  reflexivity.
Qed.

Lemma setUint32_app (h h' t : list Z) (offset v : Z) :
  setUint32 h offset v = Ok h' -> setUint32 (h ++ t) offset v = Ok (h' ++ t).
Proof.
  unfold setUint32. destruct (fits h offset 4) eqn:F; [| discriminate].
  intros [= <-]. rewrite (fits_app _ _ _ _ F).
  pose proof (fits_inside _ _ _ 0 F ltac:(lia)) as H0.
  pose proof (fits_inside _ _ _ 1 F ltac:(lia)) as H1.
  pose proof (fits_inside _ _ _ 2 F ltac:(lia)) as H2.
  pose proof (fits_inside _ _ _ 3 F ltac:(lia)) as H3.
  rewrite Z.add_0_r in H0.
  rewrite !insert_app_l by (rewrite ?length_insert; assumption).
  reflexivity.
Qed.

Lemma writeString_app (s : string) :
  forall (h h' t : list Z) (offset : Z),
    writeString h offset s = Ok h' ->
    writeString (h ++ t) offset s = Ok (h' ++ t).
Proof.
  induction s as [|c s IH]; intros h h' t offset; simpl.
  - intros [= <-]. reflexivity.
  - destruct (setUint8 h offset (Z.of_nat (Ascii.nat_of_ascii c))) as [h1|e] eqn:E;
      [| discriminate].
    rewrite (setUint8_app _ _ t _ _ E). simpl. apply IH.
Qed.

(** The samples fill the zeros that follow what is already written. *)
Lemma writeSamples_fill (samples : list Z) :
  forall (pre : list Z),
    writeSamples (pre ++ replicate (2 * length samples) 0) (len pre) samples
    = Ok (pre ++ (samples ≫= le16)).
Proof.
  induction samples as [|x samples IH]; intros pre.
  - simpl. reflexivity.
  - replace (2 * length (x :: samples))%nat
      with (S (S (2 * length samples))) by (simpl; lia).
    cbn [writeSamples replicate]. unfold setInt16, setUint16.
    assert (F : fits (pre ++ 0 :: 0 :: replicate (2 * length samples) 0) (len pre) 2
                = true).
    { unfold fits, len. rewrite length_app. simpl.
      apply andb_true_iff. split; apply Z.leb_le; lia. }
    rewrite F. cbn [mbind outcome_bind].
    replace (Z.to_nat (len pre)) with (length pre + 0)%nat by (unfold len; lia).
    replace (Z.to_nat (len pre + 1)) with (length pre + 1)%nat by (unfold len; lia).
    rewrite !insert_app_r.
    change (pre ++ <[1%nat := ToUint16 x / 256]>
                     (<[0%nat := ToUint16 x mod 256]>
                        (0 :: 0 :: replicate (2 * length samples) 0)))
      with (pre ++ le16 x ++ replicate (2 * length samples) 0).
    change ((x :: samples) ≫= le16) with (le16 x ++ (samples ≫= le16)).
    rewrite (app_assoc pre (le16 x)).
    replace (len pre + 2) with (len (pre ++ le16 x))
      by (unfold len; rewrite length_app; simpl; lia).
    rewrite IH. rewrite <- app_assoc. reflexivity.
Qed.

(** The container is the 44-byte header followed by the samples, two bytes
    each, low byte first. *)
Lemma encodeWAV_bytes (samples : list Z) (sampleRate : positive) :
  encodeWAV samples sampleRate
  = Ok (wavHeader (len samples) sampleRate ++ (samples ≫= le16)).
Proof.
  unfold encodeWAV.
  replace (replicate (Z.to_nat (44 + len samples * 2)) 0)
    with (replicate 44 0 ++ replicate (2 * length samples) 0).
  2:{ rewrite <- replicate_add. f_equal. unfold len. lia. }
  erewrite writeString_app by reflexivity. cbn [mbind outcome_bind].
  erewrite setUint32_app by reflexivity. cbn [mbind outcome_bind].
  erewrite writeString_app by reflexivity. cbn [mbind outcome_bind].
  erewrite writeString_app by reflexivity. cbn [mbind outcome_bind].
  erewrite setUint32_app by reflexivity. cbn [mbind outcome_bind].
  erewrite setUint16_app by reflexivity. cbn [mbind outcome_bind].
  erewrite setUint16_app by reflexivity. cbn [mbind outcome_bind].
  erewrite setUint32_app by reflexivity. cbn [mbind outcome_bind].
  erewrite setUint32_app by reflexivity. cbn [mbind outcome_bind].
  erewrite setUint16_app by reflexivity. cbn [mbind outcome_bind].
  erewrite setUint16_app by reflexivity. cbn [mbind outcome_bind].
  erewrite writeString_app by reflexivity. cbn [mbind outcome_bind].
  erewrite setUint32_app by reflexivity. cbn [mbind outcome_bind].
  apply (writeSamples_fill samples (wavHeader (len samples) sampleRate)).
Qed.

(** Four little-endian bytes read back as the 32-bit value they encode. *)
Lemma le32_value (u : Z) :
  u mod 256 + 256 * ((u / 256) mod 256) + 65536 * ((u / 65536) mod 256)
  + 16777216 * (u / 16777216) = u.
Proof.
  assert (E2 : u / 65536 = u / 256 / 256)
    by (rewrite Z.div_div by lia; reflexivity).
  assert (E3 : u / 16777216 = u / 256 / 256 / 256)
    by (rewrite !Z.div_div by lia; reflexivity).
  rewrite E2, E3.
  pose proof (Z.div_mod u 256 ltac:(lia)) as H1.
  pose proof (Z.div_mod (u / 256) 256 ltac:(lia)) as H2.
  pose proof (Z.div_mod (u / 256 / 256) 256 ltac:(lia)) as H3.
  lia.
Qed.

Lemma riffChunkSize_header (n : Z) (sampleRate : positive) (rest : list Z) :
  riffChunkSize (wavHeader n sampleRate ++ rest) = ToUint32 (36 + n * 2).
Proof.
  rewrite <- (le32_value (ToUint32 (36 + n * 2))). reflexivity.
Qed.

Lemma dataChunkSize_header (n : Z) (sampleRate : positive) (rest : list Z) :
  dataChunkSize (wavHeader n sampleRate ++ rest) = ToUint32 (n * 2).
Proof.
  rewrite <- (le32_value (ToUint32 (n * 2))). reflexivity.
Qed.

Lemma length_bind_le16 (samples : list Z) :
  length (samples ≫= le16) = (2 * length samples)%nat.
Proof.
  induction samples as [|x samples IH]; [reflexivity |].
  change ((x :: samples) ≫= le16) with (le16 x ++ (samples ≫= le16)).
  rewrite length_app, IH. simpl. lia.
Qed.

(** What [encodeWAV] returns, whatever the number of samples: the sizes it
    declares are the true ones modulo 2^32. *)
Lemma encodeWAV_fields (samples : list Z) (sampleRate : positive) :
  exists blob,
    encodeWAV samples sampleRate = Ok blob
    /\ len blob = 44 + 2 * len samples
    /\ riffChunkSize blob = (36 + 2 * len samples) mod 4294967296
    /\ dataChunkSize blob = (2 * len samples) mod 4294967296.
Proof.
  eexists. split; [apply encodeWAV_bytes |]. split; [| split].
  - unfold len. rewrite length_app, length_bind_le16.
    change (length (wavHeader (Z.of_nat (length samples)) sampleRate)) with 44%nat.
    lia.
  - rewrite riffChunkSize_header. unfold ToUint32. f_equal. lia.
  - rewrite dataChunkSize_header. unfold ToUint32. f_equal. lia.
Qed.

(** C8, as the code has it.  For every number n of samples with
    36 + 2n < 2^32 and every sample rate, [encodeWAV] returns 44 + 2n bytes;
    the RIFF chunk size it declares is 36 + 2n and the data size it declares
    is 2n, the size of the payload that follows the header; the bytes are
    the header for (n, rate) followed by the samples, low byte first. *)
Theorem encodeWAV_sizes (samples : list Z) (sampleRate : positive) :
  36 + 2 * len samples < 4294967296 ->
  exists blob,
    encodeWAV samples sampleRate = Ok blob
    /\ blob = wavHeader (len samples) sampleRate ++ (samples ≫= le16)
    /\ len blob = 44 + 2 * len samples
    /\ riffChunkSize blob = 36 + 2 * len samples
    /\ dataChunkSize blob = 2 * len samples
    /\ len (drop 44 blob) = 2 * len samples.
Proof.
  intros Hsmall. pose proof (len_nonneg samples) as H0.
  destruct (encodeWAV_fields samples sampleRate) as (blob & E & Hl & Hr & Hd).
  exists blob. split; [exact E |].
  split; [rewrite encodeWAV_bytes in E; congruence |].
  split; [exact Hl |].
  split; [rewrite Hr; apply Z.mod_small; lia |].
  split; [rewrite Hd; apply Z.mod_small; lia |].
  unfold len in *. rewrite length_drop. lia.
Qed.

Lemma encodeWAV_sizes_witness :
  36 + 2 * len [1; -2; 300] < 4294967296
  /\ exists blob,
       encodeWAV [1; -2; 300] 24000 = Ok blob
       /\ blob = wavHeader (len [1; -2; 300]) 24000 ++ ([1; -2; 300] ≫= le16)
       /\ len blob = 44 + 2 * len [1; -2; 300]
       /\ riffChunkSize blob = 36 + 2 * len [1; -2; 300]
       /\ dataChunkSize blob = 2 * len [1; -2; 300]
       /\ len (drop 44 blob) = 2 * len [1; -2; 300].
Proof.
  split; [reflexivity |].
  apply (encodeWAV_sizes [1; -2; 300] 24000). reflexivity.
Defined.

(** C8, as the spec has it, fails on 2147483630 samples: 36 + 2n is then
    2^32, which the four bytes of the RIFF size field cannot hold; the field
    reads 0. *)
Lemma encodeWAV_riff_size_wraps :
  ~ exists blob,
      encodeWAV (replicate (Z.to_nat 2147483630) 0) 24000 = Ok blob
      /\ riffChunkSize blob = 36 + 2 * len (replicate (Z.to_nat 2147483630) 0).
Proof.
  intros (blob & E & Hr).
  destruct (encodeWAV_fields (replicate (Z.to_nat 2147483630) 0) 24000)
    as (blob' & E' & _ & Hr' & _).
  rewrite E in E'. injection E' as <-.
  rewrite Hr in Hr'. revert Hr'.
  unfold len. rewrite length_replicate. rewrite Z2Nat.id by lia.
  change (36 + 2 * 2147483630) with 4294967296.
  rewrite Z.mod_same by lia. lia.
Qed.

(** * Properties of the voice session controller *)

(** ** Inbound audio and [stopVoiceRecording] *)

(** C1.  A binary frame arrives while the session is on and [ws.onmessage]
    suspends at [await event.data.arrayBuffer()]; [stopVoiceRecording] runs;
    the promise settles.  The callback then goes on without looking at any
    flag, and the clip is played although recording is off and the socket is
    closing. *)
Theorem playback_after_stop :
  let s := run initial [CallStart false; SocketOpened 0;
                        SocketMessage 0 (blob [1; 2]); CallStop] in
  recording s = false
  /\ socketState 0 s = Some CLOSING
  /\ played s = []
  /\ exists wavBlob,
       encodeWAV [1; 2] 24000 = Ok wavBlob
       /\ played (step s (ArrayBufferSettled 1)) = [wavBlob].
Proof.
  cbv zeta. repeat split; try reflexivity.
  eexists. split; vm_compute; reflexivity.
Qed.

(** ** Outbound audio and the state of the socket *)

(** The callback of the processor node changes nothing unless the current
    socket is OPEN. *)
Lemma workletNode_port_onmessage_closed
    (s : state) (n : nat) (floatSamples : list Q) :
  currentSocketState s <> Some OPEN ->
  workletNode_port_onmessage n floatSamples s = s.
Proof.
  intros Hstate. unfold workletNode_port_onmessage.
  destruct (nodes s !! n) as [node|]; [| reflexivity].
  destruct (negb (closure_recording node)); [reflexivity |].
  destruct (contexts s !! closure_audioContext node) as [ctx|]; [| reflexivity].
  destruct (snd (downsampleBuffer _ _ _)) as [data|]; [| reflexivity].
  unfold currentSocketState, socketState in Hstate.
  destruct (wsRef s) as [w|]; [| reflexivity]. simpl in Hstate.
  destruct (sockets s !! w) as [ws|]; [| reflexivity]. simpl in Hstate.
  destruct (readyState ws); try reflexivity. congruence.
Qed.



(** The callback on a node that holds [recording = true], in a state that
    has such a node, once the socket is OPEN: the frame is sent. *)
Example audio_frame_sent_when_open :
  let s :=
    set_nodes [{| attached := true; closure_recording := true;
                  closure_audioContext := 0 |}]
      (run initial (start_events 0 48000 ++ [SocketOpened 0])) in
  sent <$> sockets (step s (WorkletMessage 0 [1 # 4; 1 # 4; 1 # 4]))
  = [[setupMessage; realtimeInput [32767]]].
Proof. vm_compute. reflexivity. Qed.

(** ** The order of release in [stopVoiceRecording] *)

Lemma stopVoiceRecording_calls (s : state) :
  calls (stopVoiceRecording s) = calls s ++ released s.
Proof.
  unfold stopVoiceRecording, released.
  destruct s as [rec thk ws ms ac [n|] socks strs ctxs nds tks pl cl th unc];
    destruct ac as [c|], ms as [m|], ws as [w|]; cbn;
    rewrite <- ?app_assoc, ?app_nil_r; reflexivity.
Qed.

(** The state that [stopVoiceRecording] leaves, field by field. *)
Lemma stopVoiceRecording_state (s : state) :
  stopVoiceRecording s
  = {| recording := false;
       isThinking := true;
       wsRef := wsRef s;
       mediaStreamRef := mediaStreamRef s;
       audioContextRef := audioContextRef s;
       workletNodeRef := None;
       sockets := alter_at close (wsRef s) (sockets s);
       streams := alter_at stopTracks (mediaStreamRef s) (streams s);
       contexts := alter_at closeContext (audioContextRef s) (contexts s);
       nodes := alter_at disconnect (workletNodeRef s) (nodes s);
       tasks := tasks s;
       played := played s;
       calls := calls s ++ released s;
       thrown := thrown s;
       uncaught := uncaught s |}.
Proof.
  unfold stopVoiceRecording, released, WebSocket_close, MediaStream_stopTracks,
    AudioContext_close, AudioNode_disconnect.
  destruct s as [rec thk ws ms ac [n|] socks strs ctxs nds tks pl cl th unc];
    destruct ac as [c|], ms as [m|], ws as [w|]; cbn;
    rewrite <- ?app_assoc, ?app_nil_r; reflexivity.
Qed.

Lemma alter_at_idemp {A : Type} (f : A -> A) (r : option nat) (l : list A) :
  (forall x, f (f x) = f x) ->
  alter_at f r (alter_at f r l) = alter_at f r l.
Proof.
  intros Hf. destruct r as [i|]; [| reflexivity]. simpl.
  rewrite list_alter_alter_eq. apply list_alter_ext; [| reflexivity].
  intros x _. apply Hf.
Qed.

Lemma close_idemp (ws : WebSocket) : close (close ws) = close ws.
Proof. destruct ws as [[] ?]; reflexivity. Qed.

(** C5, as the code has it.  [stopVoiceRecording] makes its release calls in
    the order: disconnect the processor node, close the audio context, stop
    the media tracks, close the socket; a call whose ref is null is left
    out.  On the initial state, before any start, it releases nothing: it
    only sets the two flags, [recording] to false and [isThinking] to true.
    A second stop in a row leaves every flag, every object and every ref as
    the first one left them: the node ref is null by then, and the context,
    the tracks and the socket, whose refs are kept, are closed again to no
    effect.  No call of it makes a browser method throw. *)
Theorem stopVoiceRecording_order (s : state) :
  calls (stopVoiceRecording s)
  = calls s
    ++ option_list (node_disconnect <$> workletNodeRef s)
    ++ option_list (audioContext_close <$> audioContextRef s)
    ++ option_list (tracks_stop <$> mediaStreamRef s)
    ++ option_list (ws_close <$> wsRef s)
  /\ stopVoiceRecording initial = set_isThinking true initial
  /\ forget_calls (stopVoiceRecording (stopVoiceRecording s))
     = forget_calls (stopVoiceRecording s)
  /\ released (stopVoiceRecording s)
     = option_list (audioContext_close <$> audioContextRef s)
       ++ option_list (tracks_stop <$> mediaStreamRef s)
       ++ option_list (ws_close <$> wsRef s)
  /\ thrown (stopVoiceRecording s) = thrown s
  /\ uncaught (stopVoiceRecording s) = uncaught s.
Proof.
  split; [apply stopVoiceRecording_calls |].
  split; [reflexivity |].
  split; [| repeat split; rewrite (stopVoiceRecording_state s); reflexivity].
  rewrite (stopVoiceRecording_state (stopVoiceRecording s)).
  rewrite (stopVoiceRecording_state s). cbn.
  unfold forget_calls, set_calls. cbn.
  rewrite !alter_at_idemp; [reflexivity | | |].
  - intros []; reflexivity.
  - intros []; reflexivity.
  - apply close_idemp.
Qed.

(** C5, as the spec has it, fails after a start: the audio context is closed
    before the media tracks are stopped, not after.  (No processor node is
    there to disconnect: the start has ended before it created one.) *)
Lemma context_closed_before_tracks :
  calls (run initial (start_events 0 48000 ++ [CallStop]))
  = [audioContext_close 0; tracks_stop 0; ws_close 0]
  /\ calls (run initial (start_events 0 48000 ++ [CallStop]))
     <> [tracks_stop 0; audioContext_close 0; ws_close 0].
Proof. split; [reflexivity | discriminate]. Qed.

(** ** Two starts in a row *)

Lemma lookup_snoc_length {A : Type} (l : list A) (x : A) :
  (l ++ [x]) !! length l = Some x.
Proof. apply list_lookup_middle. reflexivity. Qed.

Lemma insert_snoc_length {A : Type} (l : list A) (x y : A) :
  <[length l := y]> (l ++ [x]) = l ++ [y].
Proof.
  rewrite insert_app_r_alt by lia. rewrite Nat.sub_diag. reflexivity.
Qed.

Lemma alter_snoc_length {A : Type} (f : A -> A) (l : list A) (x : A) :
  alter f (length l) (l ++ [x]) = l ++ [f x].
Proof.
  rewrite alter_app_r_alt by lia. rewrite Nat.sub_diag. reflexivity.
Qed.

(** The state that a call of [startVoiceRecording] leaves when it gets its
    socket and its microphone, field by field: a new socket, a new stream
    and a new context, the refs on them, no node, and the exception that
    ended the call. *)
Lemma startVoiceRecording_state (s : state) (rate : positive) :
  run s (start_events (length (tasks s)) rate)
  = {| recording := true;
       isThinking := false;
       wsRef := Some (length (sockets s));
       mediaStreamRef := Some (length (streams s));
       audioContextRef := Some (length (contexts s));
       workletNodeRef := workletNodeRef s;
       sockets := sockets s ++ [{| readyState := CONNECTING; sent := [] |}];
       streams := streams s ++ [{| live := true |}];
       contexts := contexts s ++ [{| ctxState := running; sampleRate := rate |}];
       nodes := nodes s;
       tasks := tasks s ++ [None];
       played := played s;
       calls := calls s;
       thrown := thrown s;
       uncaught := uncaught s ++ [ReferenceError] |}.
Proof.
  destruct s as [rec thk ws ms ac wn socks strs ctxs nds tks pl cl th unc].
  unfold run, start_events. cbn [foldl step].
  unfold startVoiceRecording. cbn.
  unfold startVoiceRecording_gotUserMedia. cbn.
  rewrite lookup_snoc_length. cbn.
  rewrite insert_snoc_length. reflexivity.
Qed.

Section Counting.
Context {A : Type} (P : A -> Prop) `{!forall x, Decision (P x)}.

Lemma count_snoc_True (l : list A) (x : A) :
  P x -> length (filter P (l ++ [x])) = S (length (filter P l)).
Proof.
  intros Hx. rewrite filter_app, length_app.
  rewrite (filter_cons_True P x []) by exact Hx. simpl. lia.
Qed.

Lemma count_snoc_False (l : list A) (x : A) :
  ~ P x -> length (filter P (l ++ [x])) = length (filter P l).
Proof.
  intros Hx. rewrite filter_app, length_app.
  rewrite (filter_cons_False P x []) by exact Hx. simpl. lia.
Qed.
End Counting.




(** ** Outbound audio after [stopVoiceRecording] *)

Lemma released_after_stop (s : state) : currentReleased (stopVoiceRecording s).
Proof.
  rewrite stopVoiceRecording_state.
  unfold currentReleased, currentSocketState, socketState. cbn.
  destruct (wsRef s) as [w|]; cbn; [| split; discriminate].
  rewrite list_lookup_alter_eq.
  destruct (sockets s !! w) as [[[] ?]|]; cbn; split; discriminate.
Qed.

(** The steps that touch neither the sockets nor [wsRef]. *)
Lemma currentSocketState_gotUserMedia (t : nat) (granted : bool)
    (rate : positive) (s : state) :
  currentSocketState (startVoiceRecording_gotUserMedia t granted rate s)
  = currentSocketState s.
Proof.
  unfold startVoiceRecording_gotUserMedia.
  repeat case_match; reflexivity.
Qed.

Lemma currentSocketState_addedModule (t : nat) (loaded : bool) (s : state) :
  currentSocketState (startVoiceRecording_addedModule t loaded s)
  = currentSocketState s.
Proof.
  unfold startVoiceRecording_addedModule.
  repeat case_match; reflexivity.
Qed.

Lemma currentSocketState_gotArrayBuffer (t : nat) (s : state) :
  currentSocketState (ws_onmessage_gotArrayBuffer t s) = currentSocketState s.
Proof.
  unfold ws_onmessage_gotArrayBuffer.
  repeat case_match; reflexivity.
Qed.

Lemma currentSocketState_onmessage (data : messageData) (s : state) :
  currentSocketState (ws_onmessage data s) = currentSocketState s.
Proof. destruct data as [[]|]; reflexivity. Qed.

(** Once released, the current socket stays released until the next start. *)
Lemma released_preserved (s : state) (e : event) :
  isStart e = false -> currentReleased s -> currentReleased (step s e).
Proof.
  intros He Hs. destruct e as [b| |t g r|t l|t|w|w d|w|w|n x]; cbn [step].
  - discriminate.
  - apply released_after_stop.
  - unfold currentReleased. rewrite currentSocketState_gotUserMedia. exact Hs.
  - unfold currentReleased. rewrite currentSocketState_addedModule. exact Hs.
  - unfold currentReleased. rewrite currentSocketState_gotArrayBuffer. exact Hs.
  - destruct (sockets s !! w) as [ws|] eqn:Ew; [| exact Hs].
    destruct (readyState ws) eqn:Er; try exact Hs.
    unfold ws_onopen, WebSocket_send. cbn.
    rewrite list_lookup_insert_eq by (eapply lookup_lt_Some; eassumption). cbn.
    revert Hs. unfold currentReleased, currentSocketState, socketState. cbn.
    destruct (wsRef s) as [w'|]; cbn; [| tauto].
    destruct (decide (w = w')) as [<-|Hne].
    + rewrite Ew. cbn. rewrite Er. intros [H _]. congruence.
    + rewrite !list_lookup_insert_ne by exact Hne. tauto.
  - unfold currentReleased. destruct (socketState w s) as [[]|]; try exact Hs.
    rewrite currentSocketState_onmessage. exact Hs.
  - exact Hs.
  - revert Hs. unfold currentReleased, currentSocketState, socketState. cbn.
    destruct (wsRef s) as [w'|]; cbn; [| tauto].
    destruct (decide (w = w')) as [<-|Hne].
    + rewrite list_lookup_alter_eq.
      destruct (sockets s !! w); cbn; intros _; split; discriminate.
    + rewrite list_lookup_alter_ne by exact Hne. tauto.
  - rewrite workletNode_port_onmessage_closed; [exact Hs | apply Hs].
Qed.

(** The outbound half of C1 holds.  After [stopVoiceRecording], and until
    [startVoiceRecording] is called again, every audio frame that the capture
    graph still delivers finds the current socket released and changes
    nothing: it is not sent.  It is the state of the socket that stops it;
    the [recording] constant in the callback is the one of the render that
    started the session. *)
Lemma outbound_dropped_after_stop
    (s : state) (es : list event) (n : nat) (floatSamples : list Q) :
  Forall (fun e => isStart e = false) es ->
  step (run (stopVoiceRecording s) es) (WorkletMessage n floatSamples)
  = run (stopVoiceRecording s) es.
Proof.
  intros Hes.
  assert (H : currentReleased (run (stopVoiceRecording s) es)).
  { pose proof (released_after_stop s) as H0.
    revert H0. generalize (stopVoiceRecording s). clear s.
    induction Hes as [|e es He _ IH]; intros s Hs; [exact Hs |].
    unfold run. cbn [foldl]. apply IH. apply released_preserved; assumption. }
  apply workletNode_port_onmessage_closed. apply H.
Qed.


(** * Further properties of the sample converter *)

(** ** Quantisation *)

Lemma convertFloat32ToInt16_fmap (buffer : list Q) :
  convertFloat32ToInt16 buffer = (fun x => truncate (scale (clamp x))) <$> buffer.
Proof.
  unfold convertFloat32ToInt16.
  rewrite convertLoop_map by (rewrite ?length_replicate; lia).
  reflexivity.
Qed.

(** Truncation is the floor of what is not negative and the ceiling of what
    is not positive. *)
Lemma truncate_floor (x : Q) : (0 <= x)%Q -> truncate x = Qfloor x.
Proof.
  destruct x as [n d]. unfold Qle, truncate, Qfloor. simpl. intros H.
  apply Z.quot_div_nonneg; lia.
Qed.

Lemma truncate_ceiling (x : Q) : (x <= 0)%Q -> truncate x = Qceiling x.
Proof.
  destruct x as [n d]. unfold Qle, truncate, Qceiling, Qfloor, Qopp. simpl.
  intros H.
  replace n with (- (- n)) at 1 by lia.
  rewrite Z.quot_opp_l by lia. rewrite Z.quot_div_nonneg by lia. reflexivity.
Qed.

Lemma truncate_monotone (x y : Q) : (x <= y)%Q -> truncate x <= truncate y.
Proof.
  intros Hxy.
  destruct (Qlt_le_dec x 0) as [Hx|Hx]; destruct (Qlt_le_dec y 0) as [Hy|Hy].
  - rewrite !truncate_ceiling by lra. apply Qceiling_resp_le, Hxy.
  - rewrite truncate_ceiling, truncate_floor by lra.
    transitivity 0.
    + rewrite <- (Qceiling_Z 0). apply Qceiling_resp_le.
      change (inject_Z 0) with 0%Q. lra.
    + rewrite <- (Qfloor_Z 0). apply Qfloor_resp_le.
      change (inject_Z 0) with 0%Q. lra.
  - lra.
  - rewrite !truncate_floor by lra. apply Qfloor_resp_le, Hxy.
Qed.

Lemma truncate_Qeq (x y : Q) : (x == y)%Q -> truncate x = truncate y.
Proof.
  intros E. apply Z.le_antisymm; apply truncate_monotone; rewrite E; lra.
Qed.

Lemma Math_min_spec (a b : Q) :
  ((a <= b)%Q /\ Math_min a b = a) \/ ((b < a)%Q /\ Math_min a b = b).
Proof.
  unfold Math_min. destruct (Qle_bool a b) eqn:E.
  - left. split; [apply Qle_bool_iff, E | reflexivity].
  - right. split; [| reflexivity].
    apply Qnot_le_lt. rewrite <- Qle_bool_iff. congruence.
Qed.

Lemma Math_max_spec (a b : Q) :
  ((a <= b)%Q /\ Math_max a b = b) \/ ((b < a)%Q /\ Math_max a b = a).
Proof.
  unfold Math_max. destruct (Qle_bool a b) eqn:E.
  - left. split; [apply Qle_bool_iff, E | reflexivity].
  - right. split; [| reflexivity].
    apply Qnot_le_lt. rewrite <- Qle_bool_iff. congruence.
Qed.

Lemma clamp_monotone (x y : Q) : (x <= y)%Q -> (clamp x <= clamp y)%Q.
Proof.
  intros Hxy. unfold clamp.
  destruct (Math_min_spec 1 x) as [[? ->]|[? ->]];
    destruct (Math_min_spec 1 y) as [[? ->]|[? ->]];
    match goal with
    | |- (Math_max ?a ?b <= Math_max ?c ?d)%Q =>
        let Ea := fresh "Ea" in
        let Ec := fresh "Ec" in
        destruct (Math_max_spec a b) as [[? Ea]|[? Ea]];
        destruct (Math_max_spec c d) as [[? Ec]|[? Ec]];
        rewrite ?Ea, ?Ec
    end; lra.
Qed.

Lemma scale_monotone (s s' : Q) : (s <= s')%Q -> (scale s <= scale s')%Q.
Proof.
  intros H. unfold scale.
  destruct (Qlt_le_dec s 0); destruct (Qlt_le_dec s' 0); lra.
Qed.

(** X1.  Quantisation keeps the order of samples: of two samples of a
    buffer, the larger one never gets the smaller 16-bit value. *)
Theorem convertFloat32ToInt16_monotone
    (buffer : list Q) (i j : nat) (x y : Q) (vx vy : Z) :
  buffer !! i = Some x -> buffer !! j = Some y -> (x <= y)%Q ->
  convertFloat32ToInt16 buffer !! i = Some vx ->
  convertFloat32ToInt16 buffer !! j = Some vy ->
  vx <= vy.
Proof.
  intros Hi Hj Hxy. rewrite convertFloat32ToInt16_fmap, !list_lookup_fmap, Hi, Hj.
  intros [= <-] [= <-].
  apply truncate_monotone, scale_monotone, clamp_monotone, Hxy.
Qed.

Lemma convertFloat32ToInt16_monotone_witness :
  [-3 # 4; 1 # 3] !! 0%nat = Some (-3 # 4)
  /\ [-3 # 4; 1 # 3] !! 1%nat = Some (1 # 3)
  /\ (-3 # 4 <= 1 # 3)%Q
  /\ convertFloat32ToInt16 [-3 # 4; 1 # 3] !! 0%nat = Some (-24576)
  /\ convertFloat32ToInt16 [-3 # 4; 1 # 3] !! 1%nat = Some 10922
  /\ -24576 <= 10922.
Proof.
  repeat (split; [reflexivity || discriminate |]).
  apply (convertFloat32ToInt16_monotone [-3 # 4; 1 # 3] 0 1 (-3 # 4) (1 # 3));
    reflexivity || discriminate.
Defined.

(** X2.  Samples at or beyond full scale saturate: a sample of 1 or more
    becomes 32767, a sample of -1 or less becomes -32768, and silence (0)
    stays 0. *)
Theorem convertFloat32ToInt16_saturates (buffer : list Q) (i : nat) (x : Q) :
  buffer !! i = Some x ->
  ((1 <= x)%Q -> convertFloat32ToInt16 buffer !! i = Some 32767)
  /\ ((x <= -1)%Q -> convertFloat32ToInt16 buffer !! i = Some (-32768))
  /\ ((x == 0)%Q -> convertFloat32ToInt16 buffer !! i = Some 0).
Proof.
  intros Hi. rewrite convertFloat32ToInt16_fmap, list_lookup_fmap, Hi. cbn.
  pose proof (clamp_bounds x) as Hb.
  split; [| split]; intros Hx; f_equal.
  - assert (E : (clamp x == 1)%Q).
    { unfold clamp.
      destruct (Math_min_spec 1 x) as [[? ->]|[? ->]]; [| lra].
      destruct (Math_max_spec (-1) 1) as [[? ->]|[? ->]]; lra. }
    rewrite (truncate_Qeq _ 32767); [reflexivity |].
    unfold scale. destruct (Qlt_le_dec (clamp x) 0); rewrite E in *; lra.
  - assert (E : (clamp x == -1)%Q).
    { unfold clamp.
      destruct (Math_min_spec 1 x) as [[? ->]|[? ->]]; [lra |].
      destruct (Math_max_spec (-1) x) as [[? ->]|[? ->]]; lra. }
    rewrite (truncate_Qeq _ (-32768)); [reflexivity |].
    unfold scale. destruct (Qlt_le_dec (clamp x) 0); rewrite E in *; lra.
  - assert (E : (clamp x == 0)%Q).
    { unfold clamp.
      destruct (Math_min_spec 1 x) as [[? ->]|[? ->]]; [lra |].
      destruct (Math_max_spec (-1) x) as [[? ->]|[? ->]]; lra. }
    rewrite (truncate_Qeq _ 0); [reflexivity |].
    unfold scale. destruct (Qlt_le_dec (clamp x) 0); rewrite E in *; lra.
Qed.

Lemma convertFloat32ToInt16_saturates_witness :
  [3 # 2; -2 # 1] !! 1%nat = Some (-2 # 1)
  /\ (-2 # 1 <= -1)%Q
  /\ convertFloat32ToInt16 [3 # 2; -2 # 1] !! 1%nat = Some (-32768).
Proof.
  split; [reflexivity |]. split; [discriminate |].
  apply (convertFloat32ToInt16_saturates [3 # 2; -2 # 1] 1 (-2 # 1) eq_refl).
  discriminate.
Defined.

(** ** What downsampling does to the values *)

Lemma wrap16_range (z : Z) : -32768 <= wrap16 z <= 32767.
Proof. unfold wrap16. pose proof (Z.mod_pos_bound (z + 32768) 65536). lia. Qed.

Lemma Number_ToInt16_range (v : Number) : -32768 <= Number_ToInt16 v <= 32767.
Proof. destruct v; cbn; try lia. apply wrap16_range. Qed.

Lemma store_Forall (P : Z -> Prop) (result : list Z) (i v : Number) :
  Forall P result -> P (Number_ToInt16 v) -> Forall P (store result i v).
Proof.
  intros Hr Hv. unfold store. destruct (index i); [| exact Hr].
  apply Forall_insert; assumption.
Qed.

(** Whatever the loop stores satisfies a property that every converted
    value has and that the array had before. *)
Lemma whileLoop_Forall (P : Z -> Prop) (buffer : list Z) (sampleRateRatio : Number) :
  (forall v, P (Number_ToInt16 v)) ->
  forall (fuel : nat) (result : list Z) (offsetResult offsetBuffer : Number)
         (result' : list Z),
    Forall P result ->
    whileLoop fuel buffer sampleRateRatio result offsetResult offsetBuffer
    = Ok result' ->
    Forall P result'.
Proof.
  intros HP. induction fuel as [|fuel IH];
    intros result offsetResult offsetBuffer result' Hres; cbn [whileLoop];
    [discriminate |].
  destruct (Number_ltb offsetResult (length_of result)); [| intros [= <-]; exact Hres].
  destruct (forLoop _ _ _ _ _ _) as [[accum count]|]; [| discriminate].
  cbn [mbind outcome_bind].
  apply IH. apply store_Forall; [exact Hres | apply HP].
Qed.

(** X3.  When it downsamples, [downsampleBuffer] returns 16-bit values only,
    whatever numbers the input holds: every array it returns holds 16-bit
    values only, and it does return one for every input array (an array has
    fewer than 2^53 elements). *)
Theorem downsampleBuffer_in_range
    (buffer : list Z) (sampleRate outSampleRate : positive) :
  (outSampleRate < sampleRate)%positive ->
  (forall result,
     snd (downsampleBuffer buffer sampleRate outSampleRate) = Ok result ->
     Forall (fun v => -32768 <= v <= 32767) result)
  /\ (len buffer < 2 ^ 53 ->
      exists result,
        snd (downsampleBuffer buffer sampleRate outSampleRate) = Ok result
        /\ Forall (fun v => -32768 <= v <= 32767) result).
Proof.
  intros Hdown.
  assert (Hrange : forall result,
             snd (downsampleBuffer buffer sampleRate outSampleRate) = Ok result ->
             Forall (fun v => -32768 <= v <= 32767) result).
  { intros result. unfold downsampleBuffer.
    destruct (Pos.eqb_spec outSampleRate sampleRate) as [?|_]; [lia |].
    destruct (Pos.ltb_spec sampleRate outSampleRate) as [?|_]; [lia |].
    unfold new_Int16Array. destruct (ToIndex _); [| discriminate].
    cbn [mbind outcome_bind snd]. intros Hloop.
    eapply whileLoop_Forall; [| | exact Hloop].
    - apply Number_ToInt16_range.
    - apply Forall_replicate. lia. }
  split; [exact Hrange |].
  intros Harray.
  destruct (downsampleBuffer_runs buffer sampleRate outSampleRate Hdown Harray)
    as (result & Hrun & _).
  exists result. split; [rewrite Hrun; reflexivity |].
  apply Hrange. rewrite Hrun. reflexivity.
Qed.

Lemma downsampleBuffer_in_range_witness :
  (16000 < 48000)%positive
  /\ len [100000; -7; 0; 12; -99999; 3] < 2 ^ 53
  /\ exists result,
       snd (downsampleBuffer [100000; -7; 0; 12; -99999; 3] 48000 16000) = Ok result
       /\ Forall (fun v => -32768 <= v <= 32767) result.
Proof.
  split; [reflexivity |]. split; [reflexivity |].
  apply (downsampleBuffer_in_range [100000; -7; 0; 12; -99999; 3] 48000 16000);
    reflexivity.
Defined.

(** *** Loud input *)

Lemma Number_le_trans_1 (x : Number) (a b : Q) :
  (a <= b)%Q -> Number_le (Finite b) x -> Number_le (Finite a) x.
Proof. intros H. destruct x; cbn; try tauto. intros. lra. Qed.




Lemma stored_empty : stored (Finite 0) (Finite (inject_Z 0)) = 0.
Proof. reflexivity. Qed.

Section Loud.
Variables (buffer : list Z) (sampleRateRatio : Number).
Hypothesis array : len buffer < 2 ^ 53.
Hypothesis ratio : nonnegative sampleRateRatio.
Hypothesis positive_samples : Forall (fun x => 1 <= x) buffer.


End Loud.



(** * Further properties of the container *)

Lemma le16_int16s (lo hi : Z) :
  isByte lo -> isByte hi -> le16 (wrap16 (lo + 256 * hi)) = [lo; hi].
Proof.
  unfold isByte, le16, ToUint16, wrap16. intros Hlo Hhi.
  assert (E : ((lo + 256 * hi + 32768) mod 65536 - 32768) mod 65536
              = lo + 256 * hi).
  { rewrite Zminus_mod_idemp_l.
    replace (lo + 256 * hi + 32768 - 32768) with (lo + 256 * hi) by lia.
    apply Z.mod_small. lia. }
  cbv zeta. rewrite E. f_equal; [| f_equal].
  - symmetry. apply (Z.mod_unique _ _ hi); lia.
  - symmetry. apply (Z.div_unique _ _ _ lo); lia.
Qed.

Lemma int16s_le16 (v : Z) (rest : list Z) :
  isInt16 v -> int16s (le16 v ++ rest) = v :: int16s rest.
Proof.
  unfold isInt16. intros Hv. unfold le16. cbn [app int16s]. f_equal.
  unfold ToUint16.
  replace (v mod 65536 mod 256 + 256 * (v mod 65536 / 256)) with (v mod 65536)
    by (pose proof (Z.div_mod (v mod 65536) 256 ltac:(lia)); lia).
  unfold wrap16. rewrite Zplus_mod_idemp_l. rewrite Z.mod_small; lia.
Qed.

(** Samples to bytes and back. *)
Lemma int16s_bytes (samples : list Z) :
  Forall isInt16 samples -> int16s (samples ≫= le16) = samples.
Proof.
  induction 1 as [|v samples Hv _ IH]; [reflexivity |].
  change ((v :: samples) ≫= le16) with (le16 v ++ (samples ≫= le16)).
  rewrite int16s_le16 by exact Hv. rewrite IH. reflexivity.
Qed.

(** Bytes to samples and back, for an even number of bytes. *)
Lemma bytes_int16s (n : nat) :
  forall bytes : list Z,
    length bytes = (2 * n)%nat -> Forall isByte bytes ->
    int16s bytes ≫= le16 = bytes.
Proof.
  induction n as [|n IH]; intros bytes Hlen Hbytes.
  - destruct bytes; [reflexivity | discriminate].
  - destruct bytes as [|lo [|hi rest]]; try (simpl in Hlen; lia).
    apply Forall_cons in Hbytes as [Hlo Hbytes].
    apply Forall_cons in Hbytes as [Hhi Hbytes].
    cbn [int16s].
    change ((wrap16 (lo + 256 * hi) :: int16s rest) ≫= le16)
      with (le16 (wrap16 (lo + 256 * hi)) ++ (int16s rest ≫= le16)).
    rewrite le16_int16s by assumption.
    rewrite IH; [reflexivity | simpl in Hlen; lia | exact Hbytes].
Qed.

Lemma length_int16s (n : nat) :
  forall bytes : list Z, length bytes = (2 * n)%nat -> length (int16s bytes) = n.
Proof.
  induction n as [|n IH]; intros bytes Hlen.
  - destruct bytes; [reflexivity | discriminate].
  - destruct bytes as [|lo [|hi rest]]; try (simpl in Hlen; lia).
    cbn [int16s length]. f_equal. apply IH. simpl in Hlen. lia.
Qed.

(** X5.  The container keeps the samples: what follows the 44 bytes of the
    header, read back as 16-bit samples, is the input, for every array of
    16-bit samples and every rate. *)
Theorem encodeWAV_payload_round_trip (samples : list Z) (sampleRate : positive) :
  Forall isInt16 samples ->
  exists blob,
    encodeWAV samples sampleRate = Ok blob
    /\ Int16Array_of_buffer (drop 44 blob) = Ok samples.
Proof.
  intros Hs. eexists. split; [apply encodeWAV_bytes |].
  rewrite drop_app_length' by reflexivity.
  unfold Int16Array_of_buffer, len. rewrite length_bind_le16.
  replace (Z.of_nat (2 * length samples) mod 2) with 0
    by (rewrite Nat2Z.inj_mul, Z.mul_comm, Z.mod_mul; lia).
  cbn [Z.eqb]. rewrite int16s_bytes by exact Hs. reflexivity.
Qed.

Lemma encodeWAV_payload_round_trip_witness :
  Forall isInt16 [1; -2; 32767; -32768]
  /\ exists blob,
       encodeWAV [1; -2; 32767; -32768] 24000 = Ok blob
       /\ Int16Array_of_buffer (drop 44 blob) = Ok [1; -2; 32767; -32768].
Proof.
  assert (H : Forall isInt16 [1; -2; 32767; -32768])
    by (repeat constructor; discriminate).
  split; [exact H |].
  apply (encodeWAV_payload_round_trip [1; -2; 32767; -32768] 24000 H).
Defined.

(** X6.  An inbound binary frame of an even number of bytes is played as
    it came: the container handed to the player is the 44-byte header for
    half as many samples at 24000 Hz followed by the very bytes received.  A
    frame of an odd number of bytes makes [new Int16Array] throw, and
    nothing is encoded. *)
Theorem wavOfArrayBuffer_keeps_bytes (arrayBuffer : list Z) :
  Forall isByte arrayBuffer ->
  (len arrayBuffer mod 2 = 0 ->
   wavOfArrayBuffer arrayBuffer
   = Ok (wavHeader (len arrayBuffer / 2) 24000 ++ arrayBuffer))
  /\ (len arrayBuffer mod 2 <> 0 ->
      wavOfArrayBuffer arrayBuffer = Error RangeError).
Proof.
  intros Hb. unfold wavOfArrayBuffer, Int16Array_of_buffer. split; intros Hlen.
  - rewrite Hlen. cbn [Z.eqb mbind outcome_bind].
    assert (Hn : length arrayBuffer = (2 * Z.to_nat (len arrayBuffer / 2))%nat).
    { unfold len in *.
      pose proof (Z.div_mod (Z.of_nat (length arrayBuffer)) 2 ltac:(lia)). lia. }
    rewrite encodeWAV_bytes. unfold len at 1.
    rewrite (length_int16s _ _ Hn), (bytes_int16s _ _ Hn Hb).
    rewrite Z2Nat.id by (apply Z.div_pos; [apply len_nonneg | lia]).
    reflexivity.
  - destruct (Z.eqb_spec (len arrayBuffer mod 2) 0) as [?|_]; [contradiction |].
    reflexivity.
Qed.

Lemma wavOfArrayBuffer_keeps_bytes_witness :
  Forall isByte [1; 0; 254; 255]
  /\ len [1; 0; 254; 255] mod 2 = 0
  /\ wavOfArrayBuffer [1; 0; 254; 255]
     = Ok (wavHeader (len [1; 0; 254; 255] / 2) 24000 ++ [1; 0; 254; 255]).
Proof.
  assert (H : Forall isByte [1; 0; 254; 255])
    by (repeat constructor; discriminate).
  split; [exact H |]. split; [reflexivity |].
  apply (wavOfArrayBuffer_keeps_bytes [1; 0; 254; 255] H). reflexivity.
Defined.

(** X7.  The header that [encodeWAV] writes describes the payload: the four
    tags are RIFF, WAVE, "fmt " and data; the format chunk is 16 bytes of
    PCM (format 1), one channel, 16 bits a sample, 2 bytes a frame; the
    sample rate is the one given and the byte rate is twice that, as long as
    twice the rate fits in 32 bits. *)
Theorem encodeWAV_header_fields (samples : list Z) (sampleRate : positive) :
  Z.pos sampleRate * 2 < 4294967296 ->
  exists blob,
    encodeWAV samples sampleRate = Ok blob
    /\ take 4 blob = [82; 73; 70; 70]
    /\ take 8 (drop 8 blob) = [87; 65; 86; 69; 102; 109; 116; 32]
    /\ take 4 (drop 36 blob) = [100; 97; 116; 97]
    /\ getUint32 blob 16 = 16
    /\ getUint16 blob 20 = 1
    /\ getUint16 blob 22 = 1
    /\ getUint32 blob 24 = Z.pos sampleRate
    /\ getUint32 blob 28 = Z.pos sampleRate * 2
    /\ getUint16 blob 32 = 2
    /\ getUint16 blob 34 = 16.
Proof.
  intros Hrate. eexists. split; [apply encodeWAV_bytes |].
  repeat split; try reflexivity.
  - transitivity (ToUint32 (Z.pos sampleRate)).
    + rewrite <- (le32_value (ToUint32 (Z.pos sampleRate))). reflexivity.
    + unfold ToUint32. apply Z.mod_small. lia.
  - transitivity (ToUint32 (Z.pos sampleRate * 2)).
    + rewrite <- (le32_value (ToUint32 (Z.pos sampleRate * 2))). reflexivity.
    + unfold ToUint32. apply Z.mod_small. lia.
Qed.

Lemma encodeWAV_header_fields_witness :
  24000 * 2 < 4294967296
  /\ exists blob,
       encodeWAV [1; -2] 24000 = Ok blob
       /\ getUint32 blob 24 = 24000
       /\ getUint32 blob 28 = 24000 * 2.
Proof.
  split; [reflexivity |].
  destruct (encodeWAV_header_fields [1; -2] 24000 eq_refl)
    as (blob & E & _ & _ & _ & _ & _ & _ & Hr & Hb & _).
  exists blob. auto.
Defined.

(** * Properties of the base64 helpers *)

Lemma binaryLoop_fmap (bytes : list Z) :
  forall (n i : nat) (binary : list Z),
    (i + n)%nat = length bytes ->
    binaryLoop n bytes i binary
    = binary ++ (String_fromCharCode <$> drop i bytes).
Proof.
  induction n as [|n IH]; intros i binary Hin; cbn [binaryLoop].
  - rewrite drop_ge by lia. rewrite app_nil_r. reflexivity.
  - destruct (bytes !! i) as [b|] eqn:Eb.
    + rewrite IH by lia. rewrite (drop_S _ _ _ Eb).
      rewrite <- app_assoc. reflexivity.
    + apply lookup_ge_None in Eb. lia.
Qed.

Lemma fromCharCode_bytes (bytes : list Z) :
  Forall isByte bytes -> String_fromCharCode <$> bytes = bytes.
Proof.
  induction 1 as [|b bytes Hb _ IH]; [reflexivity |].
  cbn [fmap list_fmap]. f_equal; [| exact IH].
  unfold String_fromCharCode. apply Z.mod_small. unfold isByte in Hb. lia.
Qed.

Lemma isByte_le16 (int16Array : list Z) :
  Forall isByte (int16Array ≫= le16).
Proof.
  induction int16Array as [|v l IH]; [constructor |].
  change ((v :: l) ≫= le16) with (le16 v ++ (l ≫= le16)).
  apply Forall_app. split; [| exact IH].
  unfold le16, ToUint16, isByte.
  pose proof (Z.mod_pos_bound v 65536 ltac:(lia)).
  repeat constructor.
  - apply Z.mod_pos_bound. lia.
  - pose proof (Z.mod_pos_bound (v mod 65536) 256 ltac:(lia)). lia.
  - apply Z.div_pos; lia.
  - assert (v mod 65536 / 256 < 256) by (apply Z.div_lt_upper_bound; lia). lia.
Qed.

Lemma forallb_bytes (bytes : list Z) :
  Forall isByte bytes -> forallb (fun c => c <=? 255) bytes = true.
Proof.
  intros H. apply forallb_forall. intros b Hb.
  apply Z.leb_le. apply (proj1 (Forall_forall _ _) H b).
  apply list_elem_of_In. exact Hb.
Qed.

(** Both helpers hand [btoa] the bytes themselves. *)
Lemma arrayBufferToBase64_bytes (buffer : list Z) :
  Forall isByte buffer ->
  arrayBufferToBase64 buffer = Some (string_of_list_ascii (encode buffer)).
Proof.
  intros Hb. unfold arrayBufferToBase64. cbv zeta.
  rewrite binaryLoop_fmap by lia. rewrite drop_0, app_nil_l.
  rewrite fromCharCode_bytes by exact Hb.
  unfold btoa. rewrite forallb_bytes by exact Hb. reflexivity.
Qed.

Lemma int16ToBase64_bytes (int16Array : Int16Array.t) :
  Forall isByte (Int16Array.buffer int16Array) ->
  int16ToBase64 int16Array
  = Some (string_of_list_ascii (encode (Int16Array.buffer int16Array))).
Proof. apply (arrayBufferToBase64_bytes (Int16Array.buffer int16Array)). Qed.

Lemma length_encode (n : nat) :
  forall binary : list Z,
    (length binary <= n)%nat ->
    Z.of_nat (length (encode binary)) = 4 * ((len binary + 2) / 3).
Proof.
  unfold len.
  induction n as [|n IH]; intros binary Hn.
  - destruct binary; [reflexivity | simpl in Hn; lia].
  - destruct binary as [|a [|b [|c rest]]]; try reflexivity.
    cbn [encode length]. rewrite !Nat2Z.inj_succ.
    rewrite IH by (simpl in Hn; lia).
    replace (Z.succ (Z.succ (Z.succ (Z.of_nat (length rest)))) + 2)
      with (Z.of_nat (length rest) + 2 + 1 * 3) by lia.
    rewrite Z.div_add by lia. lia.
Qed.

Lemma length_string_of_list_ascii (l : list Ascii.ascii) :
  String.length (string_of_list_ascii l) = length l.
Proof. induction l as [|c l IH]; [reflexivity | simpl; f_equal; exact IH]. Qed.

(** X8.  [int16ToBase64] never makes [btoa] throw: every character it
    builds is a byte of the buffer.  The text has 4 * ceil(n / 3) characters
    for a buffer of n bytes, whatever part of the buffer the array shows;
    for an array of n samples that has its buffer to itself, that is
    4 * ceil(2n / 3) characters. *)
Theorem int16ToBase64_length (int16Array : Int16Array.t) (samples : list Z) :
  Forall isByte (Int16Array.buffer int16Array) ->
  (exists base64 : string,
      int16ToBase64 int16Array = Some base64
      /\ Z.of_nat (String.length base64)
         = 4 * ((len (Int16Array.buffer int16Array) + 2) / 3))
  /\ (exists base64 : string,
        int16ToBase64 (Int16Array_of samples) = Some base64
        /\ Z.of_nat (String.length base64) = 4 * ((2 * len samples + 2) / 3)).
Proof.
  intros Hb. split.
  - eexists. split; [apply int16ToBase64_bytes, Hb |].
    rewrite length_string_of_list_ascii.
    apply (length_encode _ _ (Nat.le_refl _)).
  - eexists. split; [apply int16ToBase64_bytes, isByte_le16 |].
    rewrite length_string_of_list_ascii.
    rewrite (length_encode _ _ (Nat.le_refl _)).
    cbn [Int16Array_of Int16Array.buffer]. unfold len. rewrite length_bind_le16.
    do 3 f_equal. lia.
Qed.

Lemma int16ToBase64_length_witness :
  let view := {| Int16Array.buffer := [1; 0; 2; 0; 3; 0];
                 Int16Array.byteOffset := 2;
                 Int16Array.length := 2 |} in
  Forall isByte (Int16Array.buffer view)
  /\ exists base64 : string,
       int16ToBase64 view = Some base64
       /\ Z.of_nat (String.length base64)
          = 4 * ((len (Int16Array.buffer view) + 2) / 3).
Proof.
  cbv zeta.
  assert (H : Forall isByte [1; 0; 2; 0; 3; 0])
    by (repeat constructor; discriminate).
  split; [exact H |].
  apply (int16ToBase64_length
           {| Int16Array.buffer := [1; 0; 2; 0; 3; 0];
              Int16Array.byteOffset := 2;
              Int16Array.length := 2 |} [] H).
Defined.

(** The 64 digits are distinct, and none of them is the padding. *)
Lemma digit_table (n : Z) :
  0 <= n < 64 -> sextet (digit n) = n /\ Ascii.eqb (digit n) pad = false.
Proof.
  intros Hn.
  assert (T : forallb (fun k => (sextet (digit (Z.of_nat k)) =? Z.of_nat k)
                                && negb (Ascii.eqb (digit (Z.of_nat k)) pad))
                      (seq 0 64) = true) by (vm_compute; reflexivity).
  rewrite forallb_forall in T.
  specialize (T (Z.to_nat n)).
  rewrite Z2Nat.id in T by lia.
  destruct (andb_prop _ _ (T ltac:(apply in_seq; lia))) as [T1 T2].
  split; [apply Z.eqb_eq, T1 | apply negb_true_iff, T2].
Qed.

Ltac sextet_range :=
  unfold isByte in *;
  repeat match goal with
    | |- context [?a mod ?b] =>
        lazymatch goal with
        | _ : 0 <= a mod b < b |- _ => fail
        | _ => pose proof (Z.mod_pos_bound a b ltac:(lia))
        end
    end;
  Z.div_mod_to_equations; lia.

Lemma decode_encode (n : nat) :
  forall binary : list Z,
    (length binary <= n)%nat -> Forall isByte binary ->
    decode (encode binary) = binary.
Proof.
  induction n as [|n IH]; intros binary Hn Hb.
  - destruct binary; [reflexivity | simpl in Hn; lia].
  - destruct binary as [|a [|b [|c rest]]]; [reflexivity | | |].
    + apply Forall_cons in Hb as [Ha _].
      cbn [encode decode].
      destruct (digit_table (a / 4) ltac:(sextet_range)) as [-> _].
      destruct (digit_table (a mod 4 * 16) ltac:(sextet_range)) as [-> _].
      change (Ascii.eqb pad pad) with true. cbv iota zeta.
      f_equal. sextet_range.
    + apply Forall_cons in Hb as [Ha Hb]. apply Forall_cons in Hb as [Hb _].
      cbn [encode decode].
      destruct (digit_table (a / 4) ltac:(sextet_range)) as [-> _].
      destruct (digit_table (a mod 4 * 16 + b / 16) ltac:(sextet_range)) as [-> _].
      destruct (digit_table (b mod 16 * 4) ltac:(sextet_range)) as [-> ->].
      change (Ascii.eqb pad pad) with true. cbv iota zeta.
      f_equal; [| f_equal]; sextet_range.
    + apply Forall_cons in Hb as [Ha Hb]. apply Forall_cons in Hb as [Hb Hc].
      apply Forall_cons in Hc as [Hc Hrest].
      cbn [encode decode].
      destruct (digit_table (a / 4) ltac:(sextet_range)) as [-> _].
      destruct (digit_table (a mod 4 * 16 + b / 16) ltac:(sextet_range)) as [-> _].
      destruct (digit_table (b mod 16 * 4 + c / 64) ltac:(sextet_range)) as [-> ->].
      destruct (digit_table (c mod 64) ltac:(sextet_range)) as [-> ->].
      cbv iota zeta.
      rewrite IH by (simpl in Hn; lia || exact Hrest).
      f_equal; [| f_equal; [| f_equal]]; sextet_range.
Qed.

Lemma encode_injective (b1 b2 : list Z) :
  Forall isByte b1 -> Forall isByte b2 ->
  string_of_list_ascii (encode b1) = string_of_list_ascii (encode b2) ->
  b1 = b2.
Proof.
  intros H1 H2 E.
  apply (f_equal list_ascii_of_string) in E.
  rewrite !list_ascii_of_string_of_list_ascii in E.
  apply (f_equal decode) in E.
  rewrite (decode_encode _ _ (Nat.le_refl _) H1) in E.
  rewrite (decode_encode _ _ (Nat.le_refl _) H2) in E.
  exact E.
Qed.

(** X9.  The text of [int16ToBase64] holds the buffer of the array, and
    nothing but the buffer: two arrays give the same text exactly when their
    buffers hold the same bytes, whatever parts of them the arrays show.
    Nothing is lost for the arrays that the converter makes, each of which
    has its buffer to itself: two of them, of 16-bit samples, that give the
    same text hold the same samples. *)
Theorem int16ToBase64_injective (a b : Int16Array.t) (x y : list Z) :
  Forall isByte (Int16Array.buffer a) -> Forall isByte (Int16Array.buffer b) ->
  Forall isInt16 x -> Forall isInt16 y ->
  (int16ToBase64 a = int16ToBase64 b <-> Int16Array.buffer a = Int16Array.buffer b)
  /\ (int16ToBase64 (Int16Array_of x) = int16ToBase64 (Int16Array_of y) -> x = y).
Proof.
  intros Ha Hb Hx Hy. split; [split |].
  - rewrite !int16ToBase64_bytes by assumption. intros [= E].
    apply encode_injective in E; assumption.
  - unfold int16ToBase64. intros ->. reflexivity.
  - rewrite !int16ToBase64_bytes by apply isByte_le16. intros [= E].
    apply encode_injective in E; [| apply isByte_le16 | apply isByte_le16].
    apply (f_equal int16s) in E. cbn [Int16Array_of Int16Array.buffer] in E.
    rewrite !int16s_bytes in E by assumption. exact E.
Qed.

Lemma int16ToBase64_injective_witness :
  let view := {| Int16Array.buffer := [1; 0; 2; 0; 3; 0];
                 Int16Array.byteOffset := 2;
                 Int16Array.length := 2 |} in
  Forall isByte (Int16Array.buffer view)
  /\ Forall isByte (Int16Array.buffer (Int16Array_of [1; 2; 3]))
  /\ Forall isInt16 [1; -2; 300]
  /\ (int16ToBase64 view = int16ToBase64 (Int16Array_of [1; 2; 3])
      <-> Int16Array.buffer view = Int16Array.buffer (Int16Array_of [1; 2; 3])).
Proof.
  cbv zeta.
  assert (H : Forall isByte [1; 0; 2; 0; 3; 0])
    by (repeat constructor; discriminate).
  assert (H' : Forall isInt16 [1; -2; 300])
    by (repeat constructor; discriminate).
  split; [exact H |]. split; [exact H |]. split; [exact H' |].
  apply (int16ToBase64_injective
           {| Int16Array.buffer := [1; 0; 2; 0; 3; 0];
              Int16Array.byteOffset := 2;
              Int16Array.length := 2 |}
           (Int16Array_of [1; 2; 3]) [1; -2; 300] [1; -2; 300] H H H' H').
Defined.

(** X10.  [arrayBufferToBase64] never makes [btoa] throw on the bytes of a
    buffer, returns 4 * ceil(n / 3) characters for n bytes, and loses
    nothing: two buffers with the same text are the same buffer. *)
Theorem arrayBufferToBase64_injective (b1 b2 : list Z) :
  Forall isByte b1 -> Forall isByte b2 ->
  (exists base64 : string,
      arrayBufferToBase64 b1 = Some base64
      /\ Z.of_nat (String.length base64) = 4 * ((len b1 + 2) / 3))
  /\ (arrayBufferToBase64 b1 = arrayBufferToBase64 b2 -> b1 = b2).
Proof.
  intros H1 H2. rewrite !arrayBufferToBase64_bytes by assumption. split.
  - eexists. split; [reflexivity |].
    rewrite length_string_of_list_ascii.
    apply (length_encode _ _ (Nat.le_refl _)).
  - intros [= E]. apply encode_injective; assumption.
Qed.

Lemma arrayBufferToBase64_injective_witness :
  Forall isByte [77; 97; 110; 0; 255]
  /\ exists base64 : string,
       arrayBufferToBase64 [77; 97; 110; 0; 255] = Some base64
       /\ Z.of_nat (String.length base64) = 4 * ((len [77; 97; 110; 0; 255] + 2) / 3).
Proof.
  assert (H : Forall isByte [77; 97; 110; 0; 255])
    by (repeat constructor; discriminate).
  split; [exact H |].
  apply (arrayBufferToBase64_injective [77; 97; 110; 0; 255] [77; 97; 110; 0; 255] H H).
Defined.

Example arrayBufferToBase64_Man :
  arrayBufferToBase64 [77; 97; 110; 77; 97] = Some "TWFuTWE="%string.
Proof. reflexivity. Qed.

(** * Further properties of the voice session controller *)

(** ** What a step leaves alone *)

Lemma sockets_gotUserMedia (t : nat) (granted : bool) (rate : positive) (s : state) :
  sockets (startVoiceRecording_gotUserMedia t granted rate s) = sockets s
  /\ nodes (startVoiceRecording_gotUserMedia t granted rate s) = nodes s
  /\ thrown (startVoiceRecording_gotUserMedia t granted rate s) = thrown s.
Proof.
  unfold startVoiceRecording_gotUserMedia. repeat case_match; auto.
Qed.

Lemma sockets_addedModule (t : nat) (loaded : bool) (s : state) :
  sockets (startVoiceRecording_addedModule t loaded s) = sockets s
  /\ (exists new, nodes (startVoiceRecording_addedModule t loaded s) = nodes s ++ new)
  /\ thrown (startVoiceRecording_addedModule t loaded s) = thrown s.
Proof.
  unfold startVoiceRecording_addedModule.
  repeat case_match; cbn; repeat split;
    try reflexivity; try (eexists; reflexivity);
    exists []; rewrite app_nil_r; reflexivity.
Qed.

Lemma sockets_gotArrayBuffer (t : nat) (s : state) :
  sockets (ws_onmessage_gotArrayBuffer t s) = sockets s
  /\ nodes (ws_onmessage_gotArrayBuffer t s) = nodes s
  /\ thrown (ws_onmessage_gotArrayBuffer t s) = thrown s.
Proof.
  unfold ws_onmessage_gotArrayBuffer. repeat case_match; auto.
Qed.

Lemma sockets_onmessage (data : messageData) (s : state) :
  sockets (ws_onmessage data s) = sockets s
  /\ nodes (ws_onmessage data s) = nodes s
  /\ thrown (ws_onmessage data s) = thrown s.
Proof. destruct data as [[]|]; auto. Qed.

(** The callback of a processor node either changes nothing or sends one
    audio frame on the current socket, which is open. *)
Lemma workletNode_port_onmessage_cases
    (n : nat) (floatSamples : list Q) (s : state) :
  workletNode_port_onmessage n floatSamples s = s
  \/ exists w ws chunk,
       wsRef s = Some w /\ sockets s !! w = Some ws /\ readyState ws = OPEN
       /\ workletNode_port_onmessage n floatSamples s
          = set_sockets
              (<[w := {| readyState := OPEN;
                         sent := sent ws ++ [realtimeInput chunk] |}]> (sockets s)) s.
Proof.
  unfold workletNode_port_onmessage.
  destruct (nodes s !! n) as [node|]; [| auto].
  destruct (negb (closure_recording node)); [auto |].
  destruct (contexts s !! closure_audioContext node) as [ctx|]; [| auto].
  destruct (snd (downsampleBuffer _ _ _)) as [chunk|]; [| auto].
  destruct (wsRef s) as [w|]; [| auto].
  destruct (sockets s !! w) as [ws|] eqn:Ew; [| auto].
  destruct (readyState ws) eqn:Er; auto.
  right. exists w, ws, chunk. repeat split; try assumption.
  unfold WebSocket_send. rewrite Ew, Er. reflexivity.
Qed.

(** ** No browser method ever throws *)

Lemma thrown_step (s : state) (e : event) : thrown (step s e) = thrown s.
Proof.
  destruct e as [b| |t g r|t l|t|w|w d|w|w|n x]; cbn [step].
  - unfold startVoiceRecording. destruct b; reflexivity.
  - rewrite stopVoiceRecording_state. reflexivity.
  - apply sockets_gotUserMedia.
  - apply sockets_addedModule.
  - apply sockets_gotArrayBuffer.
  - destruct (sockets s !! w) as [ws|] eqn:Ew; [| reflexivity].
    destruct (readyState ws) eqn:Er; try reflexivity.
    unfold ws_onopen, WebSocket_send. cbn.
    rewrite list_lookup_insert_eq by (eapply lookup_lt_Some; eassumption).
    reflexivity.
  - destruct (socketState w s) as [[]|]; try reflexivity.
    apply sockets_onmessage.
  - reflexivity.
  - reflexivity.
  - destruct (workletNode_port_onmessage_cases n x s)
      as [->|(w & ws & chunk & _ & _ & _ & ->)]; reflexivity.
Qed.

(** X11.  Whatever the UI, the browser and the network do, in whatever
    order, the controller never makes [WebSocket.send] throw: it only ever
    sends on a socket that is OPEN. *)
Theorem controller_never_throws (es : list event) :
  thrown (run initial es) = [].
Proof.
  change [] with (thrown initial). generalize initial.
  induction es as [|e es IH]; intros s; [reflexivity |].
  unfold run. cbn [foldl]. fold (run (step s e) es).
  rewrite IH. apply thrown_step.
Qed.

(** ** The setup message comes first *)

Lemma wellFormedLog_step (s : state) (e : event) :
  Forall wellFormedLog (sockets s) -> Forall wellFormedLog (sockets (step s e)).
Proof.
  intros Hs. destruct e as [b| |t g r|t l|t|w|w d|w|w|n x]; cbn [step].
  - unfold startVoiceRecording. destruct b; cbn; [exact Hs |].
    apply Forall_app. split; [exact Hs |]. repeat constructor.
  - rewrite stopVoiceRecording_state. cbn.
    destruct (wsRef s) as [w|]; cbn; [| exact Hs].
    apply Forall_alter; [exact Hs |].
    intros [[] l] _; unfold wellFormedLog, close; cbn; auto.
  - rewrite (proj1 (sockets_gotUserMedia t g r s)). exact Hs.
  - rewrite (proj1 (sockets_addedModule t l s)). exact Hs.
  - rewrite (proj1 (sockets_gotArrayBuffer t s)). exact Hs.
  - destruct (sockets s !! w) as [ws|] eqn:Ew; [| exact Hs].
    destruct (readyState ws) eqn:Er; try exact Hs.
    unfold ws_onopen, WebSocket_send. cbn.
    rewrite list_lookup_insert_eq by (eapply lookup_lt_Some; eassumption). cbn.
    rewrite list_insert_insert_eq.
    apply Forall_insert; [exact Hs |].
    pose proof (proj1 (Forall_lookup _ _) Hs w ws Ew) as Hw.
    unfold wellFormedLog in Hw. rewrite Er in Hw.
    unfold wellFormedLog, handshakeThenAudio. cbn. rewrite Hw.
    exists []. reflexivity.
  - destruct (socketState w s) as [[]|]; try exact Hs.
    rewrite (proj1 (sockets_onmessage d s)). exact Hs.
  - exact Hs.
  - cbn. apply Forall_alter; [exact Hs |].
    intros [[] l]; unfold wellFormedLog; cbn; auto.
  - destruct (workletNode_port_onmessage_cases n x s)
      as [->|(w & ws & chunk & _ & Ew & Er & ->)]; [exact Hs |].
    cbn. apply Forall_insert; [exact Hs |].
    pose proof (proj1 (Forall_lookup _ _) Hs w ws Ew) as Hw.
    unfold wellFormedLog in Hw. rewrite Er in Hw.
    destruct Hw as [chunks Hw].
    unfold wellFormedLog, handshakeThenAudio. cbn. rewrite Hw.
    exists (chunks ++ [chunk]). rewrite fmap_app. reflexivity.
Qed.

(** X12.  On every socket the controller ever creates, nothing is sent
    while it connects, and what is sent once it is open is the setup message,
    once and first, followed by audio frames only, whatever the order of
    events. *)
Theorem setup_message_first (es : list event) (w : nat) (ws : WebSocket) :
  sockets (run initial es) !! w = Some ws -> wellFormedLog ws.
Proof.
  assert (H : Forall wellFormedLog (sockets (run initial es))).
  { assert (H0 : Forall wellFormedLog (sockets initial)) by constructor.
    revert H0. generalize initial.
    induction es as [|e es IH]; intros s Hs; [exact Hs |].
    unfold run. cbn [foldl]. apply IH, wellFormedLog_step, Hs. }
  intros Hw. exact (proj1 (Forall_lookup _ _) H w ws Hw).
Qed.

Lemma setup_message_first_witness :
  let es := start_events 0 48000 ++ start_events 1 48000
            ++ [SocketOpened 1; CallStop] in
  sockets (run initial es) !! 1%nat
  = Some {| readyState := CLOSING; sent := [setupMessage] |}
  /\ wellFormedLog {| readyState := CLOSING; sent := [setupMessage] |}.
Proof.
  cbv zeta.
  assert (H : sockets (run initial
                (start_events 0 48000 ++ start_events 1 48000
                 ++ [SocketOpened 1; CallStop]))
              !! 1%nat
              = Some {| readyState := CLOSING; sent := [setupMessage] |})
    by (vm_compute; reflexivity).
  split; [exact H |].
  exact (setup_message_first _ _ _ H).
Defined.

(** ** No processor node, no audio *)

Lemma quiet_close (ws : WebSocket) : quiet ws -> quiet (close ws).
Proof. destruct ws as [[] l]; unfold quiet, close; cbn; auto. Qed.

Lemma nodeless_step (s : state) (e : event) : nodeless s -> nodeless (step s e).
Proof.
  intros (Hn & Hr & Ht & Hs).
  destruct e as [b| |t g r|t l|t|w|w d|w|w|n x]; cbn [step].
  - unfold startVoiceRecording, nodeless. destruct b; cbn.
    + repeat split; try assumption. apply Forall_app. split; [exact Ht |].
      repeat constructor.
    + repeat split; try assumption.
      * apply Forall_app. split; [exact Ht |]. repeat constructor.
      * apply Forall_app. split; [exact Hs |]. repeat constructor.
  - rewrite stopVoiceRecording_state. unfold nodeless. cbn.
    rewrite Hn, Hr. cbn. repeat split; try assumption.
    destruct (wsRef s) as [w|]; cbn; [| exact Hs].
    apply Forall_alter; [exact Hs |]. intros ws _. apply quiet_close.
  - unfold startVoiceRecording_gotUserMedia.
    destruct (tasks s !! t) as [[[c|c a|d]|]|]; try (repeat split; assumption).
    destruct g; unfold nodeless; cbn; repeat split; try assumption;
      apply Forall_insert; try assumption; exact I.
  - unfold startVoiceRecording_addedModule.
    destruct (tasks s !! t) as [[[c|c a|d]|]|] eqn:Et;
      try (repeat split; assumption).
    exfalso. exact (proj1 (Forall_lookup _ _) Ht t _ Et).
  - unfold ws_onmessage_gotArrayBuffer.
    destruct (tasks s !! t) as [[[c|c a|d]|]|]; try (repeat split; assumption).
    destruct (encodeWAV d 24000); unfold nodeless; cbn;
      repeat split; try assumption; apply Forall_insert; try assumption; exact I.
  - destruct (sockets s !! w) as [ws|] eqn:Ew; [| repeat split; assumption].
    destruct (readyState ws) eqn:Er; try (repeat split; assumption).
    unfold ws_onopen, WebSocket_send. cbn.
    rewrite list_lookup_insert_eq by (eapply lookup_lt_Some; eassumption). cbn.
    rewrite list_insert_insert_eq.
    unfold nodeless. cbn. repeat split; try assumption.
    apply Forall_insert; [exact Hs |].
    pose proof (proj1 (Forall_lookup _ _) Hs w ws Ew) as Hw.
    unfold quiet in Hw. rewrite Er in Hw.
    unfold quiet. cbn. rewrite Hw. reflexivity.
  - destruct (socketState w s) as [[]|]; try (repeat split; assumption).
    destruct d as [[]|samples]; unfold nodeless; cbn;
      repeat split; try assumption.
    apply Forall_app. split; [exact Ht |]. repeat constructor.
  - repeat split; assumption.
  - unfold nodeless. cbn. repeat split; try assumption.
    apply Forall_alter; [exact Hs |].
    intros [[] l]; unfold quiet; cbn; auto.
  - unfold workletNode_port_onmessage. rewrite Hn, lookup_nil.
    repeat split; assumption.
Qed.

Lemma nodeless_run (es : list event) : nodeless (run initial es).
Proof.
  assert (H0 : nodeless initial) by (repeat split; constructor).
  revert H0. generalize initial.
  induction es as [|e es IH]; intros s Hs; [exact Hs |].
  unfold run. cbn [foldl]. apply IH, nodeless_step, Hs.
Qed.

(** X13.  No audio is ever sent.  Whatever the UI, the browser and the
    network do, in whatever order, no processor node ever exists, since
    every call of [startVoiceRecording] has ended before it would create
    one; the callback that would send the audio is installed on none, so
    that a frame of the capture graph changes nothing; and every socket has
    sent nothing, or the setup message and nothing else. *)
Theorem no_audio_is_ever_sent (es : list event) :
  let s := run initial es in
  nodes s = [] /\ workletNodeRef s = None
  /\ (forall (n : nat) (floatSamples : list Q),
         step s (WorkletMessage n floatSamples) = s)
  /\ (forall (w : nat) (ws : WebSocket),
         sockets s !! w = Some ws -> sent ws = [] \/ sent ws = [setupMessage]).
Proof.
  cbv zeta. destruct (nodeless_run es) as (Hn & Hr & _ & Hs).
  split; [exact Hn |]. split; [exact Hr |]. split.
  - intros n x. cbn [step]. unfold workletNode_port_onmessage.
    rewrite Hn, lookup_nil. reflexivity.
  - intros w ws Hw. pose proof (proj1 (Forall_lookup _ _) Hs w ws Hw) as H.
    unfold quiet in H. destruct (readyState ws); auto.
Qed.

(** ** Starts that fail, stops that come early *)

(** X14.  [startVoiceRecording] cleans nothing up when it fails.  If the
    microphone is refused, the socket it has just created stays active and
    [recording] stays true, with no stream, context or node created.  If the
    microphone is granted, the call ends with the [ReferenceError] of the
    class expression, and an answer of [addModule] that says that the worklet
    module has failed to load finds no call waiting for it: the stream and
    the context that the call has created stay live and running as well, and
    no node is created. *)
Theorem startVoiceRecording_failure_leaves_resources
    (s : state) (rate : positive) :
  let t := length (tasks s) in
  let refused := run s [CallStart false; UserMediaSettled t false rate] in
  let unloaded :=
    run s [CallStart false; UserMediaSettled t true rate; AddModuleSettled t false] in
  (recording refused = true
   /\ wsRef refused = Some (length (sockets s))
   /\ activeConnections refused = S (activeConnections s)
   /\ streams refused = streams s /\ contexts refused = contexts s
   /\ nodes refused = nodes s)
  /\ (recording unloaded = true
      /\ activeConnections unloaded = S (activeConnections s)
      /\ liveStreams unloaded = S (liveStreams s)
      /\ runningContexts unloaded = S (runningContexts s)
      /\ nodes unloaded = nodes s
      /\ workletNodeRef unloaded = workletNodeRef s
      /\ uncaught unloaded = uncaught s ++ [ReferenceError]
      /\ unloaded = run s [CallStart false; UserMediaSettled t true rate]).
Proof.
  destruct s as [rec thk ws ms ac wn socks strs ctxs nds tks pl cl th unc].
  cbv zeta. unfold run. cbn [foldl step tasks].
  unfold startVoiceRecording. cbn.
  unfold startVoiceRecording_gotUserMedia. cbn.
  rewrite lookup_snoc_length. cbn. rewrite insert_snoc_length.
  unfold startVoiceRecording_addedModule. cbn.
  rewrite lookup_snoc_length. cbn.
  unfold activeConnections, liveStreams, runningContexts. cbn.
  rewrite !count_snoc_True by reflexivity.
  repeat split; reflexivity.
Qed.

(** X15.  A stop right after a start that got its socket and its microphone
    releases exactly what that start created: the numbers of active
    connections, live streams and running contexts are back to what they
    were before the start, and [recording] is false.  The attached nodes are
    those that a stop alone would have left; where no processor node is
    current before the start, as in every state that the component reaches,
    their number is back to what it was as well. *)
Theorem stop_releases_last_start (s : state) (rate : positive) :
  let s' := run s (start_events (length (tasks s)) rate ++ [CallStop]) in
  recording s' = false
  /\ activeConnections s' = activeConnections s
  /\ liveStreams s' = liveStreams s
  /\ runningContexts s' = runningContexts s
  /\ attachedNodes s' = attachedNodes (stopVoiceRecording s)
  /\ (workletNodeRef s = None -> attachedNodes s' = attachedNodes s).
Proof.
  cbv zeta.
  replace (run s (start_events (length (tasks s)) rate ++ [CallStop]))
    with (stopVoiceRecording (run s (start_events (length (tasks s)) rate)))
    by (unfold run; rewrite foldl_app; cbn [foldl step]; reflexivity).
  rewrite startVoiceRecording_state, !stopVoiceRecording_state.
  unfold activeConnections, liveStreams, runningContexts, attachedNodes.
  cbn [recording wsRef mediaStreamRef audioContextRef workletNodeRef
       sockets streams contexts nodes alter_at].
  rewrite !alter_snoc_length.
  split; [reflexivity |].
  repeat split; try reflexivity;
    try (rewrite count_snoc_False by (cbn; discriminate); reflexivity).
  intros Hnode. rewrite Hnode. reflexivity.
Qed.

Lemma stop_releases_last_start_witness :
  workletNodeRef initial = None
  /\ let s' := run initial (start_events 0 48000 ++ [CallStop]) in
     recording s' = false
     /\ activeConnections s' = activeConnections initial
     /\ liveStreams s' = liveStreams initial
     /\ runningContexts s' = runningContexts initial
     /\ attachedNodes s' = attachedNodes initial.
Proof.
  split; [reflexivity |].
  destruct (stop_releases_last_start initial 48000) as (H1 & H2 & H3 & H4 & _ & H5).
  exact (conj H1 (conj H2 (conj H3 (conj H4 (H5 eq_refl))))).
Defined.

(** X16.  A stop does not cancel a start that is still waiting for the
    microphone.  When the permission comes after the stop, the start goes on:
    it creates the stream and the audio context and sets the refs to them
    before it ends, so that a microphone and an audio context are live
    while [recording] is false and the socket they were meant for is
    closing. *)
Theorem stop_does_not_cancel_pending_start (s : state) (rate : positive) :
  let t := length (tasks s) in
  let s' := run s [CallStart false; CallStop; UserMediaSettled t true rate] in
  recording s' = false
  /\ socketState (length (sockets s)) s' = Some CLOSING
  /\ liveStreams s' = S (liveStreams (stopVoiceRecording s))
  /\ runningContexts s' = S (runningContexts (stopVoiceRecording s))
  /\ mediaStreamRef s' = Some (length (streams s))
  /\ audioContextRef s' = Some (length (contexts s))
  /\ workletNodeRef s' = None
  /\ nodes s' = nodes (stopVoiceRecording s)
  /\ uncaught s' = uncaught s ++ [ReferenceError].
Proof.
  destruct s as [rec thk ws ms ac wn socks strs ctxs nds tks pl cl th unc].
  cbv zeta. unfold run. cbn [foldl step tasks sockets streams contexts nodes].
  rewrite !stopVoiceRecording_state.
  unfold startVoiceRecording. cbn.
  unfold startVoiceRecording_gotUserMedia. cbn.
  rewrite lookup_snoc_length. cbn. rewrite insert_snoc_length.
  unfold socketState, liveStreams, runningContexts. cbn.
  rewrite alter_snoc_length, lookup_snoc_length.
  rewrite !count_snoc_True by reflexivity.
  repeat split; try reflexivity.
  - destruct ms; cbn; rewrite ?length_alter; reflexivity.
  - destruct ac; cbn; rewrite ?length_alter; reflexivity.
Qed.

(** * Properties of the conversations *)

Import Chat.

Lemma appendMessage_withMessage (c : option Z) (m : Message)
    (convs : list Conversation) :
  appendMessage c m convs
  = (fun conv => if isCurrent c conv then withMessage m conv else conv) <$> convs.
Proof. reflexivity. Qed.

Lemma isCurrent_withMessage (c : option Z) (m : Message) (conv : Conversation) :
  isCurrent c (withMessage m conv) = isCurrent c conv.
Proof. destruct c; reflexivity. Qed.

(** Appending to the current conversation changes the messages of the
    conversations with the current id, and nothing else. *)
Lemma lookup_appendMessage (c : option Z) (m : Message)
    (convs : list Conversation) (i : nat) :
  appendMessage c m convs !! i
  = (fun conv => if isCurrent c conv then withMessage m conv else conv)
      <$> convs !! i.
Proof. rewrite appendMessage_withMessage. apply list_lookup_fmap. Qed.

Lemma find_appendMessage (c : option Z) (m : Message) (convs : list Conversation) :
  find (isCurrent c) (appendMessage c m convs)
  = withMessage m <$> find (isCurrent c) convs.
Proof.
  induction convs as [|conv convs IH]; [reflexivity |].
  rewrite appendMessage_withMessage in *. cbn [fmap list_fmap find].
  destruct (isCurrent c conv) eqn:E.
  - rewrite isCurrent_withMessage, E. reflexivity.
  - rewrite E. exact IH.
Qed.

Lemma find_none (c : option Z) (convs : list Conversation) :
  Forall (fun conv => isCurrent c conv = false) convs ->
  find (isCurrent c) convs = None.
Proof.
  induction 1 as [|conv convs H _ IH]; [reflexivity |].
  cbn [find]. rewrite H. exact IH.
Qed.

Lemma appendMessage_none (c : option Z) (m : Message) (convs : list Conversation) :
  Forall (fun conv => isCurrent c conv = false) convs ->
  appendMessage c m convs = convs.
Proof.
  rewrite appendMessage_withMessage.
  induction 1 as [|conv convs H _ IH]; [reflexivity |].
  cbn [fmap list_fmap]. rewrite H. f_equal. exact IH.
Qed.

(** What [handleSubmit] leaves when it goes on to call the API. *)
Lemma handleSubmit_sent (nowFile nowText : Z) (s s1 : state) (k : submitted) :
  handleSubmit nowFile nowText s = (s1, Some k) ->
  closure_currentConversationId k = currentConversationId s
  /\ currentConversationId s1 = currentConversationId s
  /\ conversations s1 = updatedConversations k
  /\ localStorage s1 = Some (updatedConversations k)
  /\ updatedConversations k
     = foldl (fun convs m => appendMessage (currentConversationId s) m convs)
             (conversations s) (userBubbles nowFile nowText s).
Proof.
  unfold handleSubmit, userBubbles.
  destruct (blank (message s) && negb (bool_decide (is_Some (attachedFile s))));
    [discriminate |].
  destruct (attachedFile s) as [file|], (blank (message s)),
    (chatSession s) as [session|];
    intros [= <- <-]; repeat split; reflexivity.
Qed.

Lemma currentMessages_foldl (c : option Z) (ms : list Message) :
  forall convs : list Conversation,
    find (isCurrent c)
         (foldl (fun convs m => appendMessage c m convs) convs ms)
    = (fun conv =>
         {| id := id conv; title := title conv; date := date conv;
            messages := messages conv ++ ms |}) <$> find (isCurrent c) convs.
Proof.
  induction ms as [|m ms IH]; intros convs; cbn [foldl].
  - destruct (find (isCurrent c) convs) as [[]|]; cbn;
      rewrite ?app_nil_r; reflexivity.
  - rewrite IH, find_appendMessage.
    destruct (find (isCurrent c) convs) as [[]|]; cbn; [| reflexivity].
    rewrite <- app_assoc. reflexivity.
Qed.

Lemma lookup_foldl_other (c : option Z) (ms : list Message) :
  forall (convs : list Conversation) (i : nat) (conv : Conversation),
    convs !! i = Some conv -> isCurrent c conv = false ->
    foldl (fun convs m => appendMessage c m convs) convs ms !! i = Some conv.
Proof.
  induction ms as [|m ms IH]; intros convs i conv Hi Hc; cbn [foldl];
    [exact Hi |].
  apply IH; [| exact Hc].
  rewrite lookup_appendMessage, Hi. cbn. rewrite Hc. reflexivity.
Qed.

Lemma length_foldl_appendMessage (c : option Z) (ms : list Message) :
  forall convs : list Conversation,
    length (foldl (fun convs m => appendMessage c m convs) convs ms)
    = length convs.
Proof.
  induction ms as [|m ms IH]; intros convs; cbn [foldl]; [reflexivity |].
  rewrite IH. unfold appendMessage. apply length_fmap.
Qed.

(** X17.  One question and its answer.  When [handleSubmit] goes on to call
    the API and the answer comes while nothing else has happened, the
    conversation on the screen shows what it showed, then the bubble of the
    file (if one is attached), then the bubble of the text (if it is not
    blank), then the reply or the error text; no other conversation changes;
    the input and the attachment are cleared, and the storage holds the
    list. *)
Theorem submit_and_answer
    (nowFile nowText now : Z) (s s1 : state) (k : submitted)
    (result : option string) (conv : Conversation) :
  handleSubmit nowFile nowText s = (s1, Some k) ->
  find (isCurrent (currentConversationId s)) (conversations s) = Some conv ->
  let s2 := handleSubmit_settled k result now s1 in
  currentMessages s2
  = messages conv ++ userBubbles nowFile nowText s ++ [replyBubble result now]
  /\ (forall (i : nat) (other : Conversation),
         conversations s !! i = Some other ->
         isCurrent (currentConversationId s) other = false ->
         conversations s2 !! i = Some other)
  /\ length (conversations s2) = length (conversations s)
  /\ message s2 = EmptyString /\ attachedFile s2 = None /\ isThinking s2 = false
  /\ inSync s2.
Proof.
  intros Hsub Hfind s2.
  destruct (handleSubmit_sent _ _ _ _ _ Hsub) as (Hc & Hc1 & _ & _ & Hupd).
  assert (Hconvs : conversations s2
                   = appendMessage (currentConversationId s) (replyBubble result now)
                       (updatedConversations k)).
  { subst s2. unfold handleSubmit_settled. cbn. rewrite Hc.
    destruct result; reflexivity. }
  assert (Hcur : currentConversationId s2 = currentConversationId s).
  { subst s2. unfold handleSubmit_settled. cbn. exact Hc1. }
  split; [| split; [| split; [| repeat split; reflexivity]]].
  - unfold currentMessages. rewrite Hcur, Hconvs, find_appendMessage, Hupd.
    rewrite currentMessages_foldl, Hfind. cbn. symmetry. apply app_assoc.
  - intros i other Hi Hother. rewrite Hconvs, lookup_appendMessage, Hupd.
    rewrite (lookup_foldl_other _ _ _ _ _ Hi Hother). cbn.
    rewrite Hother. reflexivity.
  - rewrite Hconvs, Hupd. unfold appendMessage at 1. rewrite length_fmap.
    apply length_foldl_appendMessage.
Qed.

Lemma submit_and_answer_witness :
  exists (s1 : state) (k : submitted) (conv : Conversation),
    handleSubmit 10 11 exampleChat = (s1, Some k)
    /\ find (isCurrent (currentConversationId exampleChat))
            (conversations exampleChat) = Some conv
    /\ currentMessages (handleSubmit_settled k (Some "so it goes"%string) 12 s1)
       = messages conv ++ userBubbles 10 11 exampleChat
         ++ [replyBubble (Some "so it goes"%string) 12].
Proof.
  eexists _, _, _. split; [reflexivity |]. split; [reflexivity |].
  eapply (submit_and_answer 10 11 12 exampleChat); reflexivity.
Defined.

Lemma ids_appendMessage (c : option Z) (m : Message) (convs : list Conversation) :
  id <$> appendMessage c m convs = id <$> convs.
Proof.
  unfold appendMessage. rewrite <- list_fmap_compose.
  apply list_fmap_ext. intros i conv _. cbn.
  destruct (isCurrent c conv); reflexivity.
Qed.

Lemma ids_foldl_appendMessage (c : option Z) (ms : list Message) :
  forall convs : list Conversation,
    id <$> foldl (fun convs m => appendMessage c m convs) convs ms = id <$> convs.
Proof.
  induction ms as [|m ms IH]; intros convs; cbn [foldl]; [reflexivity |].
  rewrite IH. apply ids_appendMessage.
Qed.

Lemma find_fresh (c : Z) (convs : list Conversation) :
  c ∉ (id <$> convs) -> find (isCurrent (Some c)) convs = None.
Proof.
  induction convs as [|conv convs IH]; [reflexivity |].
  cbn [fmap list_fmap find isCurrent]. intros Hc.
  apply not_elem_of_cons in Hc as [Hne Hc].
  destruct (Z.eqb_spec (id conv) c) as [E|_]; [congruence |].
  apply IH, Hc.
Qed.

(** X18.  A conversation created while a question is waiting for its answer
    disappears when the answer comes: the rest of [handleSubmit] writes back
    the list it held before the [await], with the reply added, to the screen
    and to the storage.  The id of the lost conversation stays current, so
    the screen shows no messages at all. *)
Theorem answer_overwrites_new_conversation
    (nowFile nowText now newId : Z) (timeString dateString : string)
    (s s1 : state) (k : submitted) (result : option string) :
  handleSubmit nowFile nowText s = (s1, Some k) ->
  newId ∉ (id <$> conversations s) ->
  let s2 := handleNewConversation newId timeString dateString s1 in
  let s3 := handleSubmit_settled k result now s2 in
  newId ∈ (id <$> conversations s2)
  /\ (newId ∉ (id <$> conversations s3))
  /\ id <$> conversations s3 = id <$> conversations s
  /\ localStorage s3 = Some (conversations s3)
  /\ currentConversationId s3 = Some newId
  /\ currentMessages s3 = [].
Proof.
  intros Hsub Hfresh s2 s3.
  destruct (handleSubmit_sent _ _ _ _ _ Hsub) as (Hc & _ & _ & _ & Hupd).
  assert (Hids : id <$> conversations s3 = id <$> conversations s).
  { subst s3. unfold handleSubmit_settled. cbn.
    rewrite ids_appendMessage, Hupd. apply ids_foldl_appendMessage. }
  split; [| split; [| split; [| split; [| split]]]].
  - subst s2. cbn. apply elem_of_cons. left. reflexivity.
  - rewrite Hids. exact Hfresh.
  - exact Hids.
  - reflexivity.
  - reflexivity.
  - unfold currentMessages.
    replace (currentConversationId s3) with (Some newId) by reflexivity.
    rewrite find_fresh; [reflexivity |]. rewrite Hids. exact Hfresh.
Qed.

Lemma answer_overwrites_new_conversation_witness :
  exists (s1 : state) (k : submitted),
    handleSubmit 10 11 exampleChat = (s1, Some k)
    /\ (3 ∉ (id <$> conversations exampleChat))
    /\ currentMessages
         (handleSubmit_settled k None 12
            (handleNewConversation 3 "10:05" "1/2/2025" s1)) = [].
Proof.
  assert (H : 3 ∉ (id <$> conversations exampleChat)).
  { cbn. intros H. repeat (apply elem_of_cons in H as [H|H]; [discriminate |]).
    inversion H. }
  eexists _, _. split; [reflexivity |]. split; [exact H |].
  eapply (answer_overwrites_new_conversation 10 11 12 3 "10:05" "1/2/2025"
            exampleChat); [reflexivity | exact H].
Defined.

(** X19.  Every change of the list of conversations is written to the
    storage: after any handler other than the first mount that changes the
    list, the storage holds the new list; and once the two agree they agree
    for ever. *)
Theorem conversations_persisted (s : state) (e : event) :
  (inSync s -> inSync (step s e))
  /\ (conversations (step s e) <> conversations s ->
      (forall now dateString, e <> Mount now dateString) ->
      inSync (step s e)).
Proof.
  unfold inSync.
  destruct e as [now d|m|files|nf nt|k r now|now t d|c|convs c r now]; cbn [step].
  - split; [| intros _ H; exfalso; exact (H now d eq_refl)].
    unfold mount. intros H. rewrite H. revert H.
    destruct (conversations s); cbn; auto.
  - split; [auto | intros H; contradiction H; reflexivity].
  - assert (E : conversations (handleFileUpload files s) = conversations s
                /\ localStorage (handleFileUpload files s) = localStorage s).
    { unfold handleFileUpload. repeat case_match; auto. }
    destruct E as [E1 E2]. rewrite E1, E2.
    split; [auto | intros H; contradiction H; reflexivity].
  - destruct (handleSubmit nf nt s) as [s1 [k|]] eqn:E.
    + destruct (handleSubmit_sent _ _ _ _ _ E) as (_ & _ & H1 & H2 & _).
      cbn [fst]. rewrite H1, H2. auto.
    + assert (s1 = s) as ->.
      { revert E. unfold handleSubmit.
        destruct (_ && _); [intros [= <-]; reflexivity |].
        repeat case_match; discriminate. }
      cbn [fst]. split; [auto | intros H; contradiction H; reflexivity].
  - split; reflexivity.
  - split; reflexivity.
  - split; [auto | intros H; contradiction H; reflexivity].
  - unfold ws_onmessage_text. destruct r as [t|].
    + destruct (String.eqb t EmptyString).
      * split; [auto | intros H; contradiction H; reflexivity].
      * split; reflexivity.
    + split; [auto | intros H; contradiction H; reflexivity].
Qed.

Lemma conversations_persisted_witness :
  conversations (step exampleChat (NewConversation 3 "10:05" "1/2/2025"))
  <> conversations exampleChat
  /\ inSync (step exampleChat (NewConversation 3 "10:05" "1/2/2025")).
Proof.
  assert (H : conversations (step exampleChat (NewConversation 3 "10:05" "1/2/2025"))
              <> conversations exampleChat) by discriminate.
  split; [exact H |].
  apply (conversations_persisted exampleChat (NewConversation 3 "10:05" "1/2/2025"));
    [exact H | discriminate].
Defined.

(** X20.  A reload brings back every conversation that the storage holds,
    as it was, and makes the first of them current, whichever one was
    current before; what was typed or attached is gone. *)
Theorem reload_restores_conversations (s : state) (now : Z) (dateString : string) :
  inSync s ->
  let s' := mount now dateString (initial (localStorage s)) in
  conversations s' = conversations s
  /\ currentConversationId s' = id <$> head (conversations s)
  /\ currentMessages s' = default [] (messages <$> head (conversations s))
  /\ message s' = EmptyString /\ attachedFile s' = None
  /\ inSync s'.
Proof.
  unfold inSync. intros Hs. cbv zeta. unfold mount. cbn. rewrite Hs.
  destruct (conversations s) as [|conv convs]; cbn.
  - repeat split; reflexivity.
  - unfold currentMessages. cbn. rewrite Z.eqb_refl. repeat split; reflexivity.
Qed.

Lemma reload_restores_conversations_witness :
  let s := step exampleChat (Selected 2) in
  let s := step s (NewConversation 3 "10:05" "1/2/2025") in
  let s := step s (Selected 1) in
  inSync s
  /\ currentConversationId s = Some 1
  /\ currentConversationId (mount 20 "1/3/2025" (initial (localStorage s))) = Some 3.
Proof.
  cbv zeta. split; [reflexivity |]. split; [reflexivity |].
  apply (reload_restores_conversations
           (step (step (step exampleChat (Selected 2))
                       (NewConversation 3 "10:05" "1/2/2025")) (Selected 1))
           20 "1/3/2025").
  reflexivity.
Defined.

(** X21.  When no conversation has the current id (none is selected, as
    after loading an empty list from the storage, or the selected one is
    gone), a question is sent to the API all the same, but neither the
    question nor the answer is recorded anywhere: the list is the same
    before and after, and the screen shows no messages. *)
Theorem submit_without_current_conversation
    (nowFile nowText now : Z) (s s1 : state) (k : submitted)
    (result : option string) :
  handleSubmit nowFile nowText s = (s1, Some k) ->
  Forall (fun conv => isCurrent (currentConversationId s) conv = false)
         (conversations s) ->
  conversations s1 = conversations s
  /\ conversations (handleSubmit_settled k result now s1) = conversations s
  /\ currentMessages (handleSubmit_settled k result now s1) = [].
Proof.
  intros Hsub Hnone.
  destruct (handleSubmit_sent _ _ _ _ _ Hsub) as (Hc & Hc1 & H1 & _ & Hupd).
  assert (E : updatedConversations k = conversations s).
  { rewrite Hupd. clear Hupd.
    induction (userBubbles nowFile nowText s) as [|m ms IH];
      cbn [foldl]; [reflexivity |].
    rewrite appendMessage_none by exact Hnone. exact IH. }
  assert (E2 : conversations (handleSubmit_settled k result now s1)
               = conversations s).
  { unfold handleSubmit_settled. cbn. rewrite Hc, E.
    apply appendMessage_none, Hnone. }
  split; [rewrite H1; exact E |]. split; [exact E2 |].
  unfold currentMessages. rewrite E2.
  replace (currentConversationId (handleSubmit_settled k result now s1))
    with (currentConversationId s) by (symmetry; exact Hc1).
  rewrite find_none by exact Hnone. reflexivity.
Qed.

Lemma submit_without_current_conversation_witness :
  let s := setMessage "anyone?" (mount 1 "1/1/2025" (initial (Some []))) in
  exists (s1 : state) (k : submitted),
    handleSubmit 10 11 s = (s1, Some k)
    /\ awaited k = startChat_sendMessage ["anyone?"%string] EmptyString
    /\ conversations (handleSubmit_settled k (Some "yes"%string) 12 s1) = [].
Proof.
  cbv zeta. eexists _, _. split; [reflexivity |]. split; [reflexivity |].
  eapply (submit_without_current_conversation 10 11 12
            (setMessage "anyone?" (mount 1 "1/1/2025" (initial (Some [])))));
    [reflexivity | constructor].
Defined.

(** X22.  A text reply on the voice socket writes back the list of
    conversations of the render that started the recording, with the reply
    added: a question typed and submitted since then is no longer in the
    current conversation, on the screen or in the storage. *)
Theorem voice_reply_overwrites_later_messages
    (nowFile nowText now : Z) (s s1 : state) (k : submitted)
    (t : string) (conv : Conversation) :
  handleSubmit nowFile nowText s = (s1, Some k) ->
  find (isCurrent (currentConversationId s)) (conversations s) = Some conv ->
  t <> EmptyString ->
  let voiceReply :=
    {| message_id := fromNumber now; content := t; sender := ai; type := None |} in
  let s2 := ws_onmessage_text (conversations s) (currentConversationId s)
              (Some t) now s1 in
  currentMessages s1 = messages conv ++ userBubbles nowFile nowText s
  /\ currentMessages s2 = messages conv ++ [voiceReply]
  /\ inSync s2.
Proof.
  intros Hsub Hfind Ht voiceReply s2.
  destruct (handleSubmit_sent _ _ _ _ _ Hsub) as (Hc & Hc1 & H1 & _ & Hupd).
  split; [| split].
  - unfold currentMessages. rewrite Hc1, H1, Hupd, currentMessages_foldl, Hfind.
    reflexivity.
  - subst s2. unfold ws_onmessage_text.
    destruct (String.eqb_spec t EmptyString) as [?|_]; [contradiction |].
    unfold currentMessages. cbn. rewrite Hc1, find_appendMessage, Hfind.
    reflexivity.
  - subst s2. unfold ws_onmessage_text.
    destruct (String.eqb_spec t EmptyString) as [?|_]; [contradiction |].
    reflexivity.
Qed.

Lemma voice_reply_overwrites_later_messages_witness :
  exists (s1 : state) (k : submitted) (conv : Conversation),
    handleSubmit 10 11 exampleChat = (s1, Some k)
    /\ find (isCurrent (currentConversationId exampleChat))
            (conversations exampleChat) = Some conv
    /\ "I hear you"%string <> EmptyString
    /\ length (currentMessages s1) = 2%nat
    /\ length (currentMessages
                 (ws_onmessage_text (conversations exampleChat)
                    (currentConversationId exampleChat)
                    (Some "I hear you"%string) 12 s1)) = 2%nat.
Proof.
  eexists _, _, _. split; [reflexivity |]. split; [reflexivity |].
  split; [discriminate |].
  destruct (voice_reply_overwrites_later_messages 10 11 12 exampleChat _ _
              "I hear you" _ eq_refl eq_refl ltac:(discriminate))
    as (E1 & E2 & _).
  rewrite E1, E2. split; reflexivity.
Defined.

(** X23.  A file that is picked and then submitted goes to the API as the
    base64 text of its bytes, under its own type, or as application/pdf
    when it has none, with the text typed as the prompt, or the empty
    prompt when the text is blank; the chat session is neither used nor
    replaced, and the file is shown in the conversation by its name. *)
Theorem picked_file_is_sent
    (nowFile nowText : Z) (s : state) (file : File) (others : list File)
    (bytes : list Z) :
  arrayBuffer file = Some bytes -> Forall isByte bytes ->
  exists (base64Data : string) (s1 : state) (k : submitted),
    arrayBufferToBase64 bytes = Some base64Data
    /\ handleSubmit nowFile nowText (handleFileUpload (file :: others) s)
       = (s1, Some k)
    /\ awaited k
       = generateContent base64Data
           (if String.eqb (file_type file) EmptyString
            then "application/pdf"%string else file_type file)
           (if blank (message s) then EmptyString else message s)
    /\ chatSession s1 = chatSession s
    /\ (exists bubble rest,
           userBubbles nowFile nowText (handleFileUpload (file :: others) s)
           = bubble :: rest
           /\ content bubble = name file /\ type bubble = Some "file"%string).
Proof.
  intros Hread Hbytes.
  pose proof (arrayBufferToBase64_bytes bytes Hbytes) as E.
  eexists.
  unfold handleFileUpload. rewrite Hread, E.
  unfold handleSubmit, userBubbles. cbn.
  rewrite andb_false_r.
  destruct (blank (message s)); eexists _, _; repeat split; eauto.
Qed.

Lemma picked_file_is_sent_witness :
  arrayBuffer exampleFile = Some [77; 97; 110; 77; 97]
  /\ Forall isByte [77; 97; 110; 77; 97]
  /\ exists (s1 : state) (k : submitted),
       handleSubmit 10 11 (handleFileUpload [exampleFile] exampleChat)
       = (s1, Some k)
       /\ awaited k
          = generateContent "TWFuTWE=" "application/pdf" "and then?".
Proof.
  assert (H : Forall isByte [77; 97; 110; 77; 97])
    by (repeat constructor; discriminate).
  split; [reflexivity |]. split; [exact H |].
  destruct (picked_file_is_sent 10 11 exampleChat exampleFile [] _ eq_refl H)
    as (b & s1 & k & Eb & Es & Ek & _).
  exists s1, k. split; [exact Es |].
  rewrite Ek. injection Eb as <-. reflexivity.
Defined.

(** X24.  Selecting a conversation, or creating one, drops the chat session:
    the next text that is submitted starts a new chat whose history holds
    that text alone, whatever was said before in the conversation, and
    sends it an empty message. *)
Theorem selecting_restarts_the_chat
    (nowFile nowText : Z) (s : state) (c : Z) (now : Z)
    (timeString dateString : string) :
  attachedFile s = None -> blank (message s) = false ->
  (exists s1 k,
      handleSubmit nowFile nowText (handleSelectConversation c s) = (s1, Some k)
      /\ awaited k = startChat_sendMessage [message s] EmptyString
      /\ chatSession s1 = Some {| history := [message s] |})
  /\ (exists s1 k,
         handleSubmit nowFile nowText
           (handleNewConversation now timeString dateString s) = (s1, Some k)
         /\ awaited k = startChat_sendMessage [message s] EmptyString
         /\ chatSession s1 = Some {| history := [message s] |}).
Proof.
  intros Hfile Hblank.
  split; unfold handleSubmit; cbn; rewrite Hfile, Hblank; cbn;
    eexists _, _; repeat split; reflexivity.
Qed.

Lemma selecting_restarts_the_chat_witness :
  let s := setChatSession (Some {| history := ["hello"%string] |}) exampleChat in
  attachedFile s = None /\ blank (message s) = false
  /\ exists s1 k,
       handleSubmit 10 11 (handleSelectConversation 1 s) = (s1, Some k)
       /\ awaited k = startChat_sendMessage [message s] EmptyString
       /\ chatSession s1 = Some {| history := [message s] |}.
Proof.
  cbv zeta. split; [reflexivity |]. split; [reflexivity |].
  apply (selecting_restarts_the_chat 10 11
           (setChatSession (Some {| history := ["hello"%string] |}) exampleChat)
           1 12 "10:05" "1/2/2025"); reflexivity.
Defined.

(** The date above a conversation, after the dividers up to it. *)
Lemma shownAbove_dateDividers (convs : list Conversation) :
  forall (previous : option string) (i : nat) (conv : Conversation),
    convs !! i = Some conv ->
    shownAbove previous (take (S i) (dateDividers previous convs))
    = Some (date conv).
Proof.
  induction convs as [|first convs IH]; intros previous i conv Hi;
    [discriminate |].
  assert (Hfirst :
            match match previous with
                  | Some d => if String.eqb d (date first) then None
                              else Some (date first)
                  | None => Some (date first)
                  end with
            | Some x => Some x
            | None => previous
            end = Some (date first)).
  { destruct previous as [d|]; [| reflexivity].
    destruct (String.eqb_spec d (date first)) as [->|_]; reflexivity. }
  destruct i as [|i].
  - injection Hi as <-. cbn. exact Hfirst.
  - cbn [dateDividers take]. unfold shownAbove. cbn [foldl].
    rewrite Hfirst. apply IH. exact Hi.
Qed.

(** X25.  In the sidebar every conversation stands under a divider that
    shows its own date: the last divider at or above it bears the date of
    the conversation, wherever it is in the list. *)
Theorem conversation_under_its_date
    (convs : list Conversation) (i : nat) (conv : Conversation) :
  convs !! i = Some conv ->
  head (dateDividers None convs) = Some (date <$> head convs)
  /\ shownAbove None (take (S i) (dateDividers None convs)) = Some (date conv).
Proof.
  intros Hi. split; [| apply shownAbove_dateDividers, Hi].
  destruct convs; [discriminate | reflexivity].
Qed.

Lemma conversation_under_its_date_witness :
  conversations exampleChat !! 1%nat
  = Some {| id := 2; title := "Chat 10:00"; date := "1/1/2025"; messages := [] |}
  /\ shownAbove None (take 2 (dateDividers None (conversations exampleChat)))
     = Some "1/1/2025"%string.
Proof.
  split; [reflexivity |].
  apply (conversation_under_its_date (conversations exampleChat) 1 _ eq_refl).
Defined.
